(** * Varuna: pipeline-parallel partitioner and executor

    A shallow embedding of [varuna/varuna.py] (the [Pipeline] executor and
    [scatter]) and of [varuna/partitioned_model.py] ([dry_run],
    [PartitionedModel]), with the properties of the design document proved
    or refuted against it.

    Python dictionaries are finite maps ([gmap]) where only lookups matter
    and association lists where the iteration order is observable; Python
    exceptions are values of [exn]; a call that waits for ever on an empty
    queue ends in [Blocked]. The tensor runtime, the random-number
    generators and the user's model are opaque: they are section variables
    or members of an interface. *)

From Stdlib Require Import ZArith Lia.
From stdpp Require Import base tactics option list strings gmap pretty.

Set Default Proof Using "Type".

(** ** Python exceptions and the outcome of a call *)

Inductive exn : Type :=
  | AssertionError (msg : string)
  | IndexError
  | KeyError (key : string)
  | TypeError
  | ValueError
  | ZeroDivisionError
  | AttributeError
  | UnboundLocalError
  | RuntimeError (msg : string)
  | KeyboardInterrupt
  | SystemExit.

(** [except Exception] catches every exception but the two that derive
    from [BaseException] only. *)
Definition is_Exception (e : exn) : bool :=
  match e with
  | KeyboardInterrupt | SystemExit => false
  | _ => true
  end.

(** The outcome of a call: it returns, it raises, or it waits for ever
    ([Queue.get] on a queue that nobody fills). *)
Inductive result (A : Type) : Type :=
  | Ok (a : A)
  | Raise (e : exn)
  | Blocked.
Arguments Ok {A} a.
Arguments Raise {A} e.
Arguments Blocked {A}.

Definition result_bind {A B} (f : A → result B) (m : result A) : result B :=
  match m with
  | Ok a => f a
  | Raise e => Raise e
  | Blocked => Blocked
  end.

#[export] Instance result_ret : MRet result := λ A a, Ok a.
#[export] Instance result_mbind : MBind result := λ A B f m, result_bind f m.
#[export] Instance result_fmap : FMap result := λ A B f m, result_bind (λ a, Ok (f a)) m.

Definition is_Ok {A} (m : result A) : bool :=
  match m with Ok _ => true | _ => false end.

Definition raises {A} (m : result A) : Prop := ∃ e, m = Raise e.

(** [assert cond, msg] *)
Definition py_assert (cond : bool) (msg : string) : result unit :=
  if cond then Ok tt else Raise (AssertionError msg).

(** A [for] loop whose body may raise: the state is threaded from left to
    right and the first failure ends the loop. *)
Fixpoint for_each {A S} (body : S → A → result S) (l : list A) (s : S) : result S :=
  match l with
  | [] => Ok s
  | a :: l' => s' ← body s a; for_each body l' s'
  end.

(** [enumerate(l)] *)
Definition enumerate {A} (l : list A) : list (nat * A) := imap (λ i a, (i, a)) l.

(** [l[i]] on a Python list. *)
Definition py_index {A} (l : list A) (i : nat) : result A :=
  match l !! i with
  | Some a => Ok a
  | None => Raise IndexError
  end.

(** [l[i] = x] on a Python list: an index past the end raises. *)
Definition py_setitem {A} (l : list A) (i : nat) (x : A) : result (list A) :=
  if decide (i < length l) then Ok (<[i:=x]> l) else Raise IndexError.

(** [list(range(0, stop, step))] for natural numbers. *)
Definition py_range0 (stop step : nat) : result (list nat) :=
  if decide (step = 0) then Raise ValueError
  else Ok ((λ i, i * step) <$> seq 0 ((stop + step - 1) / step)).

(** A Python [dict] whose iteration order is observable: the keys in the
    order of their first assignment. *)
Fixpoint dict_set {V} (k : string) (v : V) (d : list (string * V)) : list (string * V) :=
  match d with
  | [] => [(k, v)]
  | (k', v') :: d' => if decide (k = k') then (k, v) :: d' else (k', v') :: dict_set k v d'
  end.

Fixpoint dict_get {V} (k : string) (d : list (string * V)) : option V :=
  match d with
  | [] => None
  | (k', v') :: d' => if decide (k = k') then Some v' else dict_get k d'
  end.

(** [d[k]] *)
Definition dict_index {V} (d : list (string * V)) (k : string) : result V :=
  match dict_get k d with
  | Some v => Ok v
  | None => Raise (KeyError k)
  end.

(** ** [scatter]: a batch split into microbatches *)

Module Scatter.
Section scatter.
(** A tensor is seen through its leading dimension only: the list of its
    slices along dimension 0. *)
Context {Row : Type}.

(** [torch.Tensor.split(split_size)] along dimension 0, as the tensor
    library defines it: [num_splits] pieces, piece [i] being
    [narrow(0, i * split_size, length)] with [length = split_size] for
    all pieces but the last. *)
Definition num_splits (dim_size split_size : nat) : nat :=
  if decide (split_size = 0) then 1
  else Nat.max ((dim_size + split_size - 1) / split_size) 1.

Definition last_split_size (dim_size split_size : nat) : nat :=
  split_size - (split_size * num_splits dim_size split_size - dim_size).

Definition narrow (v : list Row) (start len : nat) : list Row := take len (drop start v).

Definition tensor_split (v : list Row) (split_size : nat) : result (list (list Row)) :=
  let dim_size := length v in
  if decide (split_size = 0 ∧ dim_size ≠ 0) then
    Raise (RuntimeError "split_size can only be 0 if dimension size is 0")
  else
    let n := num_splits dim_size split_size in
    Ok ((λ i, narrow v (i * split_size)
               (if decide (i < n - 1) then split_size
                else last_split_size dim_size split_size)) <$> seq 0 n).

(** The body of the inner loop:
    [if len(microbatches) <= i: microbatches.append(dict())] and then
    [microbatches[i][k] = value]. *)
Definition put_chunk (k : string) (microbatches : list (gmap string (list Row)))
    (iv : nat * list Row) : result (list (gmap string (list Row))) :=
  let microbatches :=
    if decide (length microbatches ≤ iv.1) then microbatches ++ [∅] else microbatches in
  mb ← py_index microbatches iv.1;
  Ok (<[iv.1 := <[k := iv.2]> mb]> microbatches).

(** [scatter(input, chunk_size)]; [input] is the list [input.items()]. *)
Definition scatter (input : list (string * list Row)) (chunk_size : nat)
    : result (list (gmap string (list Row))) :=
  for_each (λ microbatches kv,
              chunked_values ← tensor_split kv.2 chunk_size;
              for_each (put_chunk kv.1) (enumerate chunked_values) microbatches)
           input [].

(** The slices of the tensor named [k], microbatch after microbatch. *)
Definition slices (k : string) (microbatches : list (gmap string (list Row))) : list (list Row) :=
  omap (λ mb, mb !! k) microbatches.

End scatter.
End Scatter.

(** ** [dry_run]: the two calibration traces *)

Module DryRun.

(** One firing of the forward hook [add_module_hook]: the module's name,
    whether it is a [CutPoint], and for each of its input tensors the size
    and the [requires_grad] flag. *)
Record HookCall : Type := {
  hc_name : string;
  hc_is_cutpoint : bool;
  hc_inputs : list (list nat * bool);
}.

(** The dictionaries the hook closes over. *)
Record Hooked : Type := {
  ordered_modules : list (string * bool);
  input_shapes : list (string * list (list nat));
  input_gradients : list (string * list bool);
}.

Definition add_module_hook (h : Hooked) (c : HookCall) : Hooked :=
  let om :=
    match dict_get (hc_name c) (ordered_modules h) with
    | None => ordered_modules h ++ [(hc_name c, hc_is_cutpoint c)]
    | Some _ => ordered_modules h
    end in
  if hc_is_cutpoint c then
    {| ordered_modules := om;
       input_shapes := dict_set (hc_name c) (fst <$> hc_inputs c) (input_shapes h);
       input_gradients := dict_set (hc_name c) (snd <$> hc_inputs c) (input_gradients h) |}
  else
    {| ordered_modules := om;
       input_shapes := input_shapes h;
       input_gradients := input_gradients h |}.

(** The innermost loop: the indices [i] with [d1 == 1 and d2 == 2]. *)
Definition indices_to_change (shape_1 shape_2 : list nat) : result (list nat) :=
  for_each (λ acc id1,
              d2 ← py_index shape_2 id1.1;
              Ok (if decide (id1.2 = 1 ∧ d2 = 2) then acc ++ [id1.1] else acc))
           (enumerate shape_1) [].

(** The loop over the tensors of one cutpoint. *)
Definition tensor_indices (shapes_1 : list (list nat)) (shapes_2 : result (list (list nat)))
    : result (list (list nat)) :=
  for_each (λ acc ishape,
              s2 ← shapes_2;
              shape_2 ← py_index s2 ishape.1;
              _ ← py_assert (bool_decide (length ishape.2 = length shape_2)) "";
              ixs ← indices_to_change ishape.2 shape_2;
              Ok (acc ++ [ixs]))
           (enumerate shapes_1) [].

(** The loop over the cutpoints of the first trace. [input_shapes_2[name]]
    is evaluated inside the loop over the tensors, so a cutpoint missing
    from the second trace only matters when the first trace has a tensor
    for it. *)
Definition shape_changes (input_shapes_1 input_shapes_2 : list (string * list (list nat)))
    : result (list (string * list (list nat))) :=
  for_each (λ acc ns,
              ixs ← tensor_indices ns.2 (dict_index input_shapes_2 ns.1);
              Ok (dict_set ns.1 ixs acc))
           input_shapes_1 [].

Record DryRunOut : Type := {
  out_ordered_modules : list (string * bool);
  out_input_shapes : list (string * list (list nat));
  out_shape_indices_to_change : list (string * list (list nat));
  out_input_gradients : list (string * list bool);
  out_num_cutpoints : nat;
}.

(** [dry_run(model, get_batch, from_cache)]. [named_modules] lists
    [model.named_modules()] with the [CutPoint] test of each;
    [model_run n] is the sequence of hook firings of
    the model run on [get_batch(n, 'cpu')], or the exception the model raises. The
    pickle files written at the end are not part of the model. *)
Definition dry_run (named_modules : list (string * bool))
    (model_run : nat → result (list HookCall)) : result DryRunOut :=
  let hooked := filter (λ nm, nm.1 ≠ "") named_modules in
  let num_cutpoints := length (filter (λ nm, nm.2 = true) hooked) in
  calls_1 ← model_run 1;
  let h1 := foldl add_module_hook
              {| ordered_modules := []; input_shapes := []; input_gradients := [] |} calls_1 in
  let input_shapes_1 := input_shapes h1 in
  calls_2 ← model_run 2;
  let h2 := foldl add_module_hook
              {| ordered_modules := ordered_modules h1; input_shapes := [];
                 input_gradients := input_gradients h1 |} calls_2 in
  let input_shapes_2 := input_shapes h2 in
  shape_indices_to_change ← shape_changes input_shapes_1 input_shapes_2;
  Ok {| out_ordered_modules := ordered_modules h2;
        out_input_shapes := input_shapes_1;
        out_shape_indices_to_change := shape_indices_to_change;
        out_input_gradients := input_gradients h2;
        out_num_cutpoints := num_cutpoints |}.

(** The input shapes a trace records: what the hooks leave in a fresh
    [input_shapes] dictionary. *)
Definition traced_shapes (calls : list HookCall) : list (string * list (list nat)) :=
  input_shapes (foldl add_module_hook
    {| ordered_modules := []; input_shapes := []; input_gradients := [] |} calls).

End DryRun.

(** ** The parameter-ownership resolver *)

Module Ownership.

(** What the interpreter-level trace hook sees while the model runs without
    gradients: a Python-level call (the name of the called function and the
    identities of those of its arguments that are [torch.nn.Parameter]s),
    or the forward of a [CutPoint], which runs [boundary_func]. *)
Inductive TraceEvent : Type :=
  | Call (func_name : string) (param_args : list nat)
  | Boundary.

(** [trace_param_access] on one call event. *)
Definition trace_param_access (track_cp : nat) (param_access : gmap nat (gset nat))
    (func_name : string) (param_args : list nat) : gmap nat (gset nat) :=
  if decide (func_name = "write" ∨ func_name = "__hash__") then param_access
  else
    foldl (λ pa arg,
             match pa !! arg with
             | Some cps => <[arg := cps ∪ {[track_cp]}]> pa
             | None => pa
             end)
          param_access param_args.

(** The traced run: [track_cp] starts at 0 and every cutpoint adds 1. *)
Definition trace_step (st : nat * gmap nat (gset nat)) (ev : TraceEvent)
    : nat * gmap nat (gset nat) :=
  match ev with
  | Call f args => (st.1, trace_param_access st.1 st.2 f args)
  | Boundary => (st.1 + 1, st.2)
  end.

Definition traced_access (parameters : list nat) (events : list TraceEvent)
    : gmap nat (gset nat) :=
  (foldl trace_step (0, foldl (λ pa p, <[p := ∅]> pa) ∅ parameters) events).2.

(** The first loop, over [self.module.named_parameters()]. The assertion
    message names the parameter. *)
Definition multiple_cuts_msg (n : string) : string :=
  "Parameter " +:+ n +:+ " in multiple cuts".

Definition created_elsewhere_msg (n : string) : string :=
  "Parameter " +:+ n +:+ " accesed in another cut than it was created in".

Definition assign_accessed (param_access : gmap nat (gset nat))
    (param_name_to_pstage : gmap string nat) (np : string * nat)
    : result (gmap string nat) :=
  cps ← match param_access !! np.2 with
        | Some cps => Ok cps
        | None => Raise (KeyError np.1)
        end;
  _ ← py_assert (bool_decide (size cps < 2)) (multiple_cuts_msg np.1);
  match elements cps with
  | [] => Ok param_name_to_pstage
  | c :: _ =>
      let d := match param_name_to_pstage !! np.1 with
               | None => <[np.1 := c]> param_name_to_pstage
               | Some _ => param_name_to_pstage
               end in
      _ ← py_assert (bool_decide (d !! np.1 = Some c)) (created_elsewhere_msg np.1);
      Ok d
  end.

(** The second loop, over the canonical module order: a module is its
    name, its [CutPoint] test and the names of its own parameters
    ([named_parameters(recurse=False)]). *)
Definition assign_name (cp_index : nat) (name : string) (d : gmap string nat) (n : string)
    : gmap string nat :=
  let full_name := name +:+ "." +:+ n in
  match d !! full_name with
  | None => <[full_name := cp_index]> d
  | Some _ => d
  end.

Definition assign_structural (st : nat * gmap string nat) (m : string * bool * list string)
    : nat * gmap string nat :=
  if m.1.2 then (st.1 + 1, st.2)
  else (st.1, foldl (assign_name st.1 m.1.1) st.2 m.2).

(** The dictionary [param_name_to_pstage] that
    [trace_and_store_param_access] computes. *)
Definition resolve (named_parameters : list (string * nat))
    (events : list TraceEvent) (modules : list (string * bool * list string))
    : result (gmap string nat) :=
  let param_access := traced_access named_parameters.*2 events in
  accessed ← for_each (assign_accessed param_access) named_parameters ∅;
  Ok (foldl assign_structural (0, accessed) modules).2.

(** The interval of a parameter's structural position: what the second
    loop alone assigns. *)
Definition structural_interval (modules : list (string * bool * list string))
    (full_name : string) : option nat :=
  (foldl assign_structural (0, ∅) modules).2 !! full_name.

(** The intervals a parameter was observed in. *)
Definition observed (named_parameters : list (string * nat)) (events : list TraceEvent)
    (p : nat) : gset nat :=
  default ∅ (traced_access named_parameters.*2 events !! p).

End Ownership.

(** ** The process-wide state of the tensor library *)

Section torch.
Context {Rng : Type}.

Record Torch : Type := {
  grad_enabled : bool;
  cpu_rng : Rng;
  gpu_rng : Rng;
}.

Definition set_grad_enabled (b : bool) (t : Torch) : Torch :=
  {| grad_enabled := b; cpu_rng := cpu_rng t; gpu_rng := gpu_rng t |}.

(** [save_rng_states(device)]: the pair (CPU state, state of the device's
    generator). *)
Definition save_rng_states (t : Torch) : Rng * Rng := (cpu_rng t, gpu_rng t).

(** [restore_rng_states(rng_states, device)] *)
Definition restore_rng_states (rng_states : Rng * Rng) (t : Torch) : Torch :=
  {| grad_enabled := grad_enabled t; cpu_rng := rng_states.1; gpu_rng := rng_states.2 |}.

End torch.
Arguments Torch Rng : clear implicits.

(** ** Function objects

    The closures the two files create and hand to one another. A closure
    is the code it runs and the variables it captured. [PyArg] is the value
    bound to a [recompute] parameter: a Boolean in the calls of
    [PartitionedModel.forward], a function object in the calls that
    [Pipeline] makes. *)

Inductive Closure (Tensor : Type) : Type :=
  | PipeSend (recompute : bool)
  | PipeRecv (acts : option Tensor)
  | PMSend (recompute : PyArg Tensor)
  | PMRecv (acts : option (list Tensor))
with PyArg (Tensor : Type) : Type :=
  | ArgBool (b : bool)
  | ArgFun (c : Closure Tensor).
Arguments PipeSend {Tensor} recompute.
Arguments PipeRecv {Tensor} acts.
Arguments PMSend {Tensor} recompute.
Arguments PMRecv {Tensor} acts.
Arguments ArgBool {Tensor} b.
Arguments ArgFun {Tensor} c.

(** Python's truth value: a function object is true. *)
Definition truthy {Tensor} (a : PyArg Tensor) : bool :=
  match a with
  | ArgBool b => b
  | ArgFun _ => true
  end.

(** The tensor operations [PartitionedModel] uses. [tensor_rand] is
    [torch.rand] of a shape and a dtype: it draws from the CPU generator. *)
Class TensorOps (Tensor Rng : Type) : Type := {
  tensor_cpu : Tensor → Tensor;
  tensor_to_device : Tensor → Tensor;
  tensor_rand : list nat → bool → Rng → Tensor * Rng;
}.

(** ** [PartitionedModel] *)

Module PM.
Section partitioned_model.
Context {Tensor Rng Value Inputs : Type} `{!TensorOps Tensor Rng}.

(** The two attributes of a [CutPoint] that the executor sets. *)
Record CutPoint : Type := {
  send_fn : option (Closure Tensor);
  recv_fn : option (Closure Tensor);
}.

(** What a background transfer worker does between two polls of the
    compute thread. *)
Inductive WorkerStep : Type :=
  | PutActs (payload : list Tensor)
  | PutGrads (payload : list Tensor)
  | PutExcp (e : exn)
  | Idle.

(** The attributes of a [PartitionedModel], in three groups. Those that
    the constructor and [initialize] set: *)
Record Config : Type := {
  num_stages : nat;
  stage : nat;
  fp16 : bool;
  trimmed : bool;
  stage_to_cut : option (list Z);
  num_cutpoints : nat;
  forward_input_shapes : list (list nat);
  backward_grad_shapes : list (list nat);
}.

(** The queues: each attribute is [None] until [set_queues] is called. *)
Record Queues : Type := {
  acts_send_queue : option (list (list Tensor));
  grads_send_queue : option (list (list Tensor));
  acts_queue : option (list (list Tensor));
  grads_queue : option (list (list Tensor));
  excp_queue : option (list exn);
  recompute_queue : option (list ((Rng * Rng) * option (list Tensor)));
}.

(** And the rest. [stage_to_rank_map], the module tree and the recording
    events are not modelled. [workers] is the environment: the future steps
    of the background workers, one between any two successive polls of the
    compute thread. *)
Record State : Type := {
  cfg : Config;
  queues : Queues;
  pre_cp : option CutPoint;
  post_cp : option CutPoint;
  ret_val : option Value;
  workers : list WorkerStep;
}.

Definition set_cfg (c : Config) (s : State) : State :=
  {| cfg := c; queues := queues s; pre_cp := pre_cp s; post_cp := post_cp s;
     ret_val := ret_val s; workers := workers s |}.
Definition set_queues_of (q : Queues) (s : State) : State :=
  {| cfg := cfg s; queues := q; pre_cp := pre_cp s; post_cp := post_cp s;
     ret_val := ret_val s; workers := workers s |}.
Definition set_cps (pre post : option CutPoint) (s : State) : State :=
  {| cfg := cfg s; queues := queues s; pre_cp := pre; post_cp := post;
     ret_val := ret_val s; workers := workers s |}.
Definition set_ret_val (val : option Value) (s : State) : State :=
  {| cfg := cfg s; queues := queues s; pre_cp := pre_cp s; post_cp := post_cp s;
     ret_val := val; workers := workers s |}.
Definition set_workers (ws : list WorkerStep) (s : State) : State :=
  {| cfg := cfg s; queues := queues s; pre_cp := pre_cp s; post_cp := post_cp s;
     ret_val := ret_val s; workers := ws |}.

Definition with_acts_send_queue (v : list (list Tensor)) (q : Queues) : Queues :=
  {| acts_send_queue := Some v; grads_send_queue := grads_send_queue q;
     acts_queue := acts_queue q; grads_queue := grads_queue q;
     excp_queue := excp_queue q; recompute_queue := recompute_queue q |}.
Definition with_grads_send_queue (v : list (list Tensor)) (q : Queues) : Queues :=
  {| acts_send_queue := acts_send_queue q; grads_send_queue := Some v;
     acts_queue := acts_queue q; grads_queue := grads_queue q;
     excp_queue := excp_queue q; recompute_queue := recompute_queue q |}.
Definition with_acts_queue (v : list (list Tensor)) (q : Queues) : Queues :=
  {| acts_send_queue := acts_send_queue q; grads_send_queue := grads_send_queue q;
     acts_queue := Some v; grads_queue := grads_queue q;
     excp_queue := excp_queue q; recompute_queue := recompute_queue q |}.
Definition with_grads_queue (v : list (list Tensor)) (q : Queues) : Queues :=
  {| acts_send_queue := acts_send_queue q; grads_send_queue := grads_send_queue q;
     acts_queue := acts_queue q; grads_queue := Some v;
     excp_queue := excp_queue q; recompute_queue := recompute_queue q |}.
Definition with_excp_queue (v : list exn) (q : Queues) : Queues :=
  {| acts_send_queue := acts_send_queue q; grads_send_queue := grads_send_queue q;
     acts_queue := acts_queue q; grads_queue := grads_queue q;
     excp_queue := Some v; recompute_queue := recompute_queue q |}.
Definition with_recompute_queue (v : list ((Rng * Rng) * option (list Tensor)))
    (q : Queues) : Queues :=
  {| acts_send_queue := acts_send_queue q; grads_send_queue := grads_send_queue q;
     acts_queue := acts_queue q; grads_queue := grads_queue q;
     excp_queue := excp_queue q; recompute_queue := Some v |}.

(** [q.put(x)] and the attribute error of a queue that was never set. *)
Definition the_queue {A} (q : option (list A)) : result (list A) :=
  match q with
  | Some l => Ok l
  | None => Raise AttributeError
  end.

(** A worker's step: [put] on the queue it feeds (nothing when the queue
    was never set). *)
Definition worker_step (w : WorkerStep) (q : Queues) : Queues :=
  match w with
  | PutActs x =>
      match acts_queue q with Some l => with_acts_queue (l ++ [x]) q | None => q end
  | PutGrads x =>
      match grads_queue q with Some l => with_grads_queue (l ++ [x]) q | None => q end
  | PutExcp e =>
      match excp_queue q with Some l => with_excp_queue (l ++ [e]) q | None => q end
  | Idle => q
  end.

(** *** The polling loops of [set_recv_fn]

    One iteration of [while x is None]: the exception channel is looked at
    first, then the loop's own queue. [Ok None] is an iteration that found
    nothing. *)
Definition poll_once (own : Queues → option (list (list Tensor)))
    (with_own : list (list Tensor) → Queues → Queues) (q : Queues)
    : result (option (list Tensor * Queues)) :=
  excp ← the_queue (excp_queue q);
  match excp with
  | e :: _ => Raise e
  | [] =>
      mine ← the_queue (own q);
      match mine with
      | [] => Ok None
      | x :: rest => Ok (Some (x, with_own rest q))
      end
  end.

(** The loop: after an iteration that found nothing the workers make
    their next step; when they have none left the loop spins for ever. *)
Fixpoint poll (own : Queues → option (list (list Tensor)))
    (with_own : list (list Tensor) → Queues → Queues)
    (ws : list WorkerStep) (q : Queues)
    : result (list Tensor * Queues * list WorkerStep) :=
  match poll_once own with_own q with
  | Ok (Some (x, q')) => Ok (x, q', ws)
  | Ok None =>
      match ws with
      | [] => Blocked
      | w :: ws' => poll own with_own ws' (worker_step w q)
      end
  | Raise e => Raise e
  | Blocked => Blocked
  end.

Definition poll_acts := poll acts_queue with_acts_queue.
Definition poll_grads := poll grads_queue with_grads_queue.

(** *** [set_send_fn] and the closure [send] it defines *)

Definition install_send (f : Closure Tensor) (cp : CutPoint) : CutPoint :=
  {| send_fn := Some f; recv_fn := recv_fn cp |}.
Definition install_recv (f : option (Closure Tensor)) (cp : CutPoint) : CutPoint :=
  {| send_fn := send_fn cp; recv_fn := f |}.

Definition set_send_fn (recompute : PyArg Tensor) (s : State) : State :=
  let send := PMSend recompute in
  set_cps (install_send send <$> pre_cp s) (install_send send <$> post_cp s) s.

(** [torch.rand] for each of [shapes], the generator threaded through. *)
Fixpoint dummies (shapes : list (list nat)) (fp : bool) (g : Rng) : list Tensor * Rng :=
  match shapes with
  | [] => ([], g)
  | shape :: rest =>
      let '(x, g1) := tensor_rand shape fp g in
      let '(xs, g2) := dummies rest fp g1 in
      (x :: xs, g2)
  end.

(** The body of [send(tensor_tuple, grads)], [recompute] being the
    variable of [set_send_fn] it closes over. *)
Definition send (recompute : PyArg Tensor) (tensor_tuple : list Tensor) (grads : bool)
    (t : Torch Rng) (s : State) : result (Torch Rng * State) :=
  let '(sendlist, t) :=
    if trimmed (cfg s) then
      let shapes := if negb grads then backward_grad_shapes (cfg s)
                    else forward_input_shapes (cfg s) in
      let '(l, g) := dummies shapes (fp16 (cfg s)) (cpu_rng t) in
      (l, {| grad_enabled := grad_enabled t; cpu_rng := g; gpu_rng := gpu_rng t |})
    else (map tensor_cpu tensor_tuple, t) in
  if grads then
    l ← the_queue (grads_send_queue (queues s));
    Ok (t, set_queues_of (with_grads_send_queue (l ++ [sendlist]) (queues s)) s)
  else if negb (truthy recompute) then
    l ← the_queue (acts_send_queue (queues s));
    Ok (t, set_queues_of (with_acts_send_queue (l ++ [sendlist]) (queues s)) s)
  else Ok (t, s).

(** *** [set_recv_fn] and the closure [recv] it defines *)

(** [tuple(a.to(self.device) for a in acts)]: [None] is not iterable. *)
Definition to_device_all (acts : option (list Tensor)) : result (list Tensor) :=
  match acts with
  | Some l => Ok (map tensor_to_device l)
  | None => Raise TypeError
  end.

Definition set_recv_fn (recompute : PyArg Tensor) (t : Torch Rng) (s : State)
    : result (option (list Tensor) * Torch Rng * State) :=
  '(acts, t, s) ←
    (if truthy recompute then
       l ← the_queue (recompute_queue (queues s));
       match l with
       | [] => Blocked
       | (rng_states, acts) :: rest =>
           Ok (acts, restore_rng_states rng_states t,
               set_queues_of (with_recompute_queue rest (queues s)) s)
       end
     else if decide (0 < stage (cfg s)) then
       '(x, q, ws) ← poll_acts (workers s) (queues s);
       Ok (Some x, t, set_workers ws (set_queues_of q s))
     else Ok (None, t, s));
  acts ← (if decide (0 < stage (cfg s)) then Some <$> to_device_all acts else Ok acts);
  let recv := Some (PMRecv acts) in
  Ok (acts, t, set_cps (install_recv recv <$> pre_cp s) (install_recv recv <$> post_cp s) s).

(** The body of [recv(grads)], [acts] being the variable it closes over. *)
Definition recv (acts : option (list Tensor)) (grads : bool) (s : State)
    : result (option (list Tensor) * State) :=
  if grads then
    '(grds, q, ws) ← poll_grads (workers s) (queues s);
    Ok (Some (map tensor_to_device grds), set_workers ws (set_queues_of q s))
  else Ok (acts, s).

Definition clear_recv_fn (s : State) : State :=
  set_cps (install_recv None <$> pre_cp s) (install_recv None <$> post_cp s) s.

(** *** [forward]

    [self.module(inputs)] is the user's module, pruned to the stage: it may
    run the cutpoints, which call the installed closures and
    [set_ret_val], so it returns or raises together with a new state. *)
Inductive ModuleOutcome : Type :=
  | Returned (calc_val : option Value) (t : Torch Rng) (s : State)
  | Raised (e : exn) (t : Torch Rng) (s : State)
  | Hung.

Section forward.
Variable module_call : Inputs → Torch Rng → State → ModuleOutcome.
(** [print(..., flush=True, force=True)]: [None] when the [print] in scope
    accepts the call, the exception it raises otherwise. *)
Variable print_error : exn → option exn.

(** The [try] statement of [forward]. *)
Definition forward_try (inputs : Inputs) (t : Torch Rng) (s : State)
    : result (option Value * Torch Rng * State) :=
  match module_call inputs t s with
  | Returned calc_val t' s' =>
      Ok (match ret_val s' with Some v => Some v | None => calc_val end, t', s')
  | Raised e t' s' =>
      if is_Exception e then
        match ret_val s' with
        | None =>
            match print_error e with
            | Some e' => Raise e'
            | None => Raise e
            end
        | Some v => Ok (Some v, t', s')
        end
      else Raise e
  | Hung => Blocked
  end.

(** The communication setup of [forward]: [recv_acts] is bound only when
    [handle_comm] is true. *)
Definition forward_setup (recompute : PyArg Tensor) (handle_comm : bool)
    (t : Torch Rng) (s : State)
    : result (option (option (list Tensor)) * Torch Rng * State) :=
  if handle_comm then
    '(acts, t, s) ← set_recv_fn recompute t (set_send_fn recompute s);
    Ok (Some acts, t, s)
  else Ok (None, t, clear_recv_fn s).

(** What follows the [try] statement and [self.ret_val = None]. *)
Definition forward_finish (save_ctx : bool) (rng_states : Rng * Rng)
    (recv_acts : option (option (list Tensor))) (ret : option Value)
    (t : Torch Rng) (s : State) : result (option Value * Torch Rng * State) :=
  if save_ctx then
    bound ← match recv_acts with
            | Some acts => Ok acts
            | None => Raise UnboundLocalError
            end;
    recv_acts ← (if decide (0 < stage (cfg s)) then
                   match bound with
                   | Some l => Ok (Some (map tensor_cpu l))
                   | None => Raise TypeError
                   end
                 else Ok bound);
    l ← the_queue (recompute_queue (queues s));
    Ok (ret, t,
        set_queues_of (with_recompute_queue (l ++ [(rng_states, recv_acts)]) (queues s)) s)
  else Ok (ret, t, s).

(** [forward(inputs_as_dict, recompute, save_ctx, recording=False,
    handle_comm)]. *)
Definition forward (inputs : Inputs) (recompute : PyArg Tensor)
    (save_ctx handle_comm : bool) (t : Torch Rng) (s : State)
    : result (option Value * Torch Rng * State) :=
  let rng_states := save_rng_states t in
  '(recv_acts, t, s) ← forward_setup recompute handle_comm t s;
  '(ret, t, s) ← forward_try inputs t s;
  forward_finish save_ctx rng_states recv_acts ret t (set_ret_val None s).

End forward.

(** *** [initialize] *)

(** [int((num_cutpoints + 1) / num_stages)] and the list of the
    [range(0, cuts_per_stage * num_stages, cuts_per_stage)]. *)
Definition default_stage_to_cut (num_cutpoints num_stages : nat) : result (list Z) :=
  if decide (num_stages = 0) then Raise ZeroDivisionError
  else
    let cuts_per_stage := (num_cutpoints + 1) / num_stages in
    map Z.of_nat <$> py_range0 (cuts_per_stage * num_stages) cuts_per_stage.

(** [all(stage_to_cut[i] < stage_to_cut[i+1] for i in range(num_stages-1))]:
    [all] stops at the first false item. *)
Definition all_increasing (cuts : list Z) (num_stages : nat) : result bool :=
  for_each (λ (acc : bool) i,
              if acc then
                a ← py_index cuts i;
                b ← py_index cuts (i + 1);
                Ok (bool_decide (a < b)%Z)
              else Ok false)
           (seq 0 (num_stages - 1)) true.

(** The three assertions. *)
Definition check_stage_to_cut (cuts : list Z) (num_stages num_cutpoints : nat)
    : result unit :=
  _ ← py_assert (bool_decide (length cuts = num_stages))
        "Stage-to-cut mapping must be number-of-stages long";
  final ← match last cuts with Some x => Ok x | None => Raise IndexError end;
  _ ← py_assert (bool_decide (final ≤ Z.of_nat num_cutpoints)%Z)
        "The last cut index must be smaller than total number of cutpoints";
  increasing ← all_increasing cuts num_stages;
  py_assert increasing "".

Definition with_cuts (cuts : option (list Z)) (n : nat) (c : Config) : Config :=
  {| num_stages := num_stages c; stage := stage c; fp16 := fp16 c; trimmed := trimmed c;
     stage_to_cut := cuts; num_cutpoints := n;
     forward_input_shapes := forward_input_shapes c;
     backward_grad_shapes := backward_grad_shapes c |}.

(** [initialize]. [dry_run] is the outcome of [self.dry_run(...)], which
    sets [num_cutpoints]; [prepare] is everything after the assertions
    ([find_shared_weight_stages], the profiling setup, [prep_cutpoints],
    [remove_unused_parameters]). *)
Definition initialize (dry_run : result nat) (prepare : State → result State)
    (s : State) : result State :=
  n ← dry_run;
  cuts ← match stage_to_cut (cfg s) with
         | None => default_stage_to_cut n (num_stages (cfg s))
         | Some cuts => Ok cuts
         end;
  _ ← check_stage_to_cut cuts (num_stages (cfg s)) n;
  prepare (set_cfg (with_cuts (Some cuts) n (cfg s)) s).

(** The invariant of a stage assignment. *)
Definition valid_stage_to_cut (cuts : list Z) (num_stages num_cutpoints : nat) : Prop :=
  length cuts = num_stages ∧
  (∀ i a b, cuts !! i = Some a → cuts !! (i + 1) = Some b → (a < b)%Z) ∧
  (∀ x, last cuts = Some x → (x ≤ Z.of_nat num_cutpoints)%Z).

End partitioned_model.
End PM.

(** ** [Pipeline]: the executor of one stage *)

(** What [Pipeline] asks of its [partitioned_model]. *)
Class StageModel (Tensor Rng M : Type) : Type := {
  model_set_send_fn : PyArg Tensor → Torch Rng → M → result (Torch Rng * M);
  model_set_recv_fn : PyArg Tensor → Torch Rng → M → result (Torch Rng * M);
}.

Module Pipeline.
Section pipeline.
Context {Tensor Rng Inputs Output Num M : Type}.

(** What the model and the autograd engine can reach while they run: the
    process-wide state, the model itself, and the queues that the closures
    [send] and [recv] close over. *)
Record Env : Type := {
  torch : Torch Rng;
  model : M;
  acts_send_queue : list Tensor;
  grads_send_queue : list Tensor;
  grads_queue : list Tensor;
  no_sync : bool;
}.

(** The tensor runtime, the model and the autograd engine, all opaque.
    [backward loss grads amp] is [loss.backward(grads)], inside
    [amp.scale_loss(..., delay_overflow_check=b)] when [amp = Some b]. *)
Class Runtime : Type := {
  model_call : Inputs → Env → result (Output * Env);
  backward : Tensor → option Tensor → option bool → Env → result Env;
  first_output : Output → result Tensor;
  ones_like : Tensor → Tensor;
  div_chunks : Tensor → nat → Tensor;
  item : Tensor → result Num;
  num_zero : Num;
  num_add : Num → Num → Num;
}.

Context `{!StageModel Tensor Rng M} `{!Runtime}.

(** The calls [Pipeline] makes to the outside, in order: a history kept to
    state what was called with what. [ModelCall] records the process-wide
    state at the time of the call. *)
Inductive Effect : Type :=
  | SetGradEnabled (b : bool)
  | SaveRng (rng_states : Rng * Rng)
  | RestoreRng (rng_states : Rng * Rng)
  | SetSendFn (recompute : bool)
  | SetRecvFn (acts : option Tensor)
  | ModelCall (inputs : Inputs) (t : Torch Rng)
  | Backward (loss : Tensor) (grads : option Tensor) (amp : option bool).

Record Config : Type := {
  batches : list Inputs;
  partitions : nat;
  stage : nat;
  data_parallel : bool;
  fp16 : bool;
  schedule : list (nat * nat);
  fwd_inp_shape : option (list nat);
  bwd_grad_shape : option (list nat);
  last_chunk_size : nat;
}.

(** A [Pipeline] object. The receive queues hold, in order, what the
    receive workers deliver during the run: [get] on an empty one waits for
    ever. *)
Record Pipe : Type := {
  config : Config;
  env : Env;
  acts_queue : list Tensor;
  recompute_queue : list ((Rng * Rng) * option Tensor);
  loss : option Tensor;
  average_loss : Num;
  history : list Effect;
}.

Definition set_env (e : Env) (p : Pipe) : Pipe :=
  {| config := config p; env := e; acts_queue := acts_queue p;
     recompute_queue := recompute_queue p; loss := loss p;
     average_loss := average_loss p; history := history p |}.
Definition set_acts_queue (q : list Tensor) (p : Pipe) : Pipe :=
  {| config := config p; env := env p; acts_queue := q;
     recompute_queue := recompute_queue p; loss := loss p;
     average_loss := average_loss p; history := history p |}.
Definition set_recompute_queue (q : list ((Rng * Rng) * option Tensor)) (p : Pipe) : Pipe :=
  {| config := config p; env := env p; acts_queue := acts_queue p;
     recompute_queue := q; loss := loss p;
     average_loss := average_loss p; history := history p |}.
Definition set_loss (l : option Tensor) (p : Pipe) : Pipe :=
  {| config := config p; env := env p; acts_queue := acts_queue p;
     recompute_queue := recompute_queue p; loss := l;
     average_loss := average_loss p; history := history p |}.
Definition set_average_loss (x : Num) (p : Pipe) : Pipe :=
  {| config := config p; env := env p; acts_queue := acts_queue p;
     recompute_queue := recompute_queue p; loss := loss p;
     average_loss := x; history := history p |}.
Definition emit (c : Effect) (p : Pipe) : Pipe :=
  {| config := config p; env := env p; acts_queue := acts_queue p;
     recompute_queue := recompute_queue p; loss := loss p;
     average_loss := average_loss p; history := history p ++ [c] |}.

Definition with_torch_model (t : Torch Rng) (m : M) (e : Env) : Env :=
  {| torch := t; model := m; acts_send_queue := acts_send_queue e;
     grads_send_queue := grads_send_queue e; grads_queue := grads_queue e;
     no_sync := no_sync e |}.
Definition with_no_sync (b : bool) (e : Env) : Env :=
  {| torch := torch e; model := model e; acts_send_queue := acts_send_queue e;
     grads_send_queue := grads_send_queue e; grads_queue := grads_queue e;
     no_sync := b |}.
Definition set_torch (t : Torch Rng) (p : Pipe) : Pipe :=
  set_env (with_torch_model t (model (env p)) (env p)) p.

(** The bodies of the two closures, as they would run if a cutpoint called
    them. *)
Definition send (recompute : bool) (tensor : Tensor) (grads : bool) (e : Env) : Env :=
  if grads then
    {| torch := torch e; model := model e; acts_send_queue := acts_send_queue e;
       grads_send_queue := grads_send_queue e ++ [tensor]; grads_queue := grads_queue e;
       no_sync := no_sync e |}
  else if negb recompute then
    {| torch := torch e; model := model e; acts_send_queue := acts_send_queue e ++ [tensor];
       grads_send_queue := grads_send_queue e; grads_queue := grads_queue e;
       no_sync := no_sync e |}
  else e.

Definition recv (acts : option Tensor) (grads : bool) (e : Env)
    : result (option Tensor * Env) :=
  if grads then
    match grads_queue e with
    | [] => Blocked
    | g :: rest =>
        Ok (Some g,
            {| torch := torch e; model := model e; acts_send_queue := acts_send_queue e;
               grads_send_queue := grads_send_queue e; grads_queue := rest;
               no_sync := no_sync e |})
    end
  else Ok (acts, e).

(** [set_model_send_fn]: the closure goes to
    [self.partitioned_model.set_send_fn] as its only argument. *)
Definition set_model_send_fn (recompute : bool) (p : Pipe) : result Pipe :=
  '(t, m) ← model_set_send_fn (ArgFun (PipeSend recompute))
               (torch (env p)) (model (env p));
  Ok (emit (SetSendFn recompute) (set_env (with_torch_model t m (env p)) p)).

(** The first half of [set_model_recv_fn]: where [acts] comes from. *)
Definition take_acts (recompute : bool) (p : Pipe) : result (option Tensor * Pipe) :=
  if recompute then
    match recompute_queue p with
    | [] => Blocked
    | (ctx, acts) :: rest =>
        Ok (acts,
            emit (RestoreRng ctx)
              (set_torch (restore_rng_states ctx (torch (env p)))
                 (set_recompute_queue rest p)))
    end
  else if decide (0 < stage (config p)) then
    match acts_queue p with
    | [] => Blocked
    | a :: rest => Ok (Some a, set_acts_queue rest p)
    end
  else Ok (None, p).

(** [set_model_recv_fn]: the closure [recv] goes to
    [self.partitioned_model.set_recv_fn] as its only argument. *)
Definition set_model_recv_fn (recompute : bool) (p : Pipe)
    : result (option Tensor * Pipe) :=
  '(acts, p) ← take_acts recompute p;
  '(t, m) ← model_set_recv_fn (ArgFun (PipeRecv acts)) (torch (env p)) (model (env p));
  Ok (acts, emit (SetRecvFn acts) (set_env (with_torch_model t m (env p)) p)).

(** [self.model(inputs)] *)
Definition call_model (inputs : Inputs) (p : Pipe) : result (Output * Pipe) :=
  '(output, e) ← model_call inputs (env p);
  Ok (output, set_env e (emit (ModelCall inputs (torch (env p))) p)).

Definition call_backward (l : Tensor) (grads : option Tensor) (amp : option bool)
    (p : Pipe) : result Pipe :=
  e ← backward l grads amp (env p);
  Ok (set_env e (emit (Backward l grads amp) p)).

(** The last branch of [worker]: the backward task. When no loss is
    retained, [self.loss.size()] is an attribute error and
    [self.loss/chunks] a type error. *)
Definition backward_task (p : Pipe) : result Pipe :=
  p ← (if decide (Z.of_nat (stage (config p)) ≠ Z.of_nat (partitions (config p)) - 1)%Z
       then
         l ← match loss p with
             | Some l => Ok l
             | None => Raise AttributeError
             end;
         let grads := ones_like l in
         call_backward l (Some grads) (if fp16 (config p) then Some true else None) p
       else
         let chunks := length (batches (config p)) in
         l ← match loss p with
             | Some l => Ok (div_chunks l chunks)
             | None => Raise TypeError
             end;
         let p := set_loss (Some l) p in
         x ← item l;
         let p := set_average_loss (num_add (average_loss p) x) p in
         call_backward l None (if fp16 (config p) then Some false else None) p);
  Ok (set_loss None p).

(** [worker(task, grad_mode, inputs_as_dict)] *)
Definition worker (task : nat) (grad_mode : bool) (inputs : Inputs) (p : Pipe)
    : result Pipe :=
  if decide (task = 0) then
    let p := emit (SetGradEnabled grad_mode)
               (set_torch (set_grad_enabled grad_mode (torch (env p))) p) in
    let rng_states := save_rng_states (torch (env p)) in
    let p := if grad_mode then p else emit (SaveRng rng_states) p in
    p ← set_model_send_fn false p;
    '(acts, p) ← set_model_recv_fn false p;
    '(output, p) ← call_model inputs p;
    if grad_mode then
      l ← first_output output;
      Ok (set_loss (Some l) p)
    else Ok (set_recompute_queue (recompute_queue p ++ [(rng_states, acts)]) p)
  else if decide (task = 1) then
    let p := emit (SetGradEnabled true)
               (set_torch (set_grad_enabled true (torch (env p))) p) in
    p ← set_model_send_fn true p;
    '(_, p) ← set_model_recv_fn true p;
    '(output, p) ← call_model inputs p;
    l ← first_output output;
    Ok (set_loss (Some l) p)
  else backward_task p.

(** The gradient mode [run] chooses for the task at [index]:
    [self.schedule[index+1][0] == 2] is evaluated for a forward task
    only. *)
Definition grad_mode_at (sched : list (nat * nat)) (index : nat) (task : nat)
    : result bool :=
  if decide (task = 0) then
    next ← py_index sched (index + 1);
    Ok (bool_decide (next.1 = 2))
  else Ok false.

(** One round of the loop of [run]. *)
Definition run_step (p : Pipe) (it : nat * (nat * nat)) : result Pipe :=
  let '(index, task) := it in
  grad_mode ← grad_mode_at (schedule (config p)) index task.1;
  inputs ← py_index (batches (config p)) task.2;
  if data_parallel (config p) &&
     bool_decide (Z.of_nat task.2 < Z.of_nat (length (batches (config p))) - 1)%Z
  then
    p ← worker task.1 grad_mode inputs (set_env (with_no_sync true (env p)) p);
    Ok (set_env (with_no_sync false (env p)) p)
  else worker task.1 grad_mode inputs p.

(** [run]: the threads it starts and joins are the environment; the
    result is [self.average_loss]. *)
Definition run (p : Pipe) : result (Num * Pipe) :=
  p ← for_each run_step (enumerate (schedule (config p))) p;
  Ok (average_loss p, p).

(** [Pipeline.__init__]: empty queues, no loss, [average_loss = 0]. The
    receive queues are given what the receive workers will deliver. *)
Definition new_pipeline (c : Config) (t : Torch Rng) (m : M)
    (incoming_acts incoming_grads : list Tensor) : Pipe :=
  {| config := c;
     env := {| torch := t; model := m; acts_send_queue := []; grads_send_queue := [];
               grads_queue := incoming_grads; no_sync := false |};
     acts_queue := incoming_acts; recompute_queue := []; loss := None;
     average_loss := num_zero; history := [] |}.

(** *** The receive workers

    The shape of the receive request for the microbatch [index]. *)
Definition recv_shape (shape : option (list nat)) (index chunks last : nat)
    : result (list nat) :=
  l ← match shape with Some l => Ok l | None => Raise TypeError end;
  if decide ((Z.of_nat index = Z.of_nat chunks - 1)%Z ∧ 0 < last) then py_setitem l 0 last
  else Ok l.

(** The loop of a receive worker for the tasks of one kind: the shapes of
    the requests it posts, in order, and how it ends. The transfers
    themselves are assumed to complete. The final [del] of the tensor
    fails when no request was posted. *)
Fixpoint receiver_loop (kind : nat) (shape : option (list nat)) (chunks last : nat)
    (sched : list (nat * nat)) (posted : list (list nat))
    : list (list nat) * result unit :=
  match sched with
  | [] => (posted, match posted with [] => Raise UnboundLocalError | _ => Ok tt end)
  | (task, index) :: rest =>
      if decide (task = kind) then
        match recv_shape shape index chunks last with
        | Ok sh => receiver_loop kind shape chunks last rest (posted ++ [sh])
        | Raise e => (posted, Raise e)
        | Blocked => (posted, Blocked)
        end
      else receiver_loop kind shape chunks last rest posted
  end.

Definition acts_reciever (c : Config) : list (list nat) * result unit :=
  receiver_loop 0 (fwd_inp_shape c) (length (batches c)) (last_chunk_size c) (schedule c) [].

Definition grads_reciever (c : Config) : list (list nat) * result unit :=
  receiver_loop 2 (bwd_grad_shape c) (length (batches c)) (last_chunk_size c) (schedule c) [].

End pipeline.

(** *** What [Varuna.__init__] puts in the configuration *)

(** [self.fwd_inp_shape = self.model.forward_input_shapes[0]] followed by
    [self.fwd_inp_shape[0] = self.micro_batch_size]. *)
Definition init_shape (shapes : list (list nat)) (micro_batch_size : nat)
    : result (list nat) :=
  shape ← py_index shapes 0;
  py_setitem shape 0 micro_batch_size.

(** [self.batch_size = batch_size // data_depth] and
    [self.last_chunk_size = self.batch_size % chunk_size]. *)
Definition init_last_chunk_size (batch_size data_depth chunk_size : nat) : result nat :=
  if decide (data_depth = 0 ∨ chunk_size = 0) then Raise ZeroDivisionError
  else Ok ((batch_size / data_depth) mod chunk_size).

End Pipeline.

(** The [PartitionedModel] of [partitioned_model.py] as the model of a
    [Pipeline]: the argument of the two calls is bound to the parameter
    [recompute]. *)
#[export] Instance pm_stage_model {Tensor Rng Value : Type} `{!TensorOps Tensor Rng}
    : StageModel Tensor Rng (@PM.State Tensor Rng Value) := {|
  model_set_send_fn recompute t s := Ok (t, PM.set_send_fn recompute s);
  model_set_recv_fn recompute t s :=
    r ← PM.set_recv_fn recompute t s;
    Ok (r.1.2, r.2);
|}.

(** ** [Varuna]: where a process stands in the pipeline *)

Module Varuna.

(** [stage_to_rank_map]: a dictionary from the stages to the lists of the
    ranks that run them, in the order of its keys. The stages are natural
    numbers, so that [-1], the value of [self.stage] before the search, is
    the value of no key. *)
Definition RankMap : Type := list (nat * list nat).

Fixpoint map_get (stage : nat) (m : RankMap) : option (list nat) :=
  match m with
  | [] => None
  | (stage', ranks) :: m' => if decide (stage = stage') then Some ranks else map_get stage m'
  end.

(** [stage_to_rank_map[key][i]], the key being any integer. *)
Definition rank_at (m : RankMap) (key : Z) (i : nat) : result nat :=
  match (if decide (0 ≤ key)%Z then map_get (Z.to_nat key) m else None) with
  | Some ranks => py_index ranks i
  | None => Raise (KeyError (pretty key))
  end.

(** The inner loop of the search in [__init__]: the counter [i] at the
    first rank that is [self.rank]. *)
Fixpoint find_rank (rank : nat) (ranks : list nat) (i : nat) : option nat :=
  match ranks with
  | [] => None
  | r :: ranks' => if decide (r = rank) then Some i else find_rank rank ranks' (i + 1)
  end.

(** The search: the [break] leaves the inner loop only, so that a later
    stage that lists the rank overrides an earlier one. The result is
    [(self.stage, rank_within_stage, data_depth)]. *)
Definition init_stage (m : RankMap) (rank : nat) : result (nat * nat * nat) :=
  let found :=
    foldl (λ found kv,
             match find_rank rank kv.2 0 with
             | Some i => Some (kv.1, i, length kv.2)
             | None => found
             end) None m in
  match found with
  | Some r => Ok r
  | None => Raise ValueError
  end.

(** The ranks that [init_communication] sets, in the order of the
    assignments. *)
Record Ranks : Type := {
  embedding_recv_rank : option nat;
  embedding_send_rank : option nat;
  send_rank : option nat;
  recieve_rank : option nat;
}.

Definition init_ranks (m : RankMap) (stage rank_within_stage : nat) : result Ranks :=
  let partitions := Z.of_nat (length m) in
  let stage := Z.of_nat stage in
  er ← (if decide (stage = 0)%Z
        then Some <$> rank_at m (partitions - 1) rank_within_stage else Ok None);
  es ← (if decide (stage = partitions - 1)%Z
        then Some <$> rank_at m 0 rank_within_stage else Ok None);
  sr ← (if decide (stage < partitions - 1)%Z
        then Some <$> rank_at m (stage + 1) rank_within_stage else Ok None);
  rr ← (if decide (0 < stage)%Z
        then Some <$> rank_at m (stage - 1) rank_within_stage else Ok None);
  Ok {| embedding_recv_rank := er; embedding_send_rank := es;
        send_rank := sr; recieve_rank := rr |}.

(** The shapes that [init_communication] sets. [x = shapes[0]] followed
    by [x[0] = micro_batch_size] writes into the list that the model
    holds: the result is the shape and the model's list of shapes after
    the assignment. *)
Definition init_shape_of (shapes : list (list nat)) (micro_batch_size : nat)
    : result (list nat * list (list nat)) :=
  shape ← Pipeline.init_shape shapes micro_batch_size;
  Ok (shape, <[0 := shape]> shapes).

Record Comm : Type := {
  ranks : Ranks;
  fwd_inp_shape : option (list nat);
  bwd_grad_shape : option (list nat);
  model_forward_input_shapes : list (list nat);
  model_backward_grad_shapes : list (list nat);
}.

(** [init_communication(rank_within_stage)]; [partitions] is
    [len(stage_to_rank_map)]. *)
Definition init_communication (m : RankMap) (stage rank_within_stage micro_batch_size : nat)
    (forward_input_shapes backward_grad_shapes : list (list nat)) : result Comm :=
  let partitions := Z.of_nat (length m) in
  rs ← init_ranks m stage rank_within_stage;
  '(fwd, fis) ← (if decide (0 < stage)
                 then sf ← init_shape_of forward_input_shapes micro_batch_size;
                      Ok (Some sf.1, sf.2)
                 else Ok (None, forward_input_shapes));
  '(bwd, bgs) ← (if decide (Z.of_nat stage < partitions - 1)%Z
                 then sf ← init_shape_of backward_grad_shapes micro_batch_size;
                      Ok (Some sf.1, sf.2)
                 else Ok (None, backward_grad_shapes));
  Ok {| ranks := rs; fwd_inp_shape := fwd; bwd_grad_shape := bwd;
        model_forward_input_shapes := fis; model_backward_grad_shapes := bgs |}.

(** The entries of [self.config] that [Pipeline.__init__] reads, with the
    microbatches and the schedule that [forward] hands over with them. *)
Definition pipeline_config {Inputs : Type} (m : RankMap) (stage : nat) (fp16 : bool)
    (comm : Comm) (last_chunk_size : nat) (batches : list Inputs)
    (schedule : list (nat * nat)) : result (@Pipeline.Config Inputs) :=
  ranks ← match map_get stage m with
          | Some ranks => Ok ranks
          | None => Raise (KeyError (pretty stage))
          end;
  Ok {| Pipeline.batches := batches;
        Pipeline.partitions := length m;
        Pipeline.stage := stage;
        Pipeline.data_parallel := bool_decide (1 < length ranks);
        Pipeline.fp16 := fp16;
        Pipeline.schedule := schedule;
        Pipeline.fwd_inp_shape := fwd_inp_shape comm;
        Pipeline.bwd_grad_shape := bwd_grad_shape comm;
        Pipeline.last_chunk_size := last_chunk_size |}.

End Varuna.

(** ** [Pipeline]: the transfer threads *)

Module Threads.
Section threads.
Context {Tensor Rng Inputs : Type} `{!TensorOps Tensor Rng}.

(** [spawn_recieve_workers]: whether the thread of [acts_reciever] and
    that of [grads_reciever] are started. *)
Definition spawn_recieve_workers (c : @Pipeline.Config Inputs) : bool * bool :=
  (bool_decide (0 < Pipeline.stage c),
   bool_decide (Z.of_nat (Pipeline.stage c) < Z.of_nat (Pipeline.partitions c) - 1)%Z).

(** [spawn_send_workers]: whether the thread of [acts_sender] and that of
    [grads_sender] are started. *)
Definition spawn_send_workers (c : @Pipeline.Config Inputs) : bool * bool :=
  (bool_decide (Z.of_nat (Pipeline.stage c) < Z.of_nat (Pipeline.partitions c) - 1)%Z,
   bool_decide (0 < Pipeline.stage c)).

(** The first loop of a sender: the tasks of its kind are counted. *)
Definition count_tasks (kind : nat) (sched : list (nat * nat)) : nat :=
  foldl (λ count entry, if decide (entry.1 = kind) then count + 1 else count) 0 sched.

(** The second loop: [count] times, a tensor is taken from the send
    queue and its CPU copy is sent. [queue] is what the compute thread puts
    on the queue during the run; on an empty queue the sender waits. The
    result is the tensors sent, in order, and how the sender ends. *)
Fixpoint sender_loop (count : nat) (queue : list Tensor) (sent : list Tensor)
    : list Tensor * result unit :=
  match count with
  | 0 => (sent, Ok tt)
  | S count' =>
      match queue with
      | [] => (sent, Blocked)
      | x :: queue' => sender_loop count' queue' (sent ++ [tensor_cpu x])
      end
  end.

Definition acts_sender (c : @Pipeline.Config Inputs) (acts_send_queue : list Tensor)
    : list Tensor * result unit :=
  sender_loop (count_tasks 0 (Pipeline.schedule c)) acts_send_queue [].

Definition grads_sender (c : @Pipeline.Config Inputs) (grads_send_queue : list Tensor)
    : list Tensor * result unit :=
  sender_loop (count_tasks 2 (Pipeline.schedule c)) grads_send_queue [].

End threads.
End Threads.

(** ** [PartitionedModel.__init__]: the stage of the process *)

Module PMInit.

(** The search for [self.stage]: the first stage that lists the rank.
    When none does, the [else] of the loop builds its message with
    ["Rank " + self.rank], which for an integer rank is a [TypeError]. *)
Fixpoint init_stage (m : Varuna.RankMap) (rank : nat) : result nat :=
  match m with
  | [] => Raise TypeError
  | (stage, ranks) :: m' =>
      if decide (rank ∈ ranks) then Ok stage else init_stage m' rank
  end.

End PMInit.

(** ** The intervals of the parameters and the stages *)

Module ParamStages.

(** [start_pstage] and [end_pstage] of [check_unused_parameters]. *)
Definition stage_bounds (c : PM.Config) : result (Z * Z) :=
  cuts ← match PM.stage_to_cut c with
         | Some cuts => Ok cuts
         | None => Raise TypeError
         end;
  start_pstage ← py_index cuts (PM.stage c);
  end_pstage ← (if decide (Z.of_nat (PM.stage c) < Z.of_nat (PM.num_stages c) - 1)%Z
                then py_index cuts (PM.stage c + 1)
                else Ok (Z.of_nat (PM.num_cutpoints c) + 1)%Z);
  Ok (start_pstage, end_pstage).

(** The test of the loop: the parameter has an interval, the interval is
    not [-1], and it lies outside the bounds. *)
Definition unused (start_pstage end_pstage : Z) (param_name_to_pstage : gmap string Z)
    (n : string) : bool :=
  match param_name_to_pstage !! n with
  | None => false
  | Some pstage =>
      bool_decide (pstage ≠ -1 ∧ (pstage < start_pstage ∨ pstage >= end_pstage))%Z
  end.

(** [check_unused_parameters]: the names of the parameters that are set
    to [None], in the order of [named_parameters()]. *)
Definition check_unused_parameters (c : PM.Config) (named_parameters : list string)
    (param_name_to_pstage : gmap string Z) : result (list string) :=
  bounds ← stage_bounds c;
  Ok (foldl (λ removed n,
               if unused bounds.1 bounds.2 param_name_to_pstage n
               then removed ++ [n] else removed)
            [] named_parameters).

(** The state of the loop of [parameter_names_to_cuts]: [stage_index],
    the dictionary, and [temp_param_names]. *)
Definition assign_all (stage_index : nat) (d : gmap string nat) (names : list string)
    : gmap string nat :=
  foldl (λ d p, <[p := stage_index]> d) d names.

(** A module of [ordered_modules] is [None] once it was removed; else it
    is a [CutPoint] or not, and has parameters of its own
    ([named_parameters(recurse=False)]). *)
Definition names_step (st : nat * gmap string nat * list string)
    (m : string * option (bool * list string)) : nat * gmap string nat * list string :=
  let '(stage_index, d, temp_param_names) := st in
  match m.2 with
  | None => st
  | Some (is_cutpoint, pnames) =>
      if decide (m.1 = "") then st
      else if is_cutpoint then (stage_index + 1, assign_all stage_index d temp_param_names, [])
      else (stage_index, d,
            temp_param_names ++ ((λ pname, m.1 +:+ "." +:+ pname) <$> pnames))
  end.

(** [parameter_names_to_cuts] *)
Definition parameter_names_to_cuts (ordered_modules : list (string * option (bool * list string)))
    : gmap string nat :=
  let '(stage_index, d, temp_param_names) := foldl names_step (0, ∅, []) ordered_modules in
  <["lm_head_weight" := stage_index]> (assign_all stage_index d temp_param_names).

End ParamStages.

(** ** [prep_cutpoints]: the markers that become boundaries *)

Module Prep.

(** What [attach_meta] sets on a marker, as far as it depends on the
    marker: its index and the two lists taken from the dictionaries of the
    dry run. *)
Record Meta : Type := {
  cp_index : nat;
  bwd_req_grads : list bool;
  dummy_shapes : list (list nat);
}.

(** The variables of the loop and the attributes it assigns.
    [fwd_inp_shape_changes] and [bwd_grad_shape_changes] do not exist
    before their assignment; [attached] lists the calls of [attach_meta]
    in order. *)
Record State : Type := {
  index : nat;
  assigned_index : nat;
  forward_input_shapes : list (list nat);
  fwd_inp_shape_changes : option (list (list nat));
  pre_cp : option string;
  backward_grad_shapes : list (list nat);
  bwd_grad_shape_changes : option (list (list nat));
  post_cp : option string;
  attached : list (string * Meta);
}.

Definition set_pre (name : string) (shapes changes : list (list nat)) (st : State) : State :=
  {| index := index st; assigned_index := assigned_index st;
     forward_input_shapes := shapes; fwd_inp_shape_changes := Some changes;
     pre_cp := Some name;
     backward_grad_shapes := backward_grad_shapes st;
     bwd_grad_shape_changes := bwd_grad_shape_changes st; post_cp := post_cp st;
     attached := attached st |}.

Definition set_post (name : string) (shapes changes : list (list nat)) (st : State) : State :=
  {| index := index st; assigned_index := assigned_index st;
     forward_input_shapes := forward_input_shapes st;
     fwd_inp_shape_changes := fwd_inp_shape_changes st; pre_cp := pre_cp st;
     backward_grad_shapes := shapes; bwd_grad_shape_changes := Some changes;
     post_cp := Some name;
     attached := attached st |}.

Definition attach (name : string) (meta : Meta) (st : State) : State :=
  {| index := index st; assigned_index := assigned_index st + 1;
     forward_input_shapes := forward_input_shapes st;
     fwd_inp_shape_changes := fwd_inp_shape_changes st; pre_cp := pre_cp st;
     backward_grad_shapes := backward_grad_shapes st;
     bwd_grad_shape_changes := bwd_grad_shape_changes st; post_cp := post_cp st;
     attached := attached st ++ [(name, meta)] |}.

Definition next_index (st : State) : State :=
  {| index := index st + 1; assigned_index := assigned_index st;
     forward_input_shapes := forward_input_shapes st;
     fwd_inp_shape_changes := fwd_inp_shape_changes st; pre_cp := pre_cp st;
     backward_grad_shapes := backward_grad_shapes st;
     bwd_grad_shape_changes := bwd_grad_shape_changes st; post_cp := post_cp st;
     attached := attached st |}.

(** The body of [if (index in self.stage_to_cut)]. *)
Definition assign (out : DryRun.DryRunOut) (stage : nat) (name : string) (st : State)
    : result State :=
  st ← (if decide (assigned_index st = stage) then
          shapes ← dict_index (DryRun.out_input_shapes out) name;
          changes ← dict_index (DryRun.out_shape_indices_to_change out) name;
          Ok (set_pre name shapes changes st)
        else Ok st);
  st ← (if decide (assigned_index st = stage + 1) then
          shapes ← dict_index (DryRun.out_input_shapes out) name;
          changes ← dict_index (DryRun.out_shape_indices_to_change out) name;
          Ok (set_post name shapes changes st)
        else Ok st);
  grads ← dict_index (DryRun.out_input_gradients out) name;
  shapes ← dict_index (DryRun.out_input_shapes out) name;
  Ok (attach name {| cp_index := assigned_index st; bwd_req_grads := grads;
                     dummy_shapes := shapes |} st).

(** The body of the loop for a module whose name is not empty, up to the
    test of the [break]. *)
Definition visit (out : DryRun.DryRunOut) (c : PM.Config) (st : State) (m : string * bool)
    : result State :=
  if m.2 then
    cuts ← match PM.stage_to_cut c with
           | Some cuts => Ok cuts
           | None => Raise TypeError
           end;
    st ← (if decide (Z.of_nat (index st) ∈ cuts) then assign out (PM.stage c) m.1 st
          else Ok st);
    Ok (next_index st)
  else Ok st.

(** The loop, with its [continue] and its [break]. *)
Fixpoint loop (out : DryRun.DryRunOut) (c : PM.Config) (modules : list (string * bool))
    (st : State) : result State :=
  match modules with
  | [] => Ok st
  | m :: modules' =>
      if decide (m.1 = "") then loop out c modules' st
      else
        st ← visit out c st m;
        if decide (assigned_index st = PM.num_stages c) then Ok st
        else loop out c modules' st
  end.

(** [prep_cutpoints], on the dictionaries of the dry run. *)
Definition prep_cutpoints (out : DryRun.DryRunOut) (c : PM.Config) : result State :=
  loop out c (DryRun.out_ordered_modules out)
    {| index := 1; assigned_index := 1;
       forward_input_shapes := []; fwd_inp_shape_changes := None; pre_cp := None;
       backward_grad_shapes := []; bwd_grad_shape_changes := None; post_cp := None;
       attached := [] |}.

End Prep.

(** * Vocabulary of the properties and sample programs *)

(** ** Vocabulary *)

Section scatter_vocabulary.
Context {Row : Type}.
Implicit Types (v : list Row) (mbs : list (gmap string (list Row))).

(** The pieces [tensor_split] returns. *)
Definition pieces (v : list Row) (cs : nat) : list (list Row) :=
  (λ i, take cs (drop (i * cs) v)) <$> seq 0 (Scatter.num_splits (length v) cs).

(** The slice named [k'] of microbatch [i], if both exist. *)
Definition slice_at (k' : string) mbs (i : nat) : option (list Row) :=
  mbs !! i ≫= (λ mb, mb !! k').

End scatter_vocabulary.

(** The batch-scaling dimensions of a tensor, in the words of the design:
    the indices whose extent is 1 in the first trace and 2 in the
    second. *)
Definition batch_dims (shape_1 shape_2 : list nat) : list nat :=
  filter (λ i, shape_1 !! i = Some 1 ∧ shape_2 !! i = Some 2) (seq 0 (length shape_1)).

(** One round of the loop over the tensors of a cutpoint. *)
Definition tensor_round (shapes_2 : result (list (list nat)))
    (acc : list (list nat)) (ishape : nat * list nat) : result (list (list nat)) :=
  s2 ← shapes_2;
  shape_2 ← py_index s2 ishape.1;
  _ ← py_assert (bool_decide (length ishape.2 = length shape_2)) "";
  ixs ← DryRun.indices_to_change ishape.2 shape_2;
  Ok (acc ++ [ixs]).

(** The hooks' effect on [input_shapes] alone. *)
Definition shapes_step (d : list (string * list (list nat))) (c : DryRun.HookCall)
    : list (string * list (list nat)) :=
  if DryRun.hc_is_cutpoint c
  then dict_set (DryRun.hc_name c) (fst <$> DryRun.hc_inputs c) d
  else d.

(** One round of the loop over the cutpoints. *)
Definition cutpoint_round (trace_2 : list (string * list (list nat)))
    (acc : list (string * list (list nat))) (ns : string * list (list nat))
    : result (list (string * list (list nat))) :=
  ixs ← DryRun.tensor_indices ns.2 (dict_index trace_2 ns.1);
  Ok (dict_set ns.1 ixs acc).

(** The default assignment [0, c, 2c, ...]. *)
Definition default_cuts (num_cutpoints num_stages : nat) : list Z :=
  (λ i, Z.of_nat (i * ((num_cutpoints + 1) / num_stages))) <$> seq 0 num_stages.

(** The shape a receive worker posts for a schedule entry. *)
Definition posted_shape (shape : list nat) (chunks last : nat) (entry : nat * nat)
    : list nat :=
  if decide (entry.2 + 1 = chunks ∧ 0 < last) then <[0 := last]> shape else shape.

(** The remainder shape in the words of the design: the traced shape with
    its batch-scaling dimensions set to the size of the remainder, all
    other dimensions unchanged. *)
Definition spec_remainder_shape (traced batch_scaling : list nat) (remainder : nat)
    : list nat :=
  imap (λ i d, if decide (i ∈ batch_scaling) then remainder else d) traced.

Section pipeline_vocabulary.
Context {Tensor Rng Inputs Output Num M : Type}.
Context `{!StageModel Tensor Rng M} `{!@Pipeline.Runtime Tensor Rng Inputs Output Num M}.
Implicit Types (p : @Pipeline.Pipe Tensor Rng Inputs Num M).

(** What a step leaves alone: everything but the environment and the
    history. *)
Definition same_private p p' : Prop :=
  Pipeline.config p' = Pipeline.config p ∧
  Pipeline.acts_queue p' = Pipeline.acts_queue p ∧
  Pipeline.recompute_queue p' = Pipeline.recompute_queue p ∧
  Pipeline.loss p' = Pipeline.loss p ∧
  Pipeline.average_loss p' = Pipeline.average_loss p.

(** The two calls that install closures change neither the gradient mode
    nor anything else in the environment than the model and the
    generators. *)
Definition setters_keep_grad_mode : Prop :=
  ∀ arg (t : Torch Rng) (m : M) t' m',
    (model_set_send_fn arg t m = Ok (t', m') ∨ model_set_recv_fn arg t m = Ok (t', m')) →
    grad_enabled t' = grad_enabled t.


(** The losses on which [backward] was called without a gradient
    argument: those of the final stage, already divided by the number of
    microbatches. *)
Definition scaled_losses (h : list (@Pipeline.Effect Tensor Rng Inputs)) : list Tensor :=
  omap (λ ev, match ev with Pipeline.Backward l None _ => Some l | _ => None end) h.

(** What a task adds to the history and to [average_loss]. *)
Definition adds_losses p p' : Prop :=
  ∃ new xs,
    Pipeline.history p' = Pipeline.history p ++ new ∧
    Forall2 (λ l x, Pipeline.item l = Ok x) (scaled_losses new) xs ∧
    Pipeline.average_loss p' = foldl Pipeline.num_add (Pipeline.average_loss p) xs ∧
    Pipeline.config p' = Pipeline.config p.

End pipeline_vocabulary.

(** The interval of a position of the canonical module order: the number
    of markers before it. *)
Definition markers_before (modules : list (string * bool * list string)) (i : nat) : nat :=
  length (filter (λ m : string * bool * list string, m.1.2 = true) (take i modules)).

(** A parameter's structural position: the place of the first module of
    the order, markers apart, that has a parameter of its own under this
    full name. *)
Definition structural_position (modules : list (string * bool * list string))
    (full_name : string) : option nat :=
  fst <$> list_find
            (λ m : string * bool * list string,
               m.1.2 = false ∧
               full_name ∈ (λ pname, m.1.1 +:+ "." +:+ pname) <$> m.2)
            modules.

(** The interval of a parameter's structural position. *)
Definition position_interval (modules : list (string * bool * list string))
    (full_name : string) : option nat :=
  markers_before modules <$> structural_position modules full_name.

(** ** Sample programs *)

(** A model with one cutpoint, traced at batch sizes 1 and 2: the tensor
    through the cutpoint has shape [n; 128; 2]. *)
Definition sample_run (n : nat) : result (list DryRun.HookCall) :=
  Ok [ {| DryRun.hc_name := "embed"; DryRun.hc_is_cutpoint := false;
          DryRun.hc_inputs := [([n; 128], false)] |};
       {| DryRun.hc_name := "cut1"; DryRun.hc_is_cutpoint := true;
          DryRun.hc_inputs := [([n; 128; 2], true)] |} ].

(** A model whose cutpoint passes one tensor at batch size 1 and two at
    batch size 2. *)
Definition growing_run (n : nat) : result (list DryRun.HookCall) :=
  Ok [ {| DryRun.hc_name := "cut1"; DryRun.hc_is_cutpoint := true;
          DryRun.hc_inputs :=
            if decide (n = 1) then [([1; 3], true)]
            else [([2; 3], true); ([2; 5], true)] |} ].

(** A module [a] with a weight and a bias, placed before the only
    cutpoint; the weight is passed to a Python-level function after the
    cutpoint and nowhere else, the bias is never seen by the trace. *)
Definition tied_parameters : list (string * nat) := [("a.weight", 0); ("a.bias", 1)].
Definition tied_events : list Ownership.TraceEvent :=
  [Ownership.Call "forward" []; Ownership.Boundary; Ownership.Call "tied_logits" [0]].
Definition tied_modules : list (string * bool * list string) :=
  [("a", false, ["weight"; "bias"]); ("cut1", true, []); ("b", false, [])].

(** A model of three stages, to be cut by default, before [set_queues]. *)
Definition fresh_model : @PM.State nat nat nat :=
  {| PM.cfg := {| PM.num_stages := 3; PM.stage := 1; PM.fp16 := false; PM.trimmed := false;
                  PM.stage_to_cut := None; PM.num_cutpoints := 0;
                  PM.forward_input_shapes := []; PM.backward_grad_shapes := [] |};
     PM.queues := {| PM.acts_send_queue := None; PM.grads_send_queue := None;
                     PM.acts_queue := None; PM.grads_queue := None;
                     PM.excp_queue := None; PM.recompute_queue := None |};
     PM.pre_cp := None; PM.post_cp := None; PM.ret_val := None; PM.workers := [] |}.

(** Python's own [print], the only one in scope in
    [partitioned_model.py]: it has no keyword [force] and raises
    [TypeError] before it prints. *)
Definition builtin_print (e : exn) : option exn := Some TypeError.

(** A stage whose module runs its boundary marker, which records the value
    7, or not, and then fails. *)
Definition failing_module (recorded : bool) (inputs : nat) (t : Torch nat)
    (s : @PM.State nat nat nat) : @PM.ModuleOutcome nat nat nat :=
  PM.Raised (RuntimeError "no-op module called")
    t (if recorded then PM.set_ret_val (Some 7) s else s).

#[export] Instance nat_tensor_ops : TensorOps nat nat := {|
  tensor_cpu x := x;
  tensor_to_device x := x;
  tensor_rand shape fp g := (g, S g);
|}.

Definition idle_torch : Torch nat := {| grad_enabled := true; cpu_rng := 11; gpu_rng := 22 |}.

(** A middle stage whose queues are set and empty; the send worker fails
    after two rounds. *)
Definition polling_model : @PM.State nat nat nat :=
  {| PM.cfg := {| PM.num_stages := 3; PM.stage := 1; PM.fp16 := false; PM.trimmed := false;
                  PM.stage_to_cut := Some [0; 2; 4]%Z; PM.num_cutpoints := 5;
                  PM.forward_input_shapes := [[1; 4]]; PM.backward_grad_shapes := [[1; 4]] |};
     PM.queues := {| PM.acts_send_queue := Some []; PM.grads_send_queue := Some [];
                     PM.acts_queue := Some []; PM.grads_queue := Some [];
                     PM.excp_queue := Some [];
                     PM.recompute_queue := Some [((5, 6), Some [40; 41])] |};
     PM.pre_cp := Some {| PM.send_fn := None; PM.recv_fn := None |};
     PM.post_cp := Some {| PM.send_fn := None; PM.recv_fn := None |};
     PM.ret_val := None;
     PM.workers := [PM.Idle; PM.Idle; PM.PutExcp (RuntimeError "send failed");
                    PM.PutActs [1; 2]] |}.

(** The same model under a [Pipeline] of stage 1 whose receive queue is
    empty, with a failure already on the model's exception channel. *)
Definition failed_model : @PM.State nat nat nat :=
  PM.set_queues_of
    (PM.with_excp_queue [RuntimeError "send failed"] (PM.queues polling_model)) polling_model.

Definition stalled_pipeline : @Pipeline.Pipe nat nat nat nat (@PM.State nat nat nat) :=
  {| Pipeline.config :=
       {| Pipeline.batches := [0; 1]; Pipeline.partitions := 3; Pipeline.stage := 1;
          Pipeline.data_parallel := false; Pipeline.fp16 := false;
          Pipeline.schedule := [(0, 0); (0, 1); (1, 0); (2, 0); (1, 1); (2, 1)];
          Pipeline.fwd_inp_shape := Some [1; 4]; Pipeline.bwd_grad_shape := Some [1; 4];
          Pipeline.last_chunk_size := 0 |};
     Pipeline.env := {| Pipeline.torch := idle_torch; Pipeline.model := failed_model;
                        Pipeline.acts_send_queue := []; Pipeline.grads_send_queue := [];
                        Pipeline.grads_queue := []; Pipeline.no_sync := false |};
     Pipeline.acts_queue := []; Pipeline.recompute_queue := [];
     Pipeline.loss := None; Pipeline.average_loss := 0; Pipeline.history := [] |}.

(** *** A small runtime to run the executor on

    Tensors, generator states, inputs, outputs and loss values are natural
    numbers; the model answers its input; dividing a loss is the division
    of natural numbers. *)
#[export] Instance unit_stage_model : StageModel nat nat unit := {|
  model_set_send_fn _ t m := Ok (t, m);
  model_set_recv_fn _ t m := Ok (t, m);
|}.

#[export] Instance nat_runtime : @Pipeline.Runtime nat nat nat nat nat unit := {|
  Pipeline.model_call inputs e := Ok (inputs, e);
  Pipeline.backward l grads amp e := Ok e;
  Pipeline.first_output output := Ok output;
  Pipeline.ones_like l := 1;
  Pipeline.div_chunks l n := l / n;
  Pipeline.item l := Ok l;
  Pipeline.num_zero := 0;
  Pipeline.num_add := Nat.add;
|}.

(** *** A runtime whose effects show

    The model is the number of closures that were installed on it. The
    stage draws one number from the CPU generator at every call and answers
    its input plus that number; [backward] puts the tensor it starts from
    on the send queue of the gradients. *)
#[export] Instance counting_stage_model : StageModel nat nat nat := {|
  model_set_send_fn _ t m := Ok (t, S m);
  model_set_recv_fn _ t m := Ok (t, S m);
|}.

#[export] Instance drawing_runtime : @Pipeline.Runtime nat nat nat nat nat nat := {|
  Pipeline.model_call inputs e :=
    Ok (inputs + cpu_rng (Pipeline.torch e),
        Pipeline.with_torch_model
          {| grad_enabled := grad_enabled (Pipeline.torch e);
             cpu_rng := S (cpu_rng (Pipeline.torch e));
             gpu_rng := gpu_rng (Pipeline.torch e) |}
          (Pipeline.model e) e);
  Pipeline.backward l grads amp e :=
    Ok {| Pipeline.torch := Pipeline.torch e; Pipeline.model := Pipeline.model e;
          Pipeline.acts_send_queue := Pipeline.acts_send_queue e;
          Pipeline.grads_send_queue := Pipeline.grads_send_queue e ++ [l];
          Pipeline.grads_queue := Pipeline.grads_queue e;
          Pipeline.no_sync := Pipeline.no_sync e |};
  Pipeline.first_output output := Ok output;
  Pipeline.ones_like l := 1;
  Pipeline.div_chunks l n := l / n;
  Pipeline.item l := Ok l;
  Pipeline.num_zero := 0;
  Pipeline.num_add := Nat.add;
|}.

(** The first of two stages, and the last of two stages, on two
    microbatches. *)
Definition first_stage_config : @Pipeline.Config nat :=
  {| Pipeline.batches := [8; 4]; Pipeline.partitions := 2; Pipeline.stage := 0;
     Pipeline.data_parallel := false; Pipeline.fp16 := false;
     Pipeline.schedule := [(0, 0); (0, 1); (1, 0); (2, 0); (2, 1)];
     Pipeline.fwd_inp_shape := None; Pipeline.bwd_grad_shape := Some [2; 4];
     Pipeline.last_chunk_size := 0 |}.

Definition last_stage_config : @Pipeline.Config nat :=
  {| Pipeline.batches := [8; 4]; Pipeline.partitions := 2; Pipeline.stage := 1;
     Pipeline.data_parallel := false; Pipeline.fp16 := false;
     Pipeline.schedule := [(0, 0); (2, 0); (0, 1); (2, 1)];
     Pipeline.fwd_inp_shape := Some [2; 4]; Pipeline.bwd_grad_shape := None;
     Pipeline.last_chunk_size := 0 |}.

(** A [Pipeline] of stage 1 over the [PartitionedModel] [polling_model],
    with one activation delivered. *)
Definition composed_pipeline : @Pipeline.Pipe nat nat nat nat (@PM.State nat nat nat) :=
  {| Pipeline.config := Pipeline.config stalled_pipeline;
     Pipeline.env := {| Pipeline.torch := idle_torch; Pipeline.model := polling_model;
                        Pipeline.acts_send_queue := []; Pipeline.grads_send_queue := [];
                        Pipeline.grads_queue := []; Pipeline.no_sync := false |};
     Pipeline.acts_queue := [9]; Pipeline.recompute_queue := [];
     Pipeline.loss := None; Pipeline.average_loss := 0; Pipeline.history := [] |}.

(** The last of two stages on a batch of 7 in microbatches of 2: four
    microbatches, the last of size 1; the boundary tensor is traced as
    [1; 128; 64] and configured as [2; 128; 64]. *)
Definition remainder_config : @Pipeline.Config (gmap string (list nat)) :=
  {| Pipeline.batches := [∅; ∅; ∅; ∅]; Pipeline.partitions := 2; Pipeline.stage := 1;
     Pipeline.data_parallel := false; Pipeline.fp16 := false;
     Pipeline.schedule := [(0, 0); (2, 0); (0, 1); (2, 1); (0, 2); (2, 2); (0, 3); (2, 3)];
     Pipeline.fwd_inp_shape := Some [2; 128; 64]; Pipeline.bwd_grad_shape := None;
     Pipeline.last_chunk_size := 1 |}.

(** A boundary whose tensors are laid out sequence first: traced as
    [128; 1; 64] and [128; 2; 64], so that dimension 1 scales with the
    batch. *)
Definition sequence_first_config : @Pipeline.Config (gmap string (list nat)) :=
  {| Pipeline.batches := [∅; ∅; ∅; ∅]; Pipeline.partitions := 2; Pipeline.stage := 1;
     Pipeline.data_parallel := false; Pipeline.fp16 := false;
     Pipeline.schedule := [(0, 0); (2, 0); (0, 1); (2, 1); (0, 2); (2, 2); (0, 3); (2, 3)];
     Pipeline.fwd_inp_shape := Some [2; 1; 64]; Pipeline.bwd_grad_shape := None;
     Pipeline.last_chunk_size := 1 |}.

(** A stage module that records nothing and answers its input. *)
Definition echo_module (inputs : nat) (t : Torch nat) (s : @PM.State nat nat nat)
    : @PM.ModuleOutcome nat nat nat :=
  PM.Returned (Some inputs) t s.

(** A trimmed copy of [polling_model]: a stage that is not profiled. *)
Definition trimmed_model : @PM.State nat nat nat :=
  PM.set_cfg
    {| PM.num_stages := 3; PM.stage := 1; PM.fp16 := false; PM.trimmed := true;
       PM.stage_to_cut := Some [0; 2; 4]%Z; PM.num_cutpoints := 5;
       PM.forward_input_shapes := [[1; 4]];
       PM.backward_grad_shapes := [[1; 4]; [1; 8]] |} polling_model.

(** The entries of [enumerate(schedule)] that are forward tasks to be
    recomputed: forward tasks whose successor in the schedule is not a
    backward task. *)
Definition saves_context (sched : list (nat * nat)) (it : nat * (nat * nat)) : bool :=
  bool_decide (it.2.1 = 0) &&
  match sched !! (it.1 + 1) with
  | Some next => negb (bool_decide (next.1 = 2))
  | None => false
  end.

(** The number of entries with a property. *)
Definition count_where {A} (f : A → bool) (l : list A) : nat := length (List.filter f l).

(** The first of two stages on two microbatches: the first microbatch
    is recomputed, the second goes backward at once. *)
Definition recomputing_config : @Pipeline.Config nat :=
  {| Pipeline.batches := [8; 4]; Pipeline.partitions := 2; Pipeline.stage := 0;
     Pipeline.data_parallel := false; Pipeline.fp16 := false;
     Pipeline.schedule := [(0, 0); (0, 1); (2, 1); (1, 0); (2, 0)];
     Pipeline.fwd_inp_shape := None; Pipeline.bwd_grad_shape := Some [2; 4];
     Pipeline.last_chunk_size := 0 |}.

(** The same stage under a schedule that ends with a forward task. *)
Definition trailing_forward_config : @Pipeline.Config nat :=
  {| Pipeline.batches := [8; 4]; Pipeline.partitions := 2; Pipeline.stage := 0;
     Pipeline.data_parallel := false; Pipeline.fp16 := false;
     Pipeline.schedule := [(0, 0); (2, 0); (0, 1)];
     Pipeline.fwd_inp_shape := None; Pipeline.bwd_grad_shape := Some [2; 4];
     Pipeline.last_chunk_size := 0 |}.

(** Two stages of two replicas each. *)
Definition two_by_two : Varuna.RankMap := [(0, [0; 1]); (1, [2; 3])].

(** A map in which rank 1 is listed by both stages. *)
Definition overlapping_map : Varuna.RankMap := [(0, [0; 1]); (1, [1; 2])].

(** A map whose stages are numbered from 0 and have [depth] replicas
    each. *)
Definition rectangular (m : Varuna.RankMap) (depth : nat) : Prop :=
  ∀ stage, stage < length m →
    ∃ ranks, Varuna.map_get stage m = Some ranks ∧ length ranks = depth.

(** The last of two stages that receives a batch of 7 rows in
    microbatches of 2. *)
Definition seven_rows : list (string * list nat) := [("input_ids", [1; 2; 3; 4; 5; 6; 7])].

Definition seven_rows_config (batches : list (gmap string (list nat)))
    : @Pipeline.Config (gmap string (list nat)) :=
  {| Pipeline.batches := batches; Pipeline.partitions := 2; Pipeline.stage := 1;
     Pipeline.data_parallel := false; Pipeline.fp16 := false;
     Pipeline.schedule := [(0, 0); (2, 0); (0, 1); (2, 1); (0, 2); (2, 2); (0, 3); (2, 3)];
     Pipeline.fwd_inp_shape := Some [2; 128; 64]; Pipeline.bwd_grad_shape := None;
     Pipeline.last_chunk_size := 1 |}.

(** The configuration of stage [stage] of a model that is cut at
    [cuts]. *)
Definition config_of_stage (cuts : list Z) (num_stages num_cutpoints stage : nat) : PM.Config :=
  {| PM.num_stages := num_stages; PM.stage := stage; PM.fp16 := false; PM.trimmed := false;
     PM.stage_to_cut := Some cuts; PM.num_cutpoints := num_cutpoints;
     PM.forward_input_shapes := []; PM.backward_grad_shapes := [] |}.

(** A parameter survives [check_unused_parameters] on a stage. *)
Definition kept_on (cuts : list Z) (num_stages num_cutpoints : nat)
    (named_parameters : list string) (param_name_to_pstage : gmap string Z)
    (n : string) (stage : nat) : Prop :=
  ∃ removed,
    ParamStages.check_unused_parameters (config_of_stage cuts num_stages num_cutpoints stage)
      named_parameters param_name_to_pstage = Ok removed ∧
    n ∉ removed.

(** The modules that are still there, as the ownership resolver reads
    them. *)
Definition live_modules (ordered_modules : list (string * option (bool * list string)))
    : list (string * bool * list string) :=
  omap (λ m, match m.2 with
             | Some (is_cutpoint, pnames) =>
                 if decide (m.1 = "") then None else Some (m.1, is_cutpoint, pnames)
             | None => None
             end) ordered_modules.

(** The full names of the parameters of the modules, in order. *)
Definition full_names (modules : list (string * bool * list string)) : list string :=
  concat ((λ m : string * bool * list string,
             if m.1.2 then [] else (λ pname, m.1.1 +:+ "." +:+ pname) <$> m.2) <$> modules).

(** What the second loop of the ownership resolver assigns, in order:
    the full names with the number of markers before their module. *)
Fixpoint structural_assignments (cp_index : nat) (modules : list (string * bool * list string))
    : list (string * nat) :=
  match modules with
  | [] => []
  | (name, is_cutpoint, pnames) :: modules' =>
      if is_cutpoint then structural_assignments (cp_index + 1) modules'
      else ((λ pname, (name +:+ "." +:+ pname, cp_index)) <$> pnames)
           ++ structural_assignments cp_index modules'
  end.

(** A dictionary filled from a list of assignments, the first assignment
    to a key being the one that counts, or the last. *)
Definition first_wins (d : gmap string nat) (l : list (string * nat)) : gmap string nat :=
  foldl (λ d kv, match d !! kv.1 with None => <[kv.1 := kv.2]> d | Some _ => d end) d l.

Definition last_wins (d : gmap string nat) (l : list (string * nat)) : gmap string nat :=
  foldl (λ d kv, <[kv.1 := kv.2]> d) d l.

(** Three stages over five markers, and the intervals of some
    parameters. *)
Definition sample_cuts : list Z := [0; 2; 4]%Z.
Definition sample_pstages : gmap string Z :=
  {[ "embed.weight" := 0; "layer3.weight" := 3; "head.weight" := 5; "tied" := -1 ]}%Z.
Definition sample_parameters : list string :=
  ["embed.weight"; "layer3.weight"; "head.weight"; "tied"; "unknown"].

Definition pruned_modules : list (string * option (bool * list string)) :=
  [("embed", Some (false, ["weight"])); ("cut1", Some (true, [])); ("mid", None);
   ("cut2", Some (true, [])); ("head", Some (false, ["weight"; "bias"]))].

(** The markers of a module order, in order. *)
Definition markers (modules : list (string * bool)) : list string :=
  (filter (λ m, m.1 ≠ "" ∧ m.2 = true) modules).*1.

(** A marker has its entries in the three dictionaries of the dry run. *)
Definition traced_marker (out : DryRun.DryRunOut) (name : string) : Prop :=
  is_Some (dict_get name (DryRun.out_input_shapes out)) ∧
  is_Some (dict_get name (DryRun.out_shape_indices_to_change out)) ∧
  is_Some (dict_get name (DryRun.out_input_gradients out)).

(** A model of five markers and the dictionaries of its dry run. *)
Definition five_markers : DryRun.DryRunOut :=
  {| DryRun.out_ordered_modules :=
       [("embed", false); ("c1", true); ("l1", false); ("c2", true); ("l2", false);
        ("c3", true); ("l3", false); ("c4", true); ("l4", false); ("c5", true);
        ("head", false)];
     DryRun.out_input_shapes :=
       [("c1", [[1; 1]]); ("c2", [[1; 2]]); ("c3", [[1; 3]]); ("c4", [[1; 4]]);
        ("c5", [[1; 5]])];
     DryRun.out_shape_indices_to_change :=
       [("c1", [[0]]); ("c2", [[0]]); ("c3", [[0]]); ("c4", [[0]]); ("c5", [[0]])];
     DryRun.out_input_gradients :=
       [("c1", [true]); ("c2", [true]); ("c3", [true]); ("c4", [true]); ("c5", [true])];
     DryRun.out_num_cutpoints := 5 |}.

(** * Properties *)

(** ** Loops *)

Lemma for_each_app {A S} (body : S → A → result S) l1 l2 s :
  for_each body (l1 ++ l2) s = for_each body l1 s ≫= for_each body l2.
Proof.
  revert s. induction l1 as [|a l1 IH]; intros s; simpl; [done|].
  destruct (body s a); simpl; auto.
Qed.

Lemma for_each_total {A S} (body : S → A → result S) l s :
  (∀ s a, a ∈ l → ∃ s', body s a = Ok s') → ∃ s', for_each body l s = Ok s'.
Proof.
  revert s. induction l as [|a l IH]; intros s Hb; simpl; [by eexists|].
  destruct (Hb s a) as [s' ->]; [left|]. simpl.
  apply IH. intros s0 a0 Hin. apply Hb. by right.
Qed.

Lemma dict_get_elem {V} (d : list (string * V)) k v :
  NoDup d.*1 → (k, v) ∈ d → dict_get k d = Some v.
Proof.
  induction d as [|[k' v'] d IH]; simpl; intros Hnd Hin.
  - by apply elem_of_nil in Hin.
  - apply NoDup_cons in Hnd as [Hk' Hnd].
    apply elem_of_cons in Hin as [Heq|Hin].
    + injection Heq as -> ->. by rewrite decide_True.
    + rewrite decide_False; [by apply IH|].
      intros ->. apply Hk'. apply list_elem_of_fmap. by exists (k', v).
Qed.

Lemma dict_get_None {V} (d : list (string * V)) k :
  k ∉ d.*1 → dict_get k d = None.
Proof.
  induction d as [|[k' v'] d IH]; simpl; intros Hk; [done|].
  rewrite decide_False; [|intros ->; apply Hk; left].
  apply IH. intros Hin. apply Hk. by right.
Qed.

(** ** [scatter] *)

Section scatter_facts.
Context {Row : Type}.
Implicit Types (v : list Row) (mbs : list (gmap string (list Row))).

Lemma num_splits_bounds len cs :
  0 < cs →
  let n := Scatter.num_splits len cs in
  1 ≤ n ∧ len ≤ cs * n ∧ (0 < len → cs * (n - 1) < len) ∧ (len = 0 → n = 1).
Proof.
  intros Hcs. unfold Scatter.num_splits. rewrite decide_False by lia. simpl.
  pose proof (Nat.div_mod_eq (len + cs - 1) cs) as Hdm.
  pose proof (Nat.mod_upper_bound (len + cs - 1) cs ltac:(lia)) as Hm.
  set (q := (len + cs - 1) / cs) in *. set (r := (len + cs - 1) mod cs) in *.
  assert (len = 0 → q = 0) by (intros ->; nia).
  assert (0 < len → 1 ≤ q) by nia.
  repeat split; nia.
Qed.

Lemma tensor_split_pieces v cs :
  0 < cs → Scatter.tensor_split v cs = Ok (pieces v cs).
Proof.
  intros Hcs. unfold Scatter.tensor_split, pieces. rewrite decide_False by lia.
  simpl. f_equal. apply list_fmap_ext. intros j i Hi.
  apply lookup_seq in Hi as [-> Hi]. simpl.
  destruct (num_splits_bounds (length v) cs Hcs) as (Hn1 & Hle & Hlt & Hz).
  unfold Scatter.narrow. case_decide as Hlast; [done|].
  assert (j = Scatter.num_splits (length v) cs - 1) as Hj by lia.
  unfold Scatter.last_split_size.
  set (n := Scatter.num_splits (length v) cs) in *.
  rewrite !take_ge; [done| |]; rewrite length_drop.
  - destruct (decide (length v = 0)); [lia|]. specialize (Hlt ltac:(lia)). nia.
  - destruct (decide (length v = 0)) as [Hz0|Hnz].
    + rewrite Hz0. lia.
    + specialize (Hlt ltac:(lia)). nia.
Qed.

Lemma concat_pieces_take v cs n :
  concat ((λ i, take cs (drop (i * cs) v)) <$> seq 0 n) = take (n * cs) v.
Proof.
  induction n as [|n IH]; [by rewrite take_0|].
  rewrite seq_S, fmap_app, concat_app, IH. simpl. rewrite app_nil_r.
  rewrite take_take_drop. f_equal. lia.
Qed.

Lemma concat_pieces v cs : 0 < cs → concat (pieces v cs) = v.
Proof.
  intros Hcs. unfold pieces. rewrite concat_pieces_take.
  destruct (num_splits_bounds (length v) cs Hcs) as (_ & Hle & _).
  apply take_ge. lia.
Qed.

Lemma pieces_lookup v cs i c :
  pieces v cs !! i = Some c → c = take cs (drop (i * cs) v).
Proof.
  unfold pieces. rewrite list_lookup_fmap. intros Hi.
  apply fmap_Some in Hi as (j & Hj & ->). apply lookup_seq in Hj as [-> _]. done.
Qed.

Lemma pieces_length v cs : length (pieces v cs) = Scatter.num_splits (length v) cs.
Proof. unfold pieces. by rewrite length_fmap, length_seq. Qed.

Lemma put_chunk_spec k mbs j c :
  j ≤ length mbs →
  ∃ mbs1, Scatter.put_chunk k mbs (j, c) = Ok mbs1 ∧ j < length mbs1 ∧
    ∀ i k', slice_at k' mbs1 i =
            if decide (i = j ∧ k' = k) then Some c else slice_at k' mbs i.
Proof.
  intros Hj. unfold Scatter.put_chunk. simpl.
  set (mbs0 := if decide (length mbs ≤ j) then mbs ++ [∅] else mbs).
  assert (j < length mbs0) as Hlt.
  { unfold mbs0. case_decide; [rewrite length_app; simpl|]; lia. }
  assert (∀ i k', slice_at k' mbs0 i = slice_at k' mbs i) as Hsame.
  { intros i k'. unfold mbs0, slice_at. case_decide as Hc; [|done].
    destruct (decide (i < length mbs)).
    - by rewrite lookup_app_l.
    - rewrite (lookup_ge_None_2 mbs i) by lia.
      destruct (decide (i = length mbs)) as [->|].
      + rewrite lookup_app_r by lia. rewrite Nat.sub_diag. simpl. apply lookup_empty.
      + rewrite lookup_ge_None_2; [done|]. rewrite length_app. simpl. lia. }
  destruct (lookup_lt_is_Some_2 mbs0 j Hlt) as [mb Hmb].
  unfold py_index. rewrite Hmb. simpl. eexists. split; [done|]. split.
  { by rewrite length_insert. }
  intros i k'. rewrite <- Hsame. unfold slice_at.
  destruct (decide (i = j)) as [->|Hne].
  - rewrite list_lookup_insert_eq by done. simpl. rewrite Hmb. simpl.
    destruct (decide (k' = k)) as [->|Hk].
    + rewrite decide_True by done. apply lookup_insert_eq.
    + rewrite decide_False by (intros [_ ?]; done). by apply lookup_insert_ne.
  - rewrite list_lookup_insert_ne by done. rewrite decide_False by (intros [? _]; done). done.
Qed.

Lemma put_chunks_spec k cks : ∀ j mbs,
  j ≤ length mbs →
  ∃ mbs', for_each (Scatter.put_chunk k) (imap (λ i a, (j + i, a)) cks) mbs = Ok mbs' ∧
    ∀ i k', slice_at k' mbs' i =
            if decide (k' = k ∧ j ≤ i < j + length cks) then cks !! (i - j)
            else slice_at k' mbs i.
Proof.
  induction cks as [|c cks IH]; intros j mbs Hj; simpl.
  - eexists. split; [done|]. intros i k'. rewrite decide_False by lia. done.
  - rewrite Nat.add_0_r.
    destruct (put_chunk_spec k mbs j c Hj) as (mbs1 & -> & Hlen & H1). simpl.
    destruct (IH (S j) mbs1 ltac:(lia)) as (mbs' & Hrun & H2).
    exists mbs'. split.
    { rewrite <- Hrun. f_equal. apply imap_ext. intros i x _. simpl. f_equal. lia. }
    intros i k'. rewrite H2, H1. change (length (c :: cks)) with (S (length cks)).
    destruct (decide (k' = k ∧ S j ≤ i < S j + length cks)) as [[-> Hr]|Hr].
    + destruct (decide (k = k ∧ j ≤ i < j + S (length cks))) as [_|Hn].
      * replace (i - j) with (S (i - S j)) by lia. reflexivity.
      * exfalso. apply Hn. split; [done|lia].
    + destruct (decide (i = j ∧ k' = k)) as [[-> ->]|Hij].
      * destruct (decide (k = k ∧ j ≤ j < j + S (length cks))) as [_|Hn].
        -- by rewrite Nat.sub_diag.
        -- exfalso. apply Hn. split; [done|lia].
      * destruct (decide (k' = k ∧ j ≤ i < j + S (length cks))) as [[-> Hr']|_]; [|done].
        exfalso. apply Hr. split; [done|].
        destruct (decide (i = j)) as [->|]; [by destruct Hij|lia].
Qed.

Lemma scatter_loop cs (input : list (string * list Row)) : ∀ mbs (F : string → list (list Row)),
  0 < cs →
  NoDup input.*1 →
  (∀ k, k ∈ input.*1 → F k = []) →
  (∀ i k', slice_at k' mbs i = F k' !! i) →
  ∃ mbs',
    for_each (λ microbatches kv,
                chunked_values ← Scatter.tensor_split kv.2 cs;
                for_each (Scatter.put_chunk kv.1) (enumerate chunked_values) microbatches)
             input mbs = Ok mbs' ∧
    ∀ i k', slice_at k' mbs' i =
            match dict_get k' input with Some v => pieces v cs | None => F k' end !! i.
Proof.
  induction input as [|[k v] input IH]; intros mbs F Hcs Hnd Hfresh Hinv; simpl.
  - eexists. split; [done|]. done.
  - apply NoDup_cons in Hnd as [Hk Hnd].
    rewrite tensor_split_pieces by done. simpl.
    destruct (put_chunks_spec k (pieces v cs) 0 mbs ltac:(lia)) as (mbs1 & Hrun & H1).
    unfold enumerate. simpl in Hrun. rewrite Hrun. simpl.
    destruct (IH mbs1 (λ k', if decide (k' = k) then pieces v cs else F k') Hcs Hnd)
      as (mbs' & Hrun' & H2).
    { intros k0 Hk0. rewrite decide_False; [|intros ->; done].
      apply Hfresh. by right. }
    { intros i k'. rewrite H1.
      destruct (decide (k' = k ∧ 0 ≤ i < 0 + length (pieces v cs))) as [[-> Hr]|Hr].
      - rewrite decide_True by done. by rewrite Nat.sub_0_r.
      - destruct (decide (k' = k)) as [->|Hne]; [|apply Hinv].
        rewrite Hinv, Hfresh by left. rewrite lookup_nil. symmetry.
        apply lookup_ge_None_2.
        destruct (decide (i < length (pieces v cs))); [|lia].
        exfalso. apply Hr. split; [done|lia]. }
    exists mbs'. split; [done|]. intros i k'. rewrite H2.
    destruct (decide (k' = k)) as [->|Hne]; [|done].
    by rewrite dict_get_None.
Qed.

Lemma omap_lookup_prefix {A B} (f : A → option B) (l : list A) : ∀ (l' : list B),
  (∀ i, l !! i ≫= f = l' !! i) → omap f l = l'.
Proof.
  induction l as [|x l IH]; intros l' H; simpl.
  - specialize (H 0). by destruct l'.
  - pose proof (H 0) as H0. simpl in H0. destruct l' as [|y l'].
    + rewrite H0. apply (IH []). intros i. specialize (H (S i)). done.
    + simpl in H0. rewrite H0. f_equal. apply IH. intros i. apply (H (S i)).
Qed.

End scatter_facts.

Lemma pieces_full_length {Row} (v : list Row) cs i c :
  0 < cs → pieces v cs !! i = Some c → i + 1 < length (pieces v cs) → length c = cs.
Proof.
  intros Hcs Hi Hlt. apply pieces_lookup in Hi as ->.
  rewrite pieces_length in Hlt.
  destruct (num_splits_bounds (length v) cs Hcs) as (Hn1 & Hle & Hpos & Hz).
  rewrite length_take, length_drop.
  assert (0 < length v) as Hv by (destruct (length v); [specialize (Hz eq_refl)|]; lia).
  specialize (Hpos Hv). nia.
Qed.

Lemma pieces_last_length {Row} (v : list Row) cs c :
  0 < cs → last (pieces v cs) = Some c →
  length c = length v - (length (pieces v cs) - 1) * cs ∧
  length c ≤ cs ∧
  (length v ≠ 0 → 0 < length c) ∧
  (length v mod cs ≠ 0 → length c = length v mod cs).
Proof.
  intros Hcs Hl. rewrite last_lookup in Hl.
  pose proof (pieces_lookup _ _ _ _ Hl) as ->.
  rewrite pieces_length in *.
  destruct (num_splits_bounds (length v) cs Hcs) as (Hn1 & Hle & Hpos & Hz).
  set (n := Scatter.num_splits (length v) cs) in *.
  replace (Nat.pred n) with (n - 1) by lia.
  rewrite length_take, length_drop.
  assert (length v - (n - 1) * cs ≤ cs) by nia.
  split; [lia|]. split; [lia|]. split.
  - intros Hv. specialize (Hpos ltac:(lia)). nia.
  - intros Hmod.
    assert (0 < length v) as Hv.
    { destruct (length v) eqn:E; [|lia]. rewrite Nat.Div0.mod_0_l in Hmod. done. }
    specialize (Hpos Hv).
    rewrite Nat.min_r by lia.
    apply (Nat.mod_unique _ _ (n - 1)).
    + destruct (decide (length v - (n - 1) * cs = cs)) as [Heq|]; [|lia].
      exfalso. apply Hmod.
      replace (length v) with (n * cs) by nia. apply Nat.Div0.mod_mul.
    + nia.
Qed.

(** C8. [scatter] splits every named tensor on its own into pieces of
    [chunk_size] slices along the leading dimension, the last piece holding
    what is left, and the slices of a named tensor, concatenated in the
    order of the microbatches, are the tensor. *)
Theorem scatter_round_trip {Row} (input : list (string * list Row)) (chunk_size : nat) :
  NoDup input.*1 → 0 < chunk_size →
  ∃ microbatches,
    Scatter.scatter input chunk_size = Ok microbatches ∧
    ∀ k v, (k, v) ∈ input →
      let chunks := Scatter.slices k microbatches in
      Scatter.tensor_split v chunk_size = Ok chunks ∧
      concat chunks = v ∧
      (∀ i c, chunks !! i = Some c → i + 1 < length chunks → length c = chunk_size) ∧
      (∀ c, last chunks = Some c →
         length c = length v - (length chunks - 1) * chunk_size ∧
         length c ≤ chunk_size ∧
         (length v ≠ 0 → 0 < length c) ∧
         (length v mod chunk_size ≠ 0 → length c = length v mod chunk_size)).
Proof.
  intros Hnd Hcs.
  destruct (scatter_loop chunk_size input [] (λ _, []) Hcs Hnd) as (mbs & Hrun & Hinv);
    [done| |].
  { intros i k'. unfold slice_at. by rewrite !lookup_nil. }
  exists mbs. split; [exact Hrun|]. intros k v Hin chunks.
  assert (chunks = pieces v chunk_size) as ->.
  { apply omap_lookup_prefix. intros i.
    specialize (Hinv i k). unfold slice_at in Hinv. rewrite Hinv.
    by rewrite (dict_get_elem input k v Hnd Hin). }
  split; [by apply tensor_split_pieces|]. split; [by apply concat_pieces|]. split.
  - intros i c. by apply pieces_full_length.
  - intros c. by apply pieces_last_length.
Qed.

Lemma scatter_round_trip_witness :
  ∃ microbatches,
    Scatter.scatter [("ids", [1; 2; 3; 4; 5; 6; 7]); ("mask", [0; 0; 1; 1; 0; 1; 1])] 2
      = Ok microbatches ∧
    Scatter.slices "ids" microbatches = [[1; 2]; [3; 4]; [5; 6]; [7]] ∧
    Scatter.slices "mask" microbatches = [[0; 0]; [1; 1]; [0; 1]; [1]].
Proof.
  destruct (scatter_round_trip
              [("ids", [1; 2; 3; 4; 5; 6; 7]); ("mask", [0; 0; 1; 1; 0; 1; 1])] 2)
    as (mbs & Hrun & Hall).
  - apply (bool_decide_unpack _). vm_compute. reflexivity.
  - lia.
  - exists mbs. split; [exact Hrun|]. split.
    + destruct (Hall "ids" [1; 2; 3; 4; 5; 6; 7]) as (Hs & _).
      { apply (bool_decide_unpack _). vm_compute. reflexivity. }
      assert (Scatter.tensor_split [1; 2; 3; 4; 5; 6; 7] 2 = Ok [[1; 2]; [3; 4]; [5; 6]; [7]])
        as E by (vm_compute; reflexivity).
      rewrite E in Hs. by injection Hs.
    + destruct (Hall "mask" [0; 0; 1; 1; 0; 1; 1]) as (Hs & _).
      { apply (bool_decide_unpack _). vm_compute. reflexivity. }
      assert (Scatter.tensor_split [0; 0; 1; 1; 0; 1; 1] 2 = Ok [[0; 0]; [1; 1]; [0; 1]; [1]])
        as E by (vm_compute; reflexivity).
      rewrite E in Hs. by injection Hs.
Defined.

(** ** [dry_run] *)

Lemma for_each_enumerate_snoc {A S} (body : S → nat * A → result S) l x s :
  for_each body (enumerate (l ++ [x])) s
  = for_each body (enumerate l) s ≫= λ s', body s' (length l, x).
Proof.
  unfold enumerate. rewrite imap_app, for_each_app. simpl. rewrite Nat.add_0_r.
  destruct (for_each body _ s); simpl; [|done..].
  by destruct (body _ _).
Qed.

Lemma filter_ext_in {A} (P Q : A → Prop) `{!∀ x, Decision (P x)} `{!∀ x, Decision (Q x)}
    (l : list A) :
  (∀ x, x ∈ l → (P x ↔ Q x)) → filter P l = filter Q l.
Proof.
  induction l as [|x l IH]; intros Hext; [done|].
  rewrite !filter_cons. rewrite IH by (intros y Hy; apply Hext; by right).
  destruct (decide (P x)) as [HP|HP], (decide (Q x)) as [HQ|HQ]; try done.
  - exfalso. apply HQ, Hext; [left|done].
  - exfalso. apply HP, Hext; [left|done].
Qed.

Lemma indices_to_change_spec (shape_1 shape_2 : list nat) :
  length shape_1 ≤ length shape_2 →
  DryRun.indices_to_change shape_1 shape_2 = Ok (batch_dims shape_1 shape_2).
Proof.
  unfold DryRun.indices_to_change, batch_dims.
  induction shape_1 as [|d1 l IH] using rev_ind; intros Hlen; [done|].
  rewrite length_app in Hlen. simpl in Hlen.
  rewrite for_each_enumerate_snoc, IH by lia. simpl.
  destruct (lookup_lt_is_Some_2 shape_2 (length l) ltac:(lia)) as [d2 Hd2].
  unfold py_index. rewrite Hd2. simpl. f_equal.
  rewrite length_app. simpl. rewrite Nat.add_1_r, seq_S, filter_app. simpl.
  rewrite (filter_ext_in (λ i, (l ++ [d1]) !! i = Some 1 ∧ shape_2 !! i = Some 2)
             (λ i, l !! i = Some 1 ∧ shape_2 !! i = Some 2) (seq 0 (length l))).
  2:{ intros i Hi. apply elem_of_seq in Hi. rewrite lookup_app_l by lia. done. }
  rewrite filter_cons, filter_nil.
  rewrite lookup_app_r, Nat.sub_diag by lia. simpl. rewrite Hd2.
  destruct (decide (d1 = 1 ∧ d2 = 2)) as [[-> ->]|Hn].
  - by rewrite decide_True.
  - rewrite decide_False; [by rewrite app_nil_r|]. intros [[= ->] [= ->]]. by apply Hn.
Qed.

Lemma tensor_indices_snoc shapes_1 shape_1 r :
  DryRun.tensor_indices (shapes_1 ++ [shape_1]) r
  = DryRun.tensor_indices shapes_1 r ≫= λ acc, tensor_round r acc (length shapes_1, shape_1).
Proof. unfold DryRun.tensor_indices. by rewrite for_each_enumerate_snoc. Qed.

(** What the loop over the tensors returns when it returns. *)
Lemma tensor_indices_inv shapes_1 r out :
  DryRun.tensor_indices shapes_1 r = Ok out →
  length out = length shapes_1 ∧
  ∀ idx shape_1, shapes_1 !! idx = Some shape_1 →
    ∃ shapes_2 shape_2,
      r = Ok shapes_2 ∧ shapes_2 !! idx = Some shape_2 ∧
      length shape_1 = length shape_2 ∧
      out !! idx = Some (batch_dims shape_1 shape_2).
Proof.
  revert out. induction shapes_1 as [|s1 l IH] using rev_ind; intros out.
  - intros [= <-]. split; [done|]. intros idx s Hs. by rewrite lookup_nil in Hs.
  - rewrite tensor_indices_snoc.
    destruct (DryRun.tensor_indices l r) as [acc| |] eqn:Hacc; simpl; [|done..].
    destruct (IH acc eq_refl) as [Hlen Hspec].
    unfold tensor_round. destruct r as [s2s| |]; simpl; [|done..].
    unfold py_index. destruct (s2s !! length l) as [s2|] eqn:Hs2; simpl; [|done].
    unfold py_assert. case_bool_decide as Hrank; simpl; [|done].
    rewrite indices_to_change_spec by lia. simpl. intros [= <-].
    split; [rewrite !length_app; simpl; lia|].
    intros idx shape_1 Hidx.
    destruct (decide (idx < length l)) as [Hlt|Hge].
    + rewrite lookup_app_l in Hidx by done.
      destruct (Hspec idx shape_1 Hidx) as (s2s' & s2' & [= <-] & ? & ? & ?).
      exists s2s, s2'. rewrite lookup_app_l by lia. done.
    + assert (idx = length l) as ->.
      { apply lookup_lt_Some in Hidx. rewrite length_app in Hidx. simpl in Hidx. lia. }
      rewrite lookup_app_r, Nat.sub_diag in Hidx by lia. injection Hidx as <-.
      exists s2s, s2. rewrite lookup_app_r, Hlen, Nat.sub_diag by lia. done.
Qed.

(** When the second trace has a tensor for each tensor of the first, the
    loop returns or fails on its assertion, and it returns exactly when the
    ranks agree. *)
Lemma tensor_indices_cases shapes_1 shapes_2 :
  length shapes_1 ≤ length shapes_2 →
  (∃ out, DryRun.tensor_indices shapes_1 (Ok shapes_2) = Ok out) ∨
  DryRun.tensor_indices shapes_1 (Ok shapes_2) = Raise (AssertionError "").
Proof.
  induction shapes_1 as [|s1 l IH] using rev_ind; intros Hlen.
  - left. by eexists.
  - rewrite length_app in Hlen. simpl in Hlen. rewrite tensor_indices_snoc.
    destruct (IH ltac:(lia)) as [[acc ->]| ->]; simpl; [|by right].
    unfold tensor_round. simpl.
    destruct (lookup_lt_is_Some_2 shapes_2 (length l) ltac:(lia)) as [s2 Hs2].
    unfold py_index. rewrite Hs2. simpl.
    unfold py_assert. case_bool_decide as Hrank; simpl; [|by right].
    rewrite indices_to_change_spec by lia. simpl. left. by eexists.
Qed.

Lemma tensor_indices_rank_mismatch shapes_1 shapes_2 idx shape_1 shape_2 :
  length shapes_1 ≤ length shapes_2 →
  shapes_1 !! idx = Some shape_1 → shapes_2 !! idx = Some shape_2 →
  length shape_1 ≠ length shape_2 →
  DryRun.tensor_indices shapes_1 (Ok shapes_2) = Raise (AssertionError "").
Proof.
  intros Hlen H1 H2 Hne.
  destruct (tensor_indices_cases shapes_1 shapes_2 Hlen) as [[out Hout]|]; [|done].
  destruct (tensor_indices_inv _ _ _ Hout) as [_ Hspec].
  destruct (Hspec idx shape_1 H1) as (s2s & s2 & [= <-] & Hs2 & Hrank & _).
  congruence.
Qed.

Lemma elem_of_batch_dims shape_1 shape_2 i :
  i ∈ batch_dims shape_1 shape_2 ↔ shape_1 !! i = Some 1 ∧ shape_2 !! i = Some 2.
Proof.
  unfold batch_dims. rewrite list_elem_of_filter, elem_of_seq. split; [tauto|].
  intros [H1 H2]. split; [done|]. apply lookup_lt_Some in H1. lia.
Qed.

Lemma dict_get_set_eq {V} k (v : V) d : dict_get k (dict_set k v d) = Some v.
Proof.
  induction d as [|[k' v'] d IH]; simpl.
  - by rewrite decide_True.
  - destruct (decide (k = k')) as [->|Hne]; simpl.
    + by destruct (decide (k' = k')).
    + by destruct (decide (k = k')).
Qed.

Lemma dict_get_set_ne {V} k k' (v : V) d :
  k ≠ k' → dict_get k' (dict_set k v d) = dict_get k' d.
Proof.
  intros Hne. induction d as [|[k0 v0] d IH]; simpl.
  - by destruct (decide (k' = k)).
  - destruct (decide (k = k0)) as [->|Hne0]; simpl.
    + by destruct (decide (k' = k0)).
    + by destruct (decide (k' = k0)).
Qed.

Lemma dict_set_keys {V} k (v : V) d :
  (dict_set k v d).*1 = if decide (k ∈ d.*1) then d.*1 else d.*1 ++ [k].
Proof.
  induction d as [|[k0 v0] d IH].
  - destruct (decide (k ∈ ([] : list (string * V)).*1)) as [Hin|_]; [|done].
    by apply elem_of_nil in Hin.
  - cbn [dict_set]. destruct (decide (k = k0)) as [->|Hne].
    + destruct (decide (k0 ∈ ((k0, v0) :: d).*1)) as [_|Hn]; [done|].
      exfalso. apply Hn. left.
    + rewrite fmap_cons, IH. cbn [fst].
      destruct (decide (k ∈ d.*1)) as [Hin|Hin].
      * destruct (decide (k ∈ ((k0, v0) :: d).*1)) as [_|Hn]; [done|].
        exfalso. apply Hn. by right.
      * destruct (decide (k ∈ ((k0, v0) :: d).*1)) as [Hy|_]; [|done].
        exfalso. apply elem_of_cons in Hy as [?|?]; done.
Qed.

Lemma dict_set_NoDup {V} k (v : V) d : NoDup d.*1 → NoDup (dict_set k v d).*1.
Proof.
  intros Hnd. rewrite dict_set_keys. case_decide as Hin; [done|].
  apply NoDup_app. split; [done|]. split.
  - intros x Hx [->|[]%elem_of_nil]%elem_of_cons. done.
  - apply NoDup_singleton.
Qed.

Lemma hook_shapes calls : ∀ h,
  DryRun.input_shapes (foldl DryRun.add_module_hook h calls)
  = foldl shapes_step (DryRun.input_shapes h) calls.
Proof.
  induction calls as [|c calls IH]; intros h; simpl; [done|].
  rewrite IH. f_equal. unfold DryRun.add_module_hook, shapes_step.
  by destruct (DryRun.hc_is_cutpoint c).
Qed.

Lemma shapes_step_NoDup calls : ∀ d, NoDup d.*1 → NoDup (foldl shapes_step d calls).*1.
Proof.
  induction calls as [|c calls IH]; intros d Hd; simpl; [done|].
  apply IH. unfold shapes_step. destruct (DryRun.hc_is_cutpoint c); [|done].
  by apply dict_set_NoDup.
Qed.

Lemma traced_shapes_NoDup calls : NoDup (DryRun.traced_shapes calls).*1.
Proof.
  unfold DryRun.traced_shapes. rewrite hook_shapes. apply shapes_step_NoDup.
  simpl. apply NoDup_nil_2.
Qed.

Lemma cutpoint_loop_cons trace_2 n shapes_1 trace_1 acc :
  for_each (cutpoint_round trace_2) ((n, shapes_1) :: trace_1) acc
  = DryRun.tensor_indices shapes_1 (dict_index trace_2 n)
    ≫= λ ixs, for_each (cutpoint_round trace_2) trace_1 (dict_set n ixs acc).
Proof.
  simpl. unfold cutpoint_round at 2. simpl.
  by destruct (DryRun.tensor_indices shapes_1 (dict_index trace_2 n)).
Qed.

Lemma shape_changes_inv trace_2 trace_1 : ∀ acc out,
  NoDup trace_1.*1 →
  for_each (cutpoint_round trace_2) trace_1 acc = Ok out →
  (∀ name shapes_1, (name, shapes_1) ∈ trace_1 →
     ∃ ixss, DryRun.tensor_indices shapes_1 (dict_index trace_2 name) = Ok ixss ∧
             dict_get name out = Some ixss) ∧
  (∀ name, name ∉ trace_1.*1 → dict_get name out = dict_get name acc).
Proof.
  induction trace_1 as [|[n s1s] t1 IH]; intros acc out Hnd.
  - intros [= <-]. split; [|done]. intros ?? []%elem_of_nil.
  - apply NoDup_cons in Hnd as [Hn Hnd]. rewrite cutpoint_loop_cons.
    destruct (DryRun.tensor_indices s1s (dict_index trace_2 n)) as [ixs| |] eqn:Hix;
      simpl; [|done..].
    intros Hrun. destruct (IH _ _ Hnd Hrun) as [Hin Hout]. split.
    + intros name shapes_1 [[= -> ->]|Hel]%elem_of_cons.
      * exists ixs. split; [done|]. rewrite Hout by done. apply dict_get_set_eq.
      * by apply Hin.
    + intros name Hname. rewrite Hout.
      * apply dict_get_set_ne. intros ->. apply Hname. left.
      * intros ?. apply Hname. by right.
Qed.

Lemma shape_changes_cases trace_2 trace_1 : ∀ acc,
  (∀ name shapes_1, (name, shapes_1) ∈ trace_1 →
     ∃ shapes_2, dict_get name trace_2 = Some shapes_2 ∧ length shapes_1 ≤ length shapes_2) →
  (∃ out, for_each (cutpoint_round trace_2) trace_1 acc = Ok out) ∨
  for_each (cutpoint_round trace_2) trace_1 acc = Raise (AssertionError "").
Proof.
  induction trace_1 as [|[n s1s] t1 IH]; intros acc Hcov.
  - left. by eexists.
  - destruct (Hcov n s1s) as (s2s & Hs2 & Hlen); [left|].
    rewrite cutpoint_loop_cons. unfold dict_index. rewrite Hs2.
    destruct (tensor_indices_cases s1s s2s Hlen) as [[ixs ->]| ->]; simpl; [|by right].
    apply IH. intros name shapes_1 Hel. apply Hcov. by right.
Qed.

Lemma dry_run_unfold named_modules model_run calls_1 calls_2 :
  model_run 1 = Ok calls_1 → model_run 2 = Ok calls_2 →
  ∃ om grads n,
    DryRun.dry_run named_modules model_run
    = for_each (cutpoint_round (DryRun.traced_shapes calls_2))
        (DryRun.traced_shapes calls_1) []
      ≫= λ ixs, Ok {| DryRun.out_ordered_modules := om;
                      DryRun.out_input_shapes := DryRun.traced_shapes calls_1;
                      DryRun.out_shape_indices_to_change := ixs;
                      DryRun.out_input_gradients := grads;
                      DryRun.out_num_cutpoints := n |}.
Proof.
  intros H1 H2. unfold DryRun.dry_run. rewrite H1. simpl. rewrite H2. simpl.
  do 3 eexists. unfold DryRun.shape_changes, DryRun.traced_shapes.
  rewrite !hook_shapes. simpl. reflexivity.
Qed.

(** C5, as the code has it. [dry_run] runs the model on a batch of size 1
    and on a batch of size 2. When it returns, every tensor of every
    cutpoint of the first trace has a tensor of the same rank at the same
    place in the second trace, and the dimensions flagged for it are
    exactly those that read 1 in the first trace and 2 in the second. When
    the second trace has a tensor for every tensor of the first and two
    such tensors differ in rank, [dry_run] fails on its assertion. *)
Theorem dry_run_batch_dims named_modules model_run calls_1 calls_2 :
  model_run 1 = Ok calls_1 → model_run 2 = Ok calls_2 →
  let trace_1 := DryRun.traced_shapes calls_1 in
  let trace_2 := DryRun.traced_shapes calls_2 in
  (∀ out, DryRun.dry_run named_modules model_run = Ok out →
     DryRun.out_input_shapes out = trace_1 ∧
     ∀ name shapes_1, (name, shapes_1) ∈ trace_1 →
       ∃ ixss,
         dict_get name (DryRun.out_shape_indices_to_change out) = Some ixss ∧
         length ixss = length shapes_1 ∧
         ∀ idx shape_1, shapes_1 !! idx = Some shape_1 →
           ∃ shapes_2 shape_2 ixs,
             dict_get name trace_2 = Some shapes_2 ∧
             shapes_2 !! idx = Some shape_2 ∧
             length shape_1 = length shape_2 ∧
             ixss !! idx = Some ixs ∧
             ∀ i, i ∈ ixs ↔ shape_1 !! i = Some 1 ∧ shape_2 !! i = Some 2) ∧
  ((∀ name shapes_1, (name, shapes_1) ∈ trace_1 →
      ∃ shapes_2, dict_get name trace_2 = Some shapes_2 ∧
                  length shapes_1 ≤ length shapes_2) →
   (∃ name shapes_1 shapes_2 idx shape_1 shape_2,
      (name, shapes_1) ∈ trace_1 ∧ dict_get name trace_2 = Some shapes_2 ∧
      shapes_1 !! idx = Some shape_1 ∧ shapes_2 !! idx = Some shape_2 ∧
      length shape_1 ≠ length shape_2) →
   ∃ msg, DryRun.dry_run named_modules model_run = Raise (AssertionError msg)).
Proof.
  intros H1 H2 trace_1 trace_2.
  destruct (dry_run_unfold named_modules model_run calls_1 calls_2 H1 H2)
    as (om & grads & n & ->).
  fold trace_1 trace_2. pose proof (traced_shapes_NoDup calls_1) as Hnd.
  fold trace_1 in Hnd. split.
  - intros out.
    destruct (for_each (cutpoint_round trace_2) trace_1 []) as [ixs| |] eqn:Hrun;
      simpl; [|done..].
    intros [= <-]. simpl. split; [done|].
    destruct (shape_changes_inv _ _ _ _ Hnd Hrun) as [Hin _].
    intros name shapes_1 Hel.
    destruct (Hin name shapes_1 Hel) as (ixss & Hti & Hget).
    exists ixss. split; [done|].
    destruct (tensor_indices_inv _ _ _ Hti) as [Hlen Hspec]. split; [done|].
    intros idx shape_1 Hidx.
    destruct (Hspec idx shape_1 Hidx) as (s2s & s2 & Hr & Hs2 & Hrank & Hix).
    exists s2s, s2, (batch_dims shape_1 s2).
    split; [|split; [done|split; [done|split; [done|]]]].
    + unfold dict_index in Hr. destruct (dict_get name trace_2); by simplify_eq.
    + intros i. apply elem_of_batch_dims.
  - intros Hcov (name & s1s & s2s & idx & s1 & s2 & Hel & Hget & Hi1 & Hi2 & Hne).
    exists "".
    destruct (shape_changes_cases trace_2 trace_1 [] Hcov) as [[ixs Hrun]| ->]; [|done].
    exfalso. destruct (shape_changes_inv _ _ _ _ Hnd Hrun) as [Hin _].
    destruct (Hin name s1s Hel) as (ixss & Hti & _).
    unfold dict_index in Hti. rewrite Hget in Hti.
    destruct (Hcov name s1s Hel) as (s2s' & Hget' & Hlen).
    rewrite Hget in Hget'. injection Hget' as <-.
    rewrite (tensor_indices_rank_mismatch s1s s2s idx s1 s2) in Hti; done.
Qed.

Lemma dry_run_batch_dims_witness :
  ∃ out, DryRun.dry_run [("", false); ("embed", false); ("cut1", true)] sample_run = Ok out ∧
         DryRun.out_shape_indices_to_change out = [("cut1", [[0]])] ∧
         DryRun.out_input_shapes out = [("cut1", [[1; 128; 2]])].
Proof.
  pose proof (dry_run_batch_dims [("", false); ("embed", false); ("cut1", true)]
                sample_run _ _ eq_refl eq_refl) as [Hok _].
  eexists. split; [vm_compute; reflexivity|]. split; [reflexivity|].
  refine (proj1 (Hok _ _)). vm_compute. reflexivity.
Defined.

(** C5 as stated fails: the two traces disagree on the number of tensors
    at the cutpoint and [dry_run] returns. *)
Lemma dry_run_accepts_tensor_count_mismatch :
  (length <$> dict_get "cut1" (DryRun.traced_shapes [ {| DryRun.hc_name := "cut1";
      DryRun.hc_is_cutpoint := true; DryRun.hc_inputs := [([1; 3], true)] |} ])) = Some 1 ∧
  (length <$> dict_get "cut1" (DryRun.traced_shapes [ {| DryRun.hc_name := "cut1";
      DryRun.hc_is_cutpoint := true;
      DryRun.hc_inputs := [([2; 3], true); ([2; 5], true)] |} ])) = Some 2 ∧
  DryRun.out_shape_indices_to_change <$> DryRun.dry_run [("cut1", true)] growing_run
  = Ok [("cut1", [[0]])] ∧
  ¬ ∃ msg, DryRun.dry_run [("cut1", true)] growing_run = Raise (AssertionError msg).
Proof.
  split; [reflexivity|]. split; [reflexivity|]. split; [vm_compute; reflexivity|].
  intros [msg H]. vm_compute in H. discriminate.
Qed.

(** ** The parameter-ownership resolver *)

(** The trace never forgets a parameter: every parameter of the module has
    an access set. *)
Lemma trace_param_access_is_Some track_cp pa f args p :
  is_Some (pa !! p) → is_Some (Ownership.trace_param_access track_cp pa f args !! p).
Proof.
  unfold Ownership.trace_param_access. case_decide; [done|].
  revert pa. induction args as [|a args IH]; intros pa Hp; simpl; [done|].
  apply IH. destruct (pa !! a) as [cps|] eqn:Ha; [|done].
  destruct (decide (a = p)) as [->|Hne].
  - rewrite lookup_insert_eq. by eexists.
  - by rewrite lookup_insert_ne.
Qed.

Lemma traced_access_is_Some parameters events p :
  p ∈ parameters → is_Some (Ownership.traced_access parameters events !! p).
Proof.
  intros Hp. unfold Ownership.traced_access.
  assert (is_Some (foldl (λ pa q, <[q := ∅]> pa) (∅ : gmap nat (gset nat)) parameters !! p))
    as Hinit.
  { revert Hp. generalize (∅ : gmap nat (gset nat)).
    induction parameters as [|q l IH]; intros pa Hp; [by apply elem_of_nil in Hp|].
    simpl. apply elem_of_cons in Hp as [->|Hp]; [|by apply IH].
    clear IH. assert (is_Some (<[q := ∅]> pa !! q)) as H0
      by (rewrite lookup_insert_eq; by eexists).
    revert H0. generalize (<[q := ∅]> pa). induction l as [|r l IH]; intros m Hm; [done|].
    simpl. apply IH. destruct (decide (r = q)) as [->|Hne].
    - rewrite lookup_insert_eq. by eexists.
    - by rewrite lookup_insert_ne. }
  revert Hinit. generalize (foldl (λ pa q, <[q := ∅]> pa) (∅ : gmap nat (gset nat)) parameters).
  generalize 0. induction events as [|ev events IH]; intros cp pa Hpa; simpl; [done|].
  destruct ev as [f args|]; simpl; apply IH; [|done].
  by apply trace_param_access_is_Some.
Qed.

(** One round of the first loop on a parameter whose name is new. *)
Lemma assign_accessed_fresh pa d n p cps :
  pa !! p = Some cps → size cps < 2 → d !! n = None →
  Ownership.assign_accessed pa d (n, p)
  = Ok (match head (elements cps) with Some c => <[n := c]> d | None => d end).
Proof.
  intros Hp Hsz Hd. unfold Ownership.assign_accessed. simpl. rewrite Hp. simpl.
  unfold py_assert at 1. rewrite bool_decide_eq_true_2 by done. simpl.
  destruct (elements cps) as [|c l]; simpl; [done|].
  rewrite Hd. unfold py_assert. rewrite bool_decide_eq_true_2; [done|].
  apply lookup_insert_eq.
Qed.

Lemma assign_accessed_multiple pa d n p cps :
  pa !! p = Some cps → 2 ≤ size cps →
  Ownership.assign_accessed pa d (n, p)
  = Raise (AssertionError (Ownership.multiple_cuts_msg n)).
Proof.
  intros Hp Hsz. unfold Ownership.assign_accessed. simpl. rewrite Hp. simpl.
  unfold py_assert. rewrite bool_decide_eq_false_2 by lia. done.
Qed.

Lemma first_loop_ok pa nps : ∀ d,
  NoDup nps.*1 →
  (∀ n, n ∈ nps.*1 → d !! n = None) →
  (∀ n p, (n, p) ∈ nps → ∃ cps, pa !! p = Some cps ∧ size cps < 2) →
  ∃ d', for_each (Ownership.assign_accessed pa) nps d = Ok d' ∧
        (∀ n, n ∉ nps.*1 → d' !! n = d !! n) ∧
        (∀ n p cps, (n, p) ∈ nps → pa !! p = Some cps → d' !! n = head (elements cps)).
Proof.
  induction nps as [|[n p] nps IH]; intros d Hnd Hfresh Hall; simpl.
  - exists d. split; [done|]. split; [done|]. intros ??? []%elem_of_nil.
  - apply NoDup_cons in Hnd as [Hn Hnd].
    destruct (Hall n p) as (cps & Hp & Hsz); [left|].
    rewrite (assign_accessed_fresh pa d n p cps Hp Hsz) by (apply Hfresh; left). simpl.
    set (d1 := match head (elements cps) with Some c => <[n := c]> d | None => d end).
    assert (∀ k, k ≠ n → d1 !! k = d !! k) as Hother.
    { intros k Hk. unfold d1. destruct (head (elements cps)); [|done].
      by rewrite lookup_insert_ne. }
    assert (d1 !! n = head (elements cps)) as Hn1.
    { unfold d1. destruct (head (elements cps)).
      - apply lookup_insert_eq.
      - apply Hfresh. left. }
    destruct (IH d1 Hnd) as (d' & Hrun & Hout & Hin).
    { intros k Hk. rewrite Hother; [apply Hfresh; by right|]. intros ->. done. }
    { intros k q Hel. apply (Hall k q). by right. }
    exists d'. split; [done|]. split.
    + intros k Hk. rewrite Hout by (intros ?; apply Hk; by right).
      apply Hother. intros ->. apply Hk. left.
    + intros k q cps' [[= -> ->]|Hel]%elem_of_cons Hq.
      * rewrite Hout by done. rewrite Hn1. congruence.
      * by apply (Hin k q).
Qed.

Lemma first_loop_multiple pa nps : ∀ d,
  NoDup nps.*1 →
  (∀ n, n ∈ nps.*1 → d !! n = None) →
  (∀ n p, (n, p) ∈ nps → is_Some (pa !! p)) →
  (∃ n p cps, (n, p) ∈ nps ∧ pa !! p = Some cps ∧ 2 ≤ size cps) →
  ∃ n p cps, (n, p) ∈ nps ∧ pa !! p = Some cps ∧ 2 ≤ size cps ∧
    for_each (Ownership.assign_accessed pa) nps d
    = Raise (AssertionError (Ownership.multiple_cuts_msg n)).
Proof.
  induction nps as [|[n p] nps IH]; intros d Hnd Hfresh Hall Hbad.
  - destruct Hbad as (? & ? & ? & []%elem_of_nil & _).
  - apply NoDup_cons in Hnd as [Hn Hnd].
    destruct (Hall n p) as [cps Hp]; [left|].
    destruct (decide (size cps < 2)) as [Hsz|Hsz].
    + simpl. rewrite (assign_accessed_fresh pa d n p cps Hp Hsz) by (apply Hfresh; left).
      simpl. set (d1 := match head (elements cps) with Some c => <[n := c]> d | None => d end).
      destruct (IH d1 Hnd) as (n' & p' & cps' & Hel & Hp' & Hsz' & Hrun).
      * intros k Hk. unfold d1. destruct (head (elements cps)).
        -- rewrite lookup_insert_ne; [apply Hfresh; by right|]. intros ->. done.
        -- apply Hfresh. by right.
      * intros k q Hel. apply (Hall k q). by right.
      * destruct Hbad as (n' & p' & cps' & [[= -> ->]|Hel]%elem_of_cons & Hp' & Hsz').
        -- rewrite Hp in Hp'. injection Hp' as <-. lia.
        -- by exists n', p', cps'.
      * exists n', p', cps'. split; [by right|]. done.
    + exists n, p, cps. split; [left|]. split; [done|]. split; [lia|].
      simpl. rewrite (assign_accessed_multiple pa d n p cps Hp) by lia. done.
Qed.

(** The second loop leaves the names it finds assigned as they are. *)
Lemma structural_names_union cp (prefix : string) names : ∀ (d : gmap string nat),
  foldl (Ownership.assign_name cp prefix) d names
  = d ∪ foldl (Ownership.assign_name cp prefix) ∅ names.
Proof.
  induction names as [|n names IH] using rev_ind; intros d.
  - simpl. by rewrite (right_id_L ∅ (∪)).
  - rewrite !foldl_app. simpl. rewrite (IH d).
    set (X := foldl _ ∅ names). unfold Ownership.assign_name.
    set (k := prefix +:+ "." +:+ n). simpl.
    apply map_eq. intros i.
    destruct (d !! k) as [c|] eqn:Hd.
    + rewrite (lookup_union_Some_l d X k c Hd).
      destruct (X !! k) as [c'|] eqn:HX; [done|].
      rewrite !lookup_union. destruct (decide (i = k)) as [->|Hne].
      * rewrite Hd, HX, lookup_insert_eq. done.
      * by rewrite lookup_insert_ne.
    + rewrite (lookup_union_r d X k Hd).
      destruct (X !! k) as [c|] eqn:HX; [done|].
      destruct (decide (i = k)) as [->|Hne].
      * rewrite lookup_insert_eq, lookup_union, Hd, lookup_insert_eq. done.
      * rewrite lookup_insert_ne, !lookup_union, lookup_insert_ne by done. done.
Qed.

Lemma assign_structural_union modules : ∀ cp (d : gmap string nat),
  (foldl Ownership.assign_structural (cp, d) modules).2
  = d ∪ (foldl Ownership.assign_structural (cp, ∅) modules).2.
Proof.
  induction modules as [|[[name is_cp] names] ms IH]; intros cp d; simpl.
  - by rewrite (right_id_L ∅ (∪)).
  - unfold Ownership.assign_structural at 2 4. simpl. destruct is_cp; simpl.
    + apply IH.
    + rewrite IH. rewrite (IH cp (foldl _ ∅ names)).
      rewrite (structural_names_union cp name names d).
      by rewrite (assoc_L (∪)).
Qed.

(** The resolver as the code has it. Every named parameter gets at most one
    interval. When no parameter was observed in two intervals the resolver
    returns: a parameter observed in one interval is owned by that
    interval, whatever its structural position, and a parameter never
    observed gets the interval of its structural position in the canonical
    module order (none when its module is not in that order). When some
    parameter was observed in two or more intervals the resolver fails on
    an assertion whose message names such a parameter. *)
Theorem resolve_ownership (named_parameters : list (string * nat))
    (events : list Ownership.TraceEvent) (modules : list (string * bool * list string)) :
  NoDup named_parameters.*1 →
  let observed := Ownership.observed named_parameters events in
  ((∀ n p, (n, p) ∈ named_parameters → size (observed p) < 2) →
   ∃ d, Ownership.resolve named_parameters events modules = Ok d ∧
     ∀ n p, (n, p) ∈ named_parameters →
       (∀ c, observed p = {[c]} → d !! n = Some c) ∧
       (observed p = ∅ → d !! n = Ownership.structural_interval modules n)) ∧
  ((∃ n p, (n, p) ∈ named_parameters ∧ 2 ≤ size (observed p)) →
   ∃ n p, (n, p) ∈ named_parameters ∧ 2 ≤ size (observed p) ∧
     Ownership.resolve named_parameters events modules
     = Raise (AssertionError (Ownership.multiple_cuts_msg n))).
Proof.
  intros Hnd observed. unfold Ownership.resolve.
  set (pa := Ownership.traced_access named_parameters.*2 events).
  assert (∀ n p, (n, p) ∈ named_parameters → ∃ cps, pa !! p = Some cps ∧ observed p = cps)
    as Hpa.
  { intros n p Hel.
    destruct (traced_access_is_Some named_parameters.*2 events p) as [cps Hcps].
    - apply list_elem_of_fmap. by exists (n, p).
    - exists cps. split; [done|]. unfold observed, Ownership.observed.
      by rewrite Hcps. }
  split.
  - intros Hsz.
    destruct (first_loop_ok pa named_parameters ∅ Hnd) as (d' & -> & _ & Hin).
    { intros n _. apply lookup_empty. }
    { intros n p Hel. destruct (Hpa n p Hel) as (cps & Hcps & Hobs).
      exists cps. split; [done|]. rewrite <- Hobs. by apply (Hsz n). }
    simpl. eexists. split; [done|]. intros n p Hel.
    destruct (Hpa n p Hel) as (cps & Hcps & Hobs).
    rewrite assign_structural_union. specialize (Hin n p cps Hel Hcps). split.
    + intros c Hc. apply lookup_union_Some_l. rewrite Hin, <- Hobs, Hc.
      by rewrite elements_singleton.
    + intros He. rewrite lookup_union_r; [done|].
      rewrite Hin, <- Hobs, He. by rewrite elements_empty.
  - intros (n & p & Hel & Hsz).
    destruct (first_loop_multiple pa named_parameters ∅ Hnd)
      as (n' & p' & cps' & Hel' & Hcps' & Hsz' & ->).
    { intros k _. apply lookup_empty. }
    { intros k q Hk. destruct (Hpa k q Hk) as (cps & -> & _). by eexists. }
    { destruct (Hpa n p Hel) as (cps & Hcps & Hobs). exists n, p, cps.
      split; [done|]. split; [done|]. by rewrite <- Hobs. }
    exists n', p'. split; [done|]. split; [|done].
    destruct (Hpa n' p' Hel') as (cps & Hcps & ->). congruence.
Qed.

Lemma resolve_ownership_witness :
  ∃ d, Ownership.resolve tied_parameters tied_events tied_modules = Ok d ∧
       d !! "a.weight" = Some 1 ∧
       d !! "a.bias" = Ownership.structural_interval tied_modules "a.bias".
Proof.
  destruct (resolve_ownership tied_parameters tied_events tied_modules) as [Hok _].
  { apply (bool_decide_unpack _). vm_compute. reflexivity. }
  destruct Hok as (d & Hd & Hall).
  { intros n p [[= -> ->]|[[= -> ->]|[]%elem_of_nil]%elem_of_cons]%elem_of_cons;
      vm_compute; lia. }
  exists d. split; [exact Hd|]. split.
  - apply (Hall "a.weight" 0); [left|].
    apply (bool_decide_unpack _). vm_compute. reflexivity.
  - apply (Hall "a.bias" 1); [right; left|].
    apply (bool_decide_unpack _). vm_compute. reflexivity.
Defined.

(** The weight of [a] is not shared, its module lies in interval 0, and
    the resolver assigns it to interval 1, where it was read. *)
Lemma resolved_interval_is_not_structural :
  (λ d, d !! "a.weight") <$> Ownership.resolve tied_parameters tied_events tied_modules
  = Ok (Some 1) ∧
  Ownership.structural_interval tied_modules "a.weight" = Some 0.
Proof. split; vm_compute; reflexivity. Qed.

(** The second loop counts the markers: what it assigns to a name that is
    not assigned yet is the interval of the name's structural position. *)
Lemma assign_names_lookup cp (name : string) names (n : string) : ∀ d : gmap string nat,
  foldl (Ownership.assign_name cp name) d names !! n
  = match d !! n with
    | Some c => Some c
    | None => if decide (n ∈ (λ pname, name +:+ "." +:+ pname) <$> names)
              then Some cp else None
    end.
Proof.
  induction names as [|x names IH]; intros d.
  - simpl. by destruct (d !! n).
  - cbn [foldl]. rewrite IH. rewrite fmap_cons. unfold Ownership.assign_name at 1. cbn zeta.
    set (k := name +:+ "." +:+ x).
    destruct (decide (n = k)) as [->|Hne].
    + destruct (d !! k) as [c|] eqn:Hd; [by rewrite Hd|].
      rewrite lookup_insert_eq. rewrite decide_True; [done|]. left.
    + assert ((match d !! k with
               | Some _ => d
               | None => <[k:=cp]> d
               end) !! n = d !! n) as ->.
      { destruct (d !! k); [done|]. by rewrite lookup_insert_ne. }
      destruct (d !! n); [done|].
      destruct (decide (n ∈ (λ pname, name +:+ "." +:+ pname) <$> names)) as [Hin|Hin].
      * rewrite decide_True; [done|]. by right.
      * rewrite decide_False; [done|]. intros [?|?]%elem_of_cons; done.
Qed.

Lemma structural_lookup modules (n : string) : ∀ cp (d : gmap string nat),
  (foldl Ownership.assign_structural (cp, d) modules).2 !! n
  = match d !! n with
    | Some c => Some c
    | None => (λ i, cp + markers_before modules i) <$> structural_position modules n
    end.
Proof.
  induction modules as [|[[name is_cp] names] ms IH]; intros cp d.
  - simpl. by destruct (d !! n).
  - cbn [foldl]. unfold Ownership.assign_structural at 2. cbn [fst snd].
    unfold structural_position. cbn [list_find]. cbn [fst snd].
    destruct is_cp.
    + rewrite IH. destruct (d !! n); [done|].
      rewrite decide_False by (by intros [? _]).
      unfold structural_position.
      destruct (list_find _ ms) as [[i m]|]; [|done]. simpl.
      unfold markers_before. cbn [take]. rewrite filter_cons_True by done. simpl.
      f_equal. lia.
    + rewrite IH, assign_names_lookup. destruct (d !! n); [done|].
      destruct (decide (n ∈ (λ pname, name +:+ "." +:+ pname) <$> names)) as [Hin|Hin].
      * rewrite decide_True by done. simpl. unfold markers_before. simpl.
        f_equal. lia.
      * rewrite decide_False by (by intros [_ ?]).
        unfold structural_position.
        destruct (list_find _ ms) as [[i m]|]; [|done]. simpl.
        unfold markers_before. cbn [take].
        rewrite filter_cons_False by (by intros ?). done.
Qed.

Lemma structural_interval_counts_markers modules n :
  Ownership.structural_interval modules n = position_interval modules n.
Proof.
  unfold Ownership.structural_interval, position_interval.
  rewrite structural_lookup, lookup_empty.
  by destruct (structural_position modules n).
Qed.

(** C6. The resolver accepts every trace in which no parameter is read in
    two intervals: a parameter read in one interval is given that interval,
    also when its module lies in another, and only a parameter that was
    never read gets the interval of its structural position, the number
    of markers before its module. The assertion that compares the interval
    a parameter was read in with the one it was created in never fails. A
    trace in which some parameter is read in two intervals or more fails on
    the assertion that names such a parameter. So the weight of [a], which
    is not shared, whose module comes before the first marker and which is
    read after it, is resolved to interval 1. *)
Theorem resolver_accepts_interval_mismatch :
  (∀ (named_parameters : list (string * nat)) (events : list Ownership.TraceEvent)
     (modules : list (string * bool * list string)),
     NoDup named_parameters.*1 →
     (∀ n p, (n, p) ∈ named_parameters →
             size (Ownership.observed named_parameters events p) < 2) →
     ∃ d, Ownership.resolve named_parameters events modules = Ok d ∧
       ∀ n p, (n, p) ∈ named_parameters →
         (∀ c, Ownership.observed named_parameters events p = {[c]} → d !! n = Some c) ∧
         (Ownership.observed named_parameters events p = ∅ →
          d !! n = position_interval modules n)) ∧
  (∀ (named_parameters : list (string * nat)) (events : list Ownership.TraceEvent)
     (modules : list (string * bool * list string)),
     NoDup named_parameters.*1 →
     (∃ n p, (n, p) ∈ named_parameters ∧
             2 ≤ size (Ownership.observed named_parameters events p)) →
     ∃ n p, (n, p) ∈ named_parameters ∧
       2 ≤ size (Ownership.observed named_parameters events p) ∧
       Ownership.resolve named_parameters events modules
       = Raise (AssertionError (Ownership.multiple_cuts_msg n))) ∧
  NoDup tied_parameters.*1 ∧
  Ownership.observed tied_parameters tied_events 0 = {[1]} ∧
  position_interval tied_modules "a.weight" = Some 0 ∧
  ∃ d, Ownership.resolve tied_parameters tied_events tied_modules = Ok d ∧
       d !! "a.weight" = Some 1 ∧ d !! "a.bias" = Some 0.
Proof.
  split; [|split; [|split; [|split; [|split]]]].
  - intros named_parameters events modules Hnd Hsz.
    destruct (resolve_ownership named_parameters events modules Hnd) as [Hok _].
    destruct (Hok Hsz) as (d & Hd & Hall). exists d. split; [done|].
    intros n p Hel. destruct (Hall n p Hel) as [Hone Hnone]. split; [done|].
    intros He. rewrite (Hnone He). apply structural_interval_counts_markers.
  - intros named_parameters events modules Hnd Hbad.
    destruct (resolve_ownership named_parameters events modules Hnd) as [_ Hfail].
    exact (Hfail Hbad).
  - apply (bool_decide_unpack _). vm_compute. reflexivity.
  - apply (bool_decide_unpack _). vm_compute. reflexivity.
  - vm_compute. reflexivity.
  - eexists. split; [vm_compute; reflexivity|]. split; reflexivity.
Qed.

(** ** [PartitionedModel.initialize] *)

Lemma all_increasing_spec (cuts : list Z) n :
  n + 1 ≤ length cuts →
  ∃ b, PM.all_increasing cuts (n + 1) = Ok b ∧
       (b = true ↔
        ∀ i a a', i < n → cuts !! i = Some a → cuts !! (i + 1) = Some a' → (a < a')%Z).
Proof.
  unfold PM.all_increasing. replace (n + 1 - 1) with n by lia.
  induction n as [|n IH]; intros Hlen.
  - exists true. split; [done|]. split; [|done]. intros _ i a a' Hi. lia.
  - destruct (IH ltac:(lia)) as (b & Hrun & Hb).
    rewrite seq_S, for_each_app, Hrun. simpl.
    destruct (lookup_lt_is_Some_2 cuts n ltac:(lia)) as [x Hx].
    destruct (lookup_lt_is_Some_2 cuts (n + 1) ltac:(lia)) as [y Hy].
    destruct b; simpl.
    + unfold py_index. rewrite Hx, Hy. simpl. eexists. split; [done|].
      rewrite bool_decide_eq_true. split.
      * intros Hxy i a a' Hi Ha Ha'. destruct (decide (i = n)) as [->|Hne].
        -- congruence.
        -- apply (proj1 Hb eq_refl i a a'); [lia|done..].
      * intros Hall. by apply (Hall n x y); [lia|..].
    + exists false. split; [done|]. split; [done|]. intros Hall.
      apply Hb. intros i a a' Hi. apply Hall. lia.
Qed.

Lemma check_stage_to_cut_spec (cuts : list Z) num_stages num_cutpoints :
  0 < num_stages →
  (PM.check_stage_to_cut cuts num_stages num_cutpoints = Ok tt ∧
   PM.valid_stage_to_cut cuts num_stages num_cutpoints) ∨
  (¬ PM.valid_stage_to_cut cuts num_stages num_cutpoints ∧
   ∃ msg, PM.check_stage_to_cut cuts num_stages num_cutpoints = Raise (AssertionError msg)).
Proof.
  intros Hns. unfold PM.check_stage_to_cut, PM.valid_stage_to_cut, py_assert.
  case_bool_decide as Hlen; simpl; [|right; split; [tauto|by eexists]].
  destruct (last cuts) as [final|] eqn:Hlast; simpl.
  2:{ apply last_None in Hlast. subst cuts. simpl in Hlen. lia. }
  case_bool_decide as Hfin; simpl.
  2:{ right. split; [|by eexists]. intros (_ & _ & Hl). apply Hfin. by apply Hl. }
  destruct (all_increasing_spec cuts (num_stages - 1) ltac:(lia)) as (b & Hrun & Hb).
  replace (num_stages - 1 + 1) with num_stages in Hrun by lia. rewrite Hrun. simpl.
  destruct b.
  - left. split; [done|]. split; [done|]. split.
    + intros i a a' Ha Ha'. apply (proj1 Hb eq_refl i a a'); [|done..].
      apply lookup_lt_Some in Ha'. lia.
    + intros x [= <-]. done.
  - right. split; [|by eexists]. intros (_ & Hinc & _).
    assert (false = true); [|done]. apply Hb. intros i a a' _. apply Hinc.
Qed.

Lemma default_stage_to_cut_spec num_cutpoints num_stages :
  0 < num_stages →
  (num_stages ≤ num_cutpoints + 1 ∧
   PM.default_stage_to_cut num_cutpoints num_stages = Ok (default_cuts num_cutpoints num_stages) ∧
   PM.valid_stage_to_cut (default_cuts num_cutpoints num_stages) num_stages num_cutpoints) ∨
  (num_cutpoints + 1 < num_stages ∧
   PM.default_stage_to_cut num_cutpoints num_stages = Raise ValueError).
Proof.
  intros Hns. unfold PM.default_stage_to_cut, py_range0, default_cuts.
  rewrite decide_False by lia.
  set (c := (num_cutpoints + 1) / num_stages).
  pose proof (Nat.div_mod_eq (num_cutpoints + 1) num_stages) as Hdm.
  pose proof (Nat.mod_upper_bound (num_cutpoints + 1) num_stages ltac:(lia)) as Hm.
  fold c in Hdm.
  destruct (decide (c = 0)) as [Hc|Hc].
  - right. split; [nia|]. done.
  - left. split; [nia|].
    assert ((c * num_stages + c - 1) / c = num_stages) as ->.
    { symmetry. apply (Nat.div_unique _ _ _ (c - 1)); lia. }
    split.
    { simpl. f_equal. rewrite <- list_fmap_compose. done. }
    split; [by rewrite length_fmap, length_seq|]. split.
    + intros i a a'. rewrite !list_lookup_fmap.
      intros (j & Hj & ->)%fmap_Some (j' & Hj' & ->)%fmap_Some.
      apply lookup_seq in Hj as [-> _]. apply lookup_seq in Hj' as [-> _]. nia.
    + intros x. rewrite last_lookup, length_fmap, length_seq, list_lookup_fmap.
      intros (j & Hj & ->)%fmap_Some. apply lookup_seq in Hj as [-> Hj]. nia.
Qed.

(** C4. A [PartitionedModel] has at least one stage (its constructor
    raises when the rank is in no stage). Under every stage-to-cut list with
    which [initialize] completes, given by the caller or built by default,
    the list is as long as there are stages, strictly increasing, and ends
    at most at the number of cutpoints; a given list that breaks one of
    these makes [initialize] fail on an assertion, before the cutpoints are
    prepared; and the default list, when there are at least as many
    intervals as stages, passes the assertions. [prepare] stands for the
    rest of [initialize], which does not assign the three attributes. *)
Theorem initialize_stage_to_cut {Tensor Rng Value : Type} (dry_run : result nat)
    (prepare : @PM.State Tensor Rng Value → result (@PM.State Tensor Rng Value))
    (s : @PM.State Tensor Rng Value) :
  0 < PM.num_stages (PM.cfg s) →
  (∀ s0 s1, prepare s0 = Ok s1 →
     PM.stage_to_cut (PM.cfg s1) = PM.stage_to_cut (PM.cfg s0) ∧
     PM.num_stages (PM.cfg s1) = PM.num_stages (PM.cfg s0) ∧
     PM.num_cutpoints (PM.cfg s1) = PM.num_cutpoints (PM.cfg s0)) →
  (∀ s', PM.initialize dry_run prepare s = Ok s' →
     ∃ cuts,
       PM.stage_to_cut (PM.cfg s') = Some cuts ∧
       PM.valid_stage_to_cut cuts (PM.num_stages (PM.cfg s')) (PM.num_cutpoints (PM.cfg s')) ∧
       dry_run = Ok (PM.num_cutpoints (PM.cfg s')) ∧
       match PM.stage_to_cut (PM.cfg s) with
       | Some given => cuts = given
       | None => cuts = default_cuts (PM.num_cutpoints (PM.cfg s')) (PM.num_stages (PM.cfg s'))
       end) ∧
  (∀ n cuts, dry_run = Ok n → PM.stage_to_cut (PM.cfg s) = Some cuts →
     ¬ PM.valid_stage_to_cut cuts (PM.num_stages (PM.cfg s)) n →
     ∃ msg, PM.initialize dry_run prepare s = Raise (AssertionError msg)) ∧
  (∀ n, dry_run = Ok n → PM.stage_to_cut (PM.cfg s) = None →
     PM.num_stages (PM.cfg s) ≤ n + 1 →
     PM.initialize dry_run prepare s
     = prepare (PM.set_cfg (PM.with_cuts (Some (default_cuts n (PM.num_stages (PM.cfg s))))
                              n (PM.cfg s)) s)).
Proof.
  intros Hns Hframe. unfold PM.initialize. split; [|split].
  - intros s'. destruct dry_run as [n| |]; simpl; [|done..].
    destruct (PM.stage_to_cut (PM.cfg s)) as [given|] eqn:Hgiven; simpl.
    + destruct (check_stage_to_cut_spec given (PM.num_stages (PM.cfg s)) n Hns)
        as [[-> Hvalid]|[_ [msg ->]]]; simpl; [|done].
      intros Hprep. destruct (Hframe _ _ Hprep) as (Hc & Hs & Hn). simpl in *.
      exists given. rewrite Hc, Hs, Hn. done.
    + destruct (default_stage_to_cut_spec n (PM.num_stages (PM.cfg s)) Hns)
        as [(_ & -> & Hvalid)|[_ ->]]; simpl; [|done].
      destruct (check_stage_to_cut_spec (default_cuts n (PM.num_stages (PM.cfg s)))
                  (PM.num_stages (PM.cfg s)) n Hns) as [[-> _]|[Hn _]]; simpl; [|done].
      intros Hprep. destruct (Hframe _ _ Hprep) as (Hc & Hs & Hn). simpl in *.
      eexists. rewrite Hc, Hs, Hn. done.
  - intros n cuts -> -> Hbad. simpl.
    destruct (check_stage_to_cut_spec cuts (PM.num_stages (PM.cfg s)) n Hns)
      as [[_ Hvalid]|[_ [msg ->]]]; [done|]. by exists msg.
  - intros n -> -> Hle. simpl.
    destruct (default_stage_to_cut_spec n (PM.num_stages (PM.cfg s)) Hns)
      as [(_ & -> & Hvalid)|[Hlt _]]; [|lia]. simpl.
    destruct (check_stage_to_cut_spec (default_cuts n (PM.num_stages (PM.cfg s)))
                (PM.num_stages (PM.cfg s)) n Hns) as [[-> _]|[Hn _]]; done.
Qed.

Lemma initialize_stage_to_cut_witness :
  ∃ s', PM.initialize (Ok 5) Ok fresh_model = Ok s' ∧
        PM.stage_to_cut (PM.cfg s') = Some [0; 2; 4]%Z ∧
        PM.valid_stage_to_cut [0; 2; 4]%Z 3 5.
Proof.
  destruct (initialize_stage_to_cut (Ok 5) Ok fresh_model) as (Hok & _ & _).
  { simpl. lia. }
  { by intros s0 s1 [= ->]. }
  eexists. split; [vm_compute; reflexivity|]. split; [reflexivity|].
  destruct (Hok _ eq_refl) as (cuts & Hcuts & Hvalid & _).
  injection Hcuts as <-. exact Hvalid.
Defined.

(** ** [PartitionedModel.forward] *)

Section forward_facts.
Context {Tensor Rng Value Inputs : Type} `{!TensorOps Tensor Rng}.
Variable module_call :
  Inputs → Torch Rng → @PM.State Tensor Rng Value → @PM.ModuleOutcome Tensor Rng Value.
Variable print_error : exn → option exn.

Lemma forward_try_raised inputs t s e t' s' :
  module_call inputs t s = PM.Raised e t' s' → is_Exception e = true →
  PM.forward_try module_call print_error inputs t s
  = match PM.ret_val s' with
    | None => Raise (default e (print_error e))
    | Some v => Ok (Some v, t', s')
    end.
Proof.
  intros Hcall Hexc. unfold PM.forward_try. rewrite Hcall, Hexc.
  destruct (PM.ret_val s'); [done|]. by destruct (print_error e).
Qed.

(** The [try] statement, whatever [print] is in scope. The stage's module
    raises an [Exception] once the communication is set up. An exception
    leaves exactly when no value was recorded in [ret_val]: the exception
    of the module itself, provided the [print] before the [raise] returns.
    When a value was recorded the exception is dropped, [forward] goes on
    as after a normal return and, where no context is to be saved, returns
    the recorded value. *)
Theorem forward_reraises_iff_no_ret_val inputs recompute save_ctx handle_comm
    t s recv_acts t1 s1 e t2 s2 :
  PM.forward_setup recompute handle_comm t s = Ok (recv_acts, t1, s1) →
  module_call inputs t1 s1 = PM.Raised e t2 s2 →
  is_Exception e = true →
  (raises (PM.forward_try module_call print_error inputs t1 s1) ↔ PM.ret_val s2 = None) ∧
  (PM.ret_val s2 = None →
     raises (PM.forward module_call print_error inputs recompute save_ctx handle_comm t s) ∧
     (print_error e = None →
        PM.forward module_call print_error inputs recompute save_ctx handle_comm t s
        = Raise e)) ∧
  (∀ v, PM.ret_val s2 = Some v →
     PM.forward module_call print_error inputs recompute save_ctx handle_comm t s
     = PM.forward_finish save_ctx (save_rng_states t) recv_acts (Some v) t2
         (PM.set_ret_val None s2) ∧
     (save_ctx = false →
        PM.forward module_call print_error inputs recompute save_ctx handle_comm t s
        = Ok (Some v, t2, PM.set_ret_val None s2))).
Proof.
  intros Hsetup Hcall Hexc.
  pose proof (forward_try_raised inputs t1 s1 e t2 s2 Hcall Hexc) as Htry.
  unfold PM.forward. rewrite Hsetup. simpl. rewrite Htry.
  split; [|split].
  - destruct (PM.ret_val s2); split; try done.
    + by intros [e' ?].
    + intros _. by eexists.
  - intros ->. simpl. split; [by eexists|]. by intros ->.
  - intros v ->. simpl. split; [done|]. by intros ->.
Qed.

End forward_facts.

Lemma forward_reraises_iff_no_ret_val_witness :
  PM.forward (failing_module true) (λ _, None) 0 (ArgBool false) false false
    idle_torch fresh_model
  = Ok (Some 7, idle_torch, PM.clear_recv_fn fresh_model) ∧
  PM.forward (failing_module false) (λ _, None) 0 (ArgBool false) false false
    idle_torch fresh_model
  = Raise (RuntimeError "no-op module called").
Proof.
  split.
  - refine (proj2 (proj2 (proj2 (forward_reraises_iff_no_ret_val
      (failing_module true) (λ _, None) 0 (ArgBool false) false false
      idle_torch fresh_model None idle_torch (PM.clear_recv_fn fresh_model)
      (RuntimeError "no-op module called") idle_torch
      (PM.set_ret_val (Some 7) (PM.clear_recv_fn fresh_model))
      eq_refl eq_refl eq_refl)) 7 eq_refl) eq_refl).
  - refine (proj2 (proj1 (proj2 (forward_reraises_iff_no_ret_val
      (failing_module false) (λ _, None) 0 (ArgBool false) false false
      idle_torch fresh_model None idle_torch (PM.clear_recv_fn fresh_model)
      (RuntimeError "no-op module called") idle_torch (PM.clear_recv_fn fresh_model)
      eq_refl eq_refl eq_refl)) eq_refl) eq_refl).
Defined.

(** C9. With Python's own [print] in scope the error print of the
    [except] clause fails on its keyword [force] before [raise e] is
    reached: when the stage's module raises an [Exception] and no value was
    recorded in [ret_val], what leaves [forward] is the [TypeError] of the
    print, whatever the module raised, and never the exception of the
    module. So it is for the stage whose module raises a [RuntimeError];
    had its boundary marker recorded the value 7, that value would be
    returned. *)
Theorem forward_error_print_masks_exception :
  (∀ (Tensor Rng Value Inputs : Type) (ops : TensorOps Tensor Rng)
     (module_call : Inputs → Torch Rng → @PM.State Tensor Rng Value
                    → @PM.ModuleOutcome Tensor Rng Value)
     inputs recompute save_ctx handle_comm t s recv_acts t1 s1 e t2 s2,
     PM.forward_setup recompute handle_comm t s = Ok (recv_acts, t1, s1) →
     module_call inputs t1 s1 = PM.Raised e t2 s2 →
     is_Exception e = true →
     PM.ret_val s2 = None →
     PM.forward module_call builtin_print inputs recompute save_ctx handle_comm t s
     = Raise TypeError) ∧
  PM.forward (failing_module false) builtin_print 0 (ArgBool false) false false
    idle_torch fresh_model
  = Raise TypeError ∧
  PM.forward (failing_module false) builtin_print 0 (ArgBool false) false false
    idle_torch fresh_model
  ≠ Raise (RuntimeError "no-op module called") ∧
  PM.forward (failing_module true) builtin_print 0 (ArgBool false) false false
    idle_torch fresh_model
  = Ok (Some 7, idle_torch, PM.clear_recv_fn fresh_model).
Proof.
  split; [|split; [|split]].
  - intros Tensor Rng Value Inputs ops module_call inputs recompute save_ctx handle_comm
      t s recv_acts t1 s1 e t2 s2 Hsetup Hcall Hexc Hret.
    unfold PM.forward. rewrite Hsetup. cbn [mbind result_mbind result_bind].
    rewrite (forward_try_raised module_call builtin_print inputs t1 s1 e t2 s2 Hcall Hexc).
    rewrite Hret. done.
  - reflexivity.
  - discriminate.
  - reflexivity.
Qed.

(** ** The polling loops and the exception channel *)

Section polling_facts.
Context {Tensor Rng Value : Type} `{!TensorOps Tensor Rng}.
Implicit Types (q : @PM.Queues Tensor Rng) (s : @PM.State Tensor Rng Value).

Lemma poll_once_raises own with_own q e es :
  PM.excp_queue q = Some (e :: es) → PM.poll_once own with_own q = Raise e.
Proof. intros He. unfold PM.poll_once. by rewrite He. Qed.

Lemma poll_raises own with_own ws q e es :
  PM.excp_queue q = Some (e :: es) → PM.poll own with_own ws q = Raise e.
Proof. intros He. destruct ws; simpl; by rewrite (poll_once_raises _ _ _ e es). Qed.

Lemma poll_step own with_own w ws q :
  PM.excp_queue q = Some [] → own q = Some [] →
  PM.poll own with_own (w :: ws) q = PM.poll own with_own ws (PM.worker_step w q).
Proof.
  intros He Ho. cbn [PM.poll]. unfold PM.poll_once. rewrite He. simpl. by rewrite Ho.
Qed.

Lemma poll_idle_rounds own with_own n ws q :
  PM.excp_queue q = Some [] → own q = Some [] →
  PM.poll own with_own (replicate n PM.Idle ++ ws) q = PM.poll own with_own ws q.
Proof.
  intros He Ho. induction n as [|n IH]; [done|].
  change (replicate (S n) PM.Idle ++ ws) with (PM.Idle :: (replicate n PM.Idle ++ ws)).
  by rewrite poll_step.
Qed.

Lemma poll_failure_next_round own with_own n ws q e :
  PM.excp_queue q = Some [] → own q = Some [] →
  PM.poll own with_own (replicate n PM.Idle ++ PM.PutExcp e :: ws) q = Raise e.
Proof.
  intros He Ho. rewrite poll_idle_rounds, poll_step by done.
  apply (poll_raises _ _ _ _ e []). simpl. by rewrite He.
Qed.

End polling_facts.

(** C3, as the code has it. The two polling loops of
    [PartitionedModel.set_recv_fn] (for the activations, and in [recv] for
    the gradients) look at the exception channel before their own queue in
    every round and raise the failure they find there, whatever their own
    queue holds; so a failure that a worker places on the channel after any
    number of fruitless rounds is raised in the next round.
    [Pipeline.set_model_recv_fn] and the [recv] it defines have no such
    channel: on an empty queue they wait, whatever the state of the
    model. *)
Theorem polling_loops_observe_failure {Tensor Rng Value Inputs Num : Type}
    `{!TensorOps Tensor Rng} :
  (∀ (q : @PM.Queues Tensor Rng) ws e es,
     PM.excp_queue q = Some (e :: es) →
     PM.poll_acts ws q = Raise e ∧ PM.poll_grads ws q = Raise e) ∧
  (∀ (recompute : PyArg Tensor) t (s : @PM.State Tensor Rng Value) n e ws,
     truthy recompute = false → 0 < PM.stage (PM.cfg s) →
     PM.excp_queue (PM.queues s) = Some [] → PM.acts_queue (PM.queues s) = Some [] →
     PM.workers s = replicate n PM.Idle ++ PM.PutExcp e :: ws →
     PM.set_recv_fn recompute t s = Raise e) ∧
  (∀ acts (s : @PM.State Tensor Rng Value) n e ws,
     PM.excp_queue (PM.queues s) = Some [] → PM.grads_queue (PM.queues s) = Some [] →
     PM.workers s = replicate n PM.Idle ++ PM.PutExcp e :: ws →
     PM.recv acts true s = Raise e) ∧
  (∀ M (H : StageModel Tensor Rng M) (p : @Pipeline.Pipe Tensor Rng Inputs Num M),
     0 < Pipeline.stage (Pipeline.config p) → Pipeline.acts_queue p = [] →
     Pipeline.set_model_recv_fn false p = Blocked) ∧
  (∀ M acts (e : @Pipeline.Env Tensor Rng M),
     Pipeline.grads_queue e = [] → Pipeline.recv acts true e = Blocked).
Proof.
  split; [|split; [|split; [|split]]].
  - intros q ws e es He. split; by apply (poll_raises _ _ _ _ e es).
  - intros recompute t s n e ws Hr Hst He Ha Hws. unfold PM.set_recv_fn.
    rewrite Hr. rewrite decide_True by done. rewrite Hws.
    unfold PM.poll_acts. by rewrite poll_failure_next_round.
  - intros acts s n e ws He Hg Hws. unfold PM.recv. rewrite Hws.
    unfold PM.poll_grads. by rewrite poll_failure_next_round.
  - intros M H p Hst Ha. unfold Pipeline.set_model_recv_fn, Pipeline.take_acts.
    rewrite decide_True by done. by rewrite Ha.
  - intros M acts e Hg. unfold Pipeline.recv. by rewrite Hg.
Qed.

Lemma polling_loops_observe_failure_witness :
  PM.set_recv_fn (ArgBool false) idle_torch polling_model
  = Raise (RuntimeError "send failed") ∧
  PM.recv None true polling_model = Raise (RuntimeError "send failed").
Proof.
  pose proof (@polling_loops_observe_failure nat nat nat nat nat _) as (_ & Hacts & Hgrads & _).
  split.
  - apply (Hacts (ArgBool false) idle_torch polling_model 2
                 (RuntimeError "send failed") [PM.PutActs [1; 2]]);
      [reflexivity|simpl; lia|reflexivity..].
  - apply (Hgrads None polling_model 2 (RuntimeError "send failed") [PM.PutActs [1; 2]]);
      reflexivity.
Defined.

(** C3 as stated fails: a transport failure is on the exception channel
    and the blocking receive of [Pipeline] does not raise it; it waits. *)
Lemma pipeline_receive_ignores_failure :
  PM.excp_queue (PM.queues (Pipeline.model (Pipeline.env stalled_pipeline)))
  = Some [RuntimeError "send failed"] ∧
  Pipeline.set_model_recv_fn false stalled_pipeline = Blocked ∧
  Pipeline.recv None true (Pipeline.env stalled_pipeline) = Blocked.
Proof. split; [reflexivity|]. split; reflexivity. Qed.

(** ** [Pipeline] over the [PartitionedModel] of [partitioned_model.py] *)

Section closures_as_flags.
Context {Tensor Rng Value Inputs Num : Type} `{!TensorOps Tensor Rng}.
Implicit Types (s : @PM.State Tensor Rng Value)
               (p : @Pipeline.Pipe Tensor Rng Inputs Num (@PM.State Tensor Rng Value)).

(** With a function object for [recompute], [send] leaves the model as it
    is when called for activations, and never touches [acts_send_queue]. *)
Lemma pm_send_function_flag (c : Closure Tensor) tensor_tuple grads t s t' s' :
  PM.send (ArgFun c) tensor_tuple grads t s = Ok (t', s') →
  PM.acts_send_queue (PM.queues s') = PM.acts_send_queue (PM.queues s) ∧
  (grads = false → s' = s).
Proof.
  unfold PM.send.
  destruct (if PM.trimmed (PM.cfg s) then _ else _) as [sendlist t0].
  destruct grads; simpl.
  - destruct (PM.grads_send_queue (PM.queues s)); simpl; [|done].
    intros [= <- <-]. done.
  - intros [= <- <-]. done.
Qed.

(** With a function object for [recompute], [set_recv_fn] takes the
    branch that pops the model's own [recompute_queue]. *)
Lemma pm_set_recv_fn_function_flag (c : Closure Tensor) t s :
  PM.set_recv_fn (ArgFun c) t s
  = match PM.recompute_queue (PM.queues s) with
    | None => Raise AttributeError
    | Some [] => Blocked
    | Some ((rng_states, acts) :: rest) =>
        acts ← (if decide (0 < PM.stage (PM.cfg s))
                then Some <$> PM.to_device_all acts else Ok acts);
        let s1 := PM.set_queues_of (PM.with_recompute_queue rest (PM.queues s)) s in
        Ok (acts, restore_rng_states rng_states t,
            PM.set_cps (PM.install_recv (Some (PMRecv acts)) <$> PM.pre_cp s1)
                       (PM.install_recv (Some (PMRecv acts)) <$> PM.post_cp s1) s1)
    end.
Proof.
  unfold PM.set_recv_fn. simpl.
  destruct (PM.recompute_queue (PM.queues s)) as [[|[rng_states acts] rest]|]; simpl;
    done.
Qed.

(** C10. [Pipeline.set_model_send_fn] and [Pipeline.set_model_recv_fn]
    hand their closures to [PartitionedModel.set_send_fn] and
    [set_recv_fn], where they are bound to [recompute]. The function
    installed on the cutpoints as [send_fn] is the model's own closure,
    holding the closure of [Pipeline] as its flag; that closure never puts
    anything on the model's [acts_send_queue]; and [set_recv_fn] pops the
    model's [recompute_queue] (so it fails when that queue was never set
    and waits when it is empty), installing the model's own [recv]. *)
Theorem pipeline_closures_bound_to_recompute p (recompute : bool) :
  let m := Pipeline.model (Pipeline.env p) in
  (∃ p', Pipeline.set_model_send_fn recompute p = Ok p' ∧
     Pipeline.model (Pipeline.env p')
     = PM.set_send_fn (ArgFun (PipeSend recompute)) m ∧
     PM.send_fn <$> PM.pre_cp (Pipeline.model (Pipeline.env p'))
     = (λ _, Some (PMSend (ArgFun (PipeSend recompute)))) <$> PM.pre_cp m ∧
     PM.send_fn <$> PM.post_cp (Pipeline.model (Pipeline.env p'))
     = (λ _, Some (PMSend (ArgFun (PipeSend recompute)))) <$> PM.post_cp m) ∧
  (∀ (c : Closure Tensor) tensor_tuple grads t s t' s',
     PM.send (ArgFun c) tensor_tuple grads t s = Ok (t', s') →
     PM.acts_send_queue (PM.queues s') = PM.acts_send_queue (PM.queues s)) ∧
  (PM.recompute_queue (PM.queues m) = None →
     Pipeline.set_model_recv_fn recompute p = Blocked ∨
     Pipeline.set_model_recv_fn recompute p = Raise AttributeError) ∧
  (PM.recompute_queue (PM.queues m) = Some [] →
     Pipeline.set_model_recv_fn recompute p = Blocked) ∧
  (∀ acts p', Pipeline.set_model_recv_fn recompute p = Ok (acts, p') →
     ∃ ctx rest pm_acts,
       PM.recompute_queue (PM.queues m) = Some (ctx :: rest) ∧
       PM.recompute_queue (PM.queues (Pipeline.model (Pipeline.env p'))) = Some rest ∧
       PM.acts_queue (PM.queues (Pipeline.model (Pipeline.env p')))
       = PM.acts_queue (PM.queues m) ∧
       PM.workers (Pipeline.model (Pipeline.env p')) = PM.workers m ∧
       PM.recv_fn <$> PM.pre_cp (Pipeline.model (Pipeline.env p'))
       = (λ _, Some (PMRecv pm_acts)) <$> PM.pre_cp m ∧
       PM.recv_fn <$> PM.post_cp (Pipeline.model (Pipeline.env p'))
       = (λ _, Some (PMRecv pm_acts)) <$> PM.post_cp m).
Proof.
  intros m.
  assert (Pipeline.take_acts recompute p = Blocked ∨
          ∃ acts p1, Pipeline.take_acts recompute p = Ok (acts, p1) ∧
                     Pipeline.model (Pipeline.env p1) = m) as Hown.
  { unfold Pipeline.take_acts. destruct recompute.
    - destruct (Pipeline.recompute_queue p) as [|[ctx a] rest]; [by left|].
      right. by do 2 eexists.
    - case_decide; [|right; by do 2 eexists].
      destruct (Pipeline.acts_queue p); [by left|]. right. by do 2 eexists. }
  split; [|split; [|split; [|split]]].
  - unfold Pipeline.set_model_send_fn. simpl. eexists. split; [done|]. simpl.
    split; [done|]. fold m. split.
    + by destruct (PM.pre_cp m).
    + by destruct (PM.post_cp m).
  - intros c tensor_tuple grads t s t' s' Hsend.
    by destruct (pm_send_function_flag c tensor_tuple grads t s t' s' Hsend).
  - intros Hq. unfold Pipeline.set_model_recv_fn.
    destruct Hown as [->|(acts & p1 & -> & Hm)]; [by left|]. right. simpl.
    rewrite Hm, pm_set_recv_fn_function_flag, Hq. done.
  - intros Hq. unfold Pipeline.set_model_recv_fn.
    destruct Hown as [->|(acts & p1 & -> & Hm)]; [done|]. simpl.
    rewrite Hm, pm_set_recv_fn_function_flag, Hq. done.
  - intros acts p'. unfold Pipeline.set_model_recv_fn.
    destruct Hown as [->|(acts1 & p1 & -> & Hm)]; [done|]. simpl.
    rewrite Hm, pm_set_recv_fn_function_flag.
    destruct (PM.recompute_queue (PM.queues m)) as [[|[rng_states a] rest]|] eqn:Hq;
      simpl; [done| |done].
    destruct (if decide (0 < PM.stage (PM.cfg m)) then _ else _) as [a'| |]; simpl;
      [|done..].
    intros [= <- <-]. simpl. exists (rng_states, a), rest, a'.
    split; [done|]. split; [done|]. split; [done|]. split; [done|]. split.
    + by destruct (PM.pre_cp m).
    + by destruct (PM.post_cp m).
Qed.

End closures_as_flags.

(** ** [Pipeline.worker] and [Pipeline.run] *)

Lemma bind_Ok_inv {A B} (m : result A) (f : A → result B) b :
  m ≫= f = Ok b → ∃ a, m = Ok a ∧ f a = Ok b.
Proof. destruct m as [a| |]; simpl; [|done..]. intros H. by exists a. Qed.

Section pipeline_facts.
Context {Tensor Rng Inputs Output Num M : Type}.
Context `{!StageModel Tensor Rng M} `{!@Pipeline.Runtime Tensor Rng Inputs Output Num M}.
Implicit Types (p : @Pipeline.Pipe Tensor Rng Inputs Num M).

Lemma set_model_send_fn_spec recompute p p' :
  Pipeline.set_model_send_fn recompute p = Ok p' →
  Pipeline.history p' = Pipeline.history p ++ [Pipeline.SetSendFn recompute] ∧
  same_private p p' ∧
  (setters_keep_grad_mode →
   grad_enabled (Pipeline.torch (Pipeline.env p'))
   = grad_enabled (Pipeline.torch (Pipeline.env p))).
Proof.
  unfold Pipeline.set_model_send_fn.
  intros ([t m] & Hset & [= <-])%bind_Ok_inv. simpl.
  split; [done|]. split; [done|]. intros Hkeep. eapply Hkeep. by left.
Qed.

Lemma take_acts_spec recompute p acts p1 :
  Pipeline.take_acts recompute p = Ok (acts, p1) →
  Pipeline.config p1 = Pipeline.config p ∧
  Pipeline.loss p1 = Pipeline.loss p ∧
  Pipeline.average_loss p1 = Pipeline.average_loss p ∧
  grad_enabled (Pipeline.torch (Pipeline.env p1))
  = grad_enabled (Pipeline.torch (Pipeline.env p)) ∧
  if recompute then
    ∃ ctx, Pipeline.recompute_queue p = (ctx, acts) :: Pipeline.recompute_queue p1 ∧
           Pipeline.acts_queue p1 = Pipeline.acts_queue p ∧
           Pipeline.history p1 = Pipeline.history p ++ [Pipeline.RestoreRng ctx] ∧
           save_rng_states (Pipeline.torch (Pipeline.env p1)) = ctx
  else
    Pipeline.recompute_queue p1 = Pipeline.recompute_queue p ∧
    Pipeline.history p1 = Pipeline.history p ∧
    Pipeline.env p1 = Pipeline.env p ∧
    if decide (0 < Pipeline.stage (Pipeline.config p)) then
      ∃ a, acts = Some a ∧ Pipeline.acts_queue p = a :: Pipeline.acts_queue p1
    else acts = None ∧ Pipeline.acts_queue p1 = Pipeline.acts_queue p.
Proof.
  unfold Pipeline.take_acts. destruct recompute.
  - destruct (Pipeline.recompute_queue p) as [|[ctx a] rest] eqn:Hq; [done|].
    intros [= <- <-]. simpl. repeat split; try done.
    exists ctx. repeat split; try done. by destruct ctx.
  - case_decide.
    + destruct (Pipeline.acts_queue p) as [|a rest] eqn:Hq; [done|].
      intros [= <- <-]. simpl. repeat split; try done. by exists a.
    + intros [= <- <-]. done.
Qed.

Lemma set_model_recv_fn_spec recompute p acts p' :
  Pipeline.set_model_recv_fn recompute p = Ok (acts, p') →
  ∃ p1, Pipeline.take_acts recompute p = Ok (acts, p1) ∧
        Pipeline.history p' = Pipeline.history p1 ++ [Pipeline.SetRecvFn acts] ∧
        same_private p1 p' ∧
        (setters_keep_grad_mode →
         grad_enabled (Pipeline.torch (Pipeline.env p'))
         = grad_enabled (Pipeline.torch (Pipeline.env p))).
Proof.
  unfold Pipeline.set_model_recv_fn.
  intros ([acts1 p1] & Htake & Hrest)%bind_Ok_inv.
  apply bind_Ok_inv in Hrest as ([t m] & Hset & [= <- <-]).
  exists p1. split; [done|]. simpl. split; [done|]. split; [done|].
  destruct (take_acts_spec _ _ _ _ Htake) as (_ & _ & _ & <- & _).
  intros Hkeep. eapply Hkeep. by right.
Qed.

Lemma call_model_spec inputs p output p' :
  Pipeline.call_model inputs p = Ok (output, p') →
  Pipeline.history p'
  = Pipeline.history p ++ [Pipeline.ModelCall inputs (Pipeline.torch (Pipeline.env p))] ∧
  same_private p p' ∧
  ∃ e, Pipeline.model_call inputs (Pipeline.env p) = Ok (output, e) ∧ Pipeline.env p' = e.
Proof.
  unfold Pipeline.call_model. intros ([out e] & Hcall & [= <- <-])%bind_Ok_inv.
  simpl. split; [done|]. split; [done|]. by exists e.
Qed.

(** A forward task that is to be recomputed. *)
Lemma worker_forward_no_grad inputs p p' :
  Pipeline.worker 0 false inputs p = Ok p' →
  ∃ acts t_call,
    Pipeline.history p'
    = Pipeline.history p ++
      [Pipeline.SetGradEnabled false;
       Pipeline.SaveRng (save_rng_states (Pipeline.torch (Pipeline.env p)));
       Pipeline.SetSendFn false; Pipeline.SetRecvFn acts;
       Pipeline.ModelCall inputs t_call] ∧
    (setters_keep_grad_mode → grad_enabled t_call = false) ∧
    Pipeline.recompute_queue p'
    = Pipeline.recompute_queue p ++
      [(save_rng_states (Pipeline.torch (Pipeline.env p)), acts)] ∧
    Pipeline.loss p' = Pipeline.loss p ∧
    Pipeline.average_loss p' = Pipeline.average_loss p ∧
    Pipeline.config p' = Pipeline.config p ∧
    if decide (0 < Pipeline.stage (Pipeline.config p)) then
      ∃ a, acts = Some a ∧ Pipeline.acts_queue p = a :: Pipeline.acts_queue p'
    else acts = None ∧ Pipeline.acts_queue p' = Pipeline.acts_queue p.
Proof.
  unfold Pipeline.worker. rewrite decide_True by done. cbn zeta.
  set (p0 := Pipeline.emit (Pipeline.SaveRng _) _).
  intros (p1 & Hsend & Hrest)%bind_Ok_inv.
  apply bind_Ok_inv in Hrest as ([acts p2] & Hrecv & Hrest).
  apply bind_Ok_inv in Hrest as ([output p3] & Hcall & [= <-]).
  destruct (set_model_send_fn_spec _ _ _ Hsend) as (Hh1 & (Hc1 & Ha1 & Hq1 & Hl1 & Hv1) & Hg1).
  destruct (set_model_recv_fn_spec _ _ _ _ Hrecv)
    as (p1' & Htake & Hh2 & (Hc2 & Ha2 & Hq2 & Hl2 & Hv2) & Hg2).
  destruct (take_acts_spec _ _ _ _ Htake) as (Hc1' & Hl1' & Hv1' & _ & Hq1' & Hh1' & _ & Hacts).
  destruct (call_model_spec _ _ _ _ Hcall) as (Hh3 & (Hc3 & Ha3 & Hq3 & Hl3 & Hv3) & _).
  exists acts, (Pipeline.torch (Pipeline.env p2)). simpl.
  split. { rewrite Hh3, Hh2, Hh1', Hh1. unfold p0. simpl. by rewrite <- !app_assoc. }
  split. { intros Hkeep. rewrite (Hg2 Hkeep), (Hg1 Hkeep). done. }
  split. { rewrite Hq3, Hq2, Hq1', Hq1. done. }
  split. { rewrite Hl3, Hl2, Hl1', Hl1. done. }
  split. { rewrite Hv3, Hv2, Hv1', Hv1. done. }
  split. { rewrite Hc3, Hc2, Hc1', Hc1. done. }
  rewrite Hc1 in Hacts. change (Pipeline.config p0) with (Pipeline.config p) in Hacts.
  rewrite Ha3, Ha2. case_decide.
  - destruct Hacts as (a & -> & Hq). exists a. split; [done|]. rewrite <- Hq, Ha1. done.
  - destruct Hacts as [-> Hq]. split; [done|]. rewrite Hq, Ha1. done.
Qed.

(** A forward task paired with the backward that follows it. *)
Lemma worker_forward_grad inputs p p' :
  Pipeline.worker 0 true inputs p = Ok p' →
  ∃ acts t_call output l,
    Pipeline.history p'
    = Pipeline.history p ++
      [Pipeline.SetGradEnabled true; Pipeline.SetSendFn false; Pipeline.SetRecvFn acts;
       Pipeline.ModelCall inputs t_call] ∧
    (setters_keep_grad_mode → grad_enabled t_call = true) ∧
    Pipeline.first_output output = Ok l ∧
    Pipeline.loss p' = Some l ∧
    Pipeline.recompute_queue p' = Pipeline.recompute_queue p ∧
    Pipeline.average_loss p' = Pipeline.average_loss p ∧
    Pipeline.config p' = Pipeline.config p.
Proof.
  unfold Pipeline.worker. rewrite decide_True by done. cbn zeta.
  set (p0 := Pipeline.emit (Pipeline.SetGradEnabled true) _).
  intros (p1 & Hsend & Hrest)%bind_Ok_inv.
  apply bind_Ok_inv in Hrest as ([acts p2] & Hrecv & Hrest).
  apply bind_Ok_inv in Hrest as ([output p3] & Hcall & Hrest).
  apply bind_Ok_inv in Hrest as (l & Hfirst & [= <-]).
  destruct (set_model_send_fn_spec _ _ _ Hsend) as (Hh1 & (Hc1 & Ha1 & Hq1 & Hl1 & Hv1) & Hg1).
  destruct (set_model_recv_fn_spec _ _ _ _ Hrecv)
    as (p1' & Htake & Hh2 & (Hc2 & Ha2 & Hq2 & Hl2 & Hv2) & Hg2).
  destruct (take_acts_spec _ _ _ _ Htake) as (Hc1' & Hl1' & Hv1' & _ & Hq1' & Hh1' & _ & Hacts).
  destruct (call_model_spec _ _ _ _ Hcall) as (Hh3 & (Hc3 & Ha3 & Hq3 & Hl3 & Hv3) & _).
  exists acts, (Pipeline.torch (Pipeline.env p2)), output, l. simpl.
  split. { rewrite Hh3, Hh2, Hh1', Hh1. unfold p0. simpl. by rewrite <- !app_assoc. }
  split. { intros Hkeep. rewrite (Hg2 Hkeep), (Hg1 Hkeep). done. }
  split; [done|]. split; [done|].
  split. { rewrite Hq3, Hq2, Hq1', Hq1. done. }
  split. { rewrite Hv3, Hv2, Hv1', Hv1. done. }
  rewrite Hc3, Hc2, Hc1', Hc1. done.
Qed.

(** A recomputation task. *)
Lemma worker_recompute grad_mode inputs p p' :
  Pipeline.worker 1 grad_mode inputs p = Ok p' →
  ∃ ctx acts t_call output l,
    Pipeline.recompute_queue p = (ctx, acts) :: Pipeline.recompute_queue p' ∧
    Pipeline.history p'
    = Pipeline.history p ++
      [Pipeline.SetGradEnabled true; Pipeline.SetSendFn true; Pipeline.RestoreRng ctx;
       Pipeline.SetRecvFn acts; Pipeline.ModelCall inputs t_call] ∧
    (setters_keep_grad_mode → grad_enabled t_call = true) ∧
    Pipeline.first_output output = Ok l ∧
    Pipeline.loss p' = Some l ∧
    Pipeline.acts_queue p' = Pipeline.acts_queue p ∧
    Pipeline.average_loss p' = Pipeline.average_loss p ∧
    Pipeline.config p' = Pipeline.config p.
Proof.
  unfold Pipeline.worker. rewrite decide_False by done.
  rewrite decide_True by done. cbn zeta.
  set (p0 := Pipeline.emit (Pipeline.SetGradEnabled true) _).
  intros (p1 & Hsend & Hrest)%bind_Ok_inv.
  apply bind_Ok_inv in Hrest as ([acts p2] & Hrecv & Hrest).
  apply bind_Ok_inv in Hrest as ([output p3] & Hcall & Hrest).
  apply bind_Ok_inv in Hrest as (l & Hfirst & [= <-]).
  destruct (set_model_send_fn_spec _ _ _ Hsend) as (Hh1 & (Hc1 & Ha1 & Hq1 & Hl1 & Hv1) & Hg1).
  destruct (set_model_recv_fn_spec _ _ _ _ Hrecv)
    as (p1' & Htake & Hh2 & (Hc2 & Ha2 & Hq2 & Hl2 & Hv2) & Hg2).
  destruct (take_acts_spec _ _ _ _ Htake)
    as (Hc1' & Hl1' & Hv1' & _ & ctx & Hq1' & Ha1' & Hh1' & _).
  destruct (call_model_spec _ _ _ _ Hcall) as (Hh3 & (Hc3 & Ha3 & Hq3 & Hl3 & Hv3) & _).
  exists ctx, acts, (Pipeline.torch (Pipeline.env p2)), output, l. simpl.
  split. { rewrite Hq3, Hq2, <- Hq1', Hq1. done. }
  split. { rewrite Hh3, Hh2, Hh1', Hh1. unfold p0. simpl. by rewrite <- !app_assoc. }
  split. { intros Hkeep. rewrite (Hg2 Hkeep), (Hg1 Hkeep). done. }
  split; [done|]. split; [done|].
  split. { rewrite Ha3, Ha2, Ha1', Ha1. done. }
  split. { rewrite Hv3, Hv2, Hv1', Hv1. done. }
  rewrite Hc3, Hc2, Hc1', Hc1. done.
Qed.

(** One round of the loop of [run]: the worker runs on the object as it
    is, but for the [no_sync] context around it. *)
Lemma run_step_inv p index task idx p' :
  Pipeline.run_step p (index, (task, idx)) = Ok p' →
  ∃ gm inputs pw pw',
    Pipeline.grad_mode_at (Pipeline.schedule (Pipeline.config p)) index task = Ok gm ∧
    Pipeline.batches (Pipeline.config p) !! idx = Some inputs ∧
    Pipeline.worker task gm inputs pw = Ok pw' ∧
    same_private p pw ∧ Pipeline.history pw = Pipeline.history p ∧
    Pipeline.torch (Pipeline.env pw) = Pipeline.torch (Pipeline.env p) ∧
    same_private pw' p' ∧ Pipeline.history p' = Pipeline.history pw'.
Proof.
  unfold Pipeline.run_step. simpl.
  intros (gm & Hgm & Hrest)%bind_Ok_inv.
  apply bind_Ok_inv in Hrest as (inputs & Hin & Hrest).
  assert (Pipeline.batches (Pipeline.config p) !! idx = Some inputs) as Hlook.
  { unfold py_index in Hin. destruct (_ !! idx); by simplify_eq. }
  exists gm, inputs.
  destruct (Pipeline.data_parallel (Pipeline.config p) && _).
  - apply bind_Ok_inv in Hrest as (pw' & Hw & [= <-]).
    eexists _, pw'. split; [done|]. split; [done|]. split; [exact Hw|]. done.
  - exists p, p'. split; [done|]. split; [done|]. split; [exact Hrest|]. done.
Qed.

Lemma grad_mode_at_forward (sched : list (nat * nat)) index :
  (Pipeline.grad_mode_at sched index 0 = Ok true ↔
   ∃ idx', sched !! (index + 1) = Some (2, idx')) ∧
  (Pipeline.grad_mode_at sched index 0 = Ok false ↔
   ∃ task idx', sched !! (index + 1) = Some (task, idx') ∧ task ≠ 2) ∧
  (Pipeline.grad_mode_at sched index 0 = Raise IndexError ↔ sched !! (index + 1) = None).
Proof.
  unfold Pipeline.grad_mode_at, py_index. rewrite decide_True by done.
  destruct (sched !! (index + 1)) as [[task idx']|]; simpl.
  - case_bool_decide as Ht; simpl in Ht.
    + subst task. split; [|split]; split; try done.
      * intros _. by eexists.
      * intros (? & ? & [= <- <-] & ?). done.
    + split; [|split]; split; try done.
      * intros (? & [= -> ->]). done.
      * intros _. by exists task, idx'.
  - split; [|split]; split; try done.
    + by intros (? & ?).
    + by intros (? & ? & ? & ?).
Qed.





Lemma call_backward_spec l grads amp p p' :
  Pipeline.call_backward l grads amp p = Ok p' →
  Pipeline.history p' = Pipeline.history p ++ [Pipeline.Backward l grads amp] ∧
  same_private p p'.
Proof.
  unfold Pipeline.call_backward. intros (e & Hb & [= <-])%bind_Ok_inv. done.
Qed.

(** A backward task. *)
Lemma backward_task_spec p p' :
  Pipeline.backward_task p = Ok p' →
  ∃ l, Pipeline.loss p = Some l ∧ Pipeline.loss p' = None ∧
    Pipeline.config p' = Pipeline.config p ∧
    Pipeline.recompute_queue p' = Pipeline.recompute_queue p ∧
    if decide (Z.of_nat (Pipeline.stage (Pipeline.config p))
               ≠ Z.of_nat (Pipeline.partitions (Pipeline.config p)) - 1)%Z
    then
      Pipeline.history p'
      = Pipeline.history p ++
        [Pipeline.Backward l (Some (Pipeline.ones_like l))
           (if Pipeline.fp16 (Pipeline.config p) then Some true else None)] ∧
      Pipeline.average_loss p' = Pipeline.average_loss p
    else
      let scaled := Pipeline.div_chunks l (length (Pipeline.batches (Pipeline.config p))) in
      ∃ x, Pipeline.item scaled = Ok x ∧
        Pipeline.history p'
        = Pipeline.history p ++
          [Pipeline.Backward scaled None
             (if Pipeline.fp16 (Pipeline.config p) then Some false else None)] ∧
        Pipeline.average_loss p' = Pipeline.num_add (Pipeline.average_loss p) x.
Proof.
  unfold Pipeline.backward_task.
  intros (p1 & Hb & [= <-])%bind_Ok_inv.
  destruct (Pipeline.loss p) as [l|] eqn:Hl; [|by case_decide].
  exists l. split; [done|]. simpl. split; [done|]. case_decide.
  - cbn [mbind result_mbind result_bind] in Hb. cbn zeta in Hb.
    destruct (call_backward_spec _ _ _ _ _ Hb) as (Hh & Hc & _ & Hq & _ & Hv).
    simpl in *. done.
  - cbn [mbind result_mbind result_bind] in Hb. cbn zeta in Hb.
    apply bind_Ok_inv in Hb as (x & Hx & Hb).
    destruct (call_backward_spec _ _ _ _ _ Hb) as (Hh & Hc & _ & Hq & _ & Hv).
    simpl in *. split; [done|]. split; [done|]. by exists x.
Qed.

(** The call of the runtime behind a backward task: the environment the
    task leaves is the one [backward] returns. *)
Lemma backward_task_env p p' l :
  Pipeline.backward_task p = Ok p' → Pipeline.loss p = Some l →
  if decide (Z.of_nat (Pipeline.stage (Pipeline.config p))
             ≠ Z.of_nat (Pipeline.partitions (Pipeline.config p)) - 1)%Z
  then
    Pipeline.backward l (Some (Pipeline.ones_like l))
      (if Pipeline.fp16 (Pipeline.config p) then Some true else None) (Pipeline.env p)
    = Ok (Pipeline.env p')
  else
    Pipeline.backward
      (Pipeline.div_chunks l (length (Pipeline.batches (Pipeline.config p)))) None
      (if Pipeline.fp16 (Pipeline.config p) then Some false else None) (Pipeline.env p)
    = Ok (Pipeline.env p').
Proof.
  unfold Pipeline.backward_task.
  intros (p1 & Hb & [= <-])%bind_Ok_inv Hl. rewrite Hl in Hb. simpl. case_decide.
  - cbn [mbind result_mbind result_bind] in Hb. cbn zeta in Hb.
    unfold Pipeline.call_backward in Hb.
    apply bind_Ok_inv in Hb as (e & Hb & [= <-]). simpl. exact Hb.
  - cbn [mbind result_mbind result_bind] in Hb. cbn zeta in Hb.
    apply bind_Ok_inv in Hb as (x & Hx & Hb).
    unfold Pipeline.call_backward in Hb.
    apply bind_Ok_inv in Hb as (e & Hb & [= <-]). simpl. exact Hb.
Qed.

Lemma scaled_losses_app (h1 h2 : list (@Pipeline.Effect Tensor Rng Inputs)) :
  scaled_losses (h1 ++ h2) = scaled_losses h1 ++ scaled_losses h2.
Proof. unfold scaled_losses. apply omap_app. Qed.

Lemma worker_adds_losses task gm inputs p p' :
  Pipeline.worker task gm inputs p = Ok p' → adds_losses p p'.
Proof.
  intros Hw. destruct (decide (task = 0)) as [->|H0]; [|destruct (decide (task = 1)) as [->|H1]].
  - destruct gm.
    + destruct (worker_forward_grad _ _ _ Hw) as (acts & t & out & l & Hh & _ & _ & _ & _ & Hv & Hc).
      eexists _, []. split; [exact Hh|]. split; [constructor|]. done.
    + destruct (worker_forward_no_grad _ _ _ Hw) as (acts & t & Hh & _ & _ & _ & Hv & Hc & _).
      eexists _, []. split; [exact Hh|]. split; [constructor|]. done.
  - destruct (worker_recompute _ _ _ _ Hw)
      as (ctx & acts & t & out & l & _ & Hh & _ & _ & _ & _ & Hv & Hc).
    eexists _, []. split; [exact Hh|]. split; [constructor|]. done.
  - unfold Pipeline.worker in Hw. rewrite !decide_False in Hw by done.
    destruct (backward_task_spec _ _ Hw) as (l & _ & _ & Hc & _ & Hcase).
    case_decide.
    + destruct Hcase as [Hh Hv]. eexists _, []. split; [exact Hh|].
      split; [constructor|]. done.
    + destruct Hcase as (x & Hx & Hh & Hv). eexists _, [x]. split; [exact Hh|].
      split; [by repeat constructor|]. done.
Qed.

Lemma run_loop_adds_losses its : ∀ p p',
  for_each Pipeline.run_step its p = Ok p' → adds_losses p p'.
Proof.
  induction its as [|[index [task idx]] its IH]; intros p p'.
  - intros [= <-]. exists [], []. rewrite app_nil_r. split; [done|].
    split; [constructor|]. done.
  - simpl. intros (p1 & Hstep & Hrest)%bind_Ok_inv.
    destruct (run_step_inv _ _ _ _ _ Hstep)
      as (gm & inputs & pw & pw' & _ & _ & Hw & Hpw & Hhw & _ & Hpw' & Hhw').
    destruct (worker_adds_losses _ _ _ _ _ Hw) as (new1 & xs1 & Hh1 & Hx1 & Hv1 & Hc1).
    destruct (IH _ _ Hrest) as (new2 & xs2 & Hh2 & Hx2 & Hv2 & Hc2).
    destruct Hpw as (Hcw & _ & _ & _ & Hvw). destruct Hpw' as (Hcw' & _ & _ & _ & Hvw').
    exists (new1 ++ new2), (xs1 ++ xs2).
    split. { rewrite Hh2, Hhw', Hh1, Hhw, app_assoc. done. }
    split. { rewrite scaled_losses_app. by apply Forall2_app. }
    split. { rewrite Hv2, Hvw', Hv1, Hvw, foldl_app. done. }
    rewrite Hc2, Hcw', Hc1, Hcw. done.
Qed.

(** C7. In a backward task a stage that is not the last calls [backward]
    on the retained output with a tensor of ones of its size; the last
    stage divides the retained loss by the number of microbatches, adds its
    value to [average_loss], and calls [backward] on the quotient without a
    gradient argument. In both cases the task ends in the environment that
    this call of [backward], made in the environment the task started in,
    returns. [run], started on a new [Pipeline], returns 0 plus the values
    of these quotients in the order of the schedule. *)
Theorem backward_scaling_and_average_loss :
  (∀ p p',
     Pipeline.backward_task p = Ok p' →
     ∃ l, Pipeline.loss p = Some l ∧ Pipeline.loss p' = None ∧
       if decide (Z.of_nat (Pipeline.stage (Pipeline.config p))
                  ≠ Z.of_nat (Pipeline.partitions (Pipeline.config p)) - 1)%Z
       then
         Pipeline.backward l (Some (Pipeline.ones_like l))
           (if Pipeline.fp16 (Pipeline.config p) then Some true else None) (Pipeline.env p)
         = Ok (Pipeline.env p') ∧
         Pipeline.history p'
         = Pipeline.history p ++
           [Pipeline.Backward l (Some (Pipeline.ones_like l))
              (if Pipeline.fp16 (Pipeline.config p) then Some true else None)] ∧
         Pipeline.average_loss p' = Pipeline.average_loss p
       else
         let scaled :=
           Pipeline.div_chunks l (length (Pipeline.batches (Pipeline.config p))) in
         ∃ x, Pipeline.item scaled = Ok x ∧
           Pipeline.backward scaled None
             (if Pipeline.fp16 (Pipeline.config p) then Some false else None) (Pipeline.env p)
           = Ok (Pipeline.env p') ∧
           Pipeline.history p'
           = Pipeline.history p ++
             [Pipeline.Backward scaled None
                (if Pipeline.fp16 (Pipeline.config p) then Some false else None)] ∧
           Pipeline.average_loss p' = Pipeline.num_add (Pipeline.average_loss p) x) ∧
  (∀ task gm inputs p, task ≠ 0 → task ≠ 1 →
     Pipeline.worker task gm inputs p = Pipeline.backward_task p) ∧
  (∀ c t m incoming_acts incoming_grads result p',
     Pipeline.run (Pipeline.new_pipeline c t m incoming_acts incoming_grads)
     = Ok (result, p') →
     ∃ xs,
       Forall2 (λ l x, Pipeline.item l = Ok x) (scaled_losses (Pipeline.history p')) xs ∧
       result = foldl Pipeline.num_add Pipeline.num_zero xs).
Proof.
  split; [|split].
  - intros p p' Hb. destruct (backward_task_spec _ _ Hb) as (l & Hl & Hl' & _ & _ & Hcase).
    pose proof (backward_task_env _ _ l Hb Hl) as Henv.
    exists l. split; [done|]. split; [done|]. case_decide.
    + destruct Hcase as [Hh Hv]. done.
    + destruct Hcase as (x & Hx & Hh & Hv). by exists x.
  - intros task gm inputs p H0 H1. unfold Pipeline.worker. by rewrite !decide_False.
  - intros c t m ia ig result p'. unfold Pipeline.run.
    intros (p1 & Hloop & [= <- <-])%bind_Ok_inv.
    destruct (run_loop_adds_losses _ _ _ Hloop) as (new & xs & Hh & Hx & Hv & _).
    simpl in Hh, Hv. exists xs. rewrite Hh. done.
Qed.

End pipeline_facts.

Lemma unit_model_keeps_grad_mode : @setters_keep_grad_mode nat nat unit _.
Proof. intros arg t m t' m' [[= <- _]|[= <- _]]; reflexivity. Qed.




Lemma backward_scaling_and_average_loss_witness :
  (∃ p1 p2,
     Pipeline.run_step (Pipeline.new_pipeline last_stage_config idle_torch 0 [30; 31] [])
       (0, (0, 0)) = Ok p1 ∧
     Pipeline.loss p1 = Some 19 ∧
     Pipeline.backward_task p1 = Ok p2 ∧
     Pipeline.backward 9 None None (Pipeline.env p1) = Ok (Pipeline.env p2) ∧
     Pipeline.grads_send_queue (Pipeline.env p1) = [] ∧
     Pipeline.grads_send_queue (Pipeline.env p2) = [9] ∧
     Pipeline.average_loss p2 = 9) ∧
  ∃ p', Pipeline.run (Pipeline.new_pipeline last_stage_config idle_torch 0 [30; 31] [])
        = Ok (17, p') ∧
        scaled_losses (Pipeline.history p') = [9; 8] ∧
        Pipeline.grads_send_queue (Pipeline.env p') = [9; 8] ∧
        ∃ xs, Forall2 (λ l x, Pipeline.item l = Ok x) (scaled_losses (Pipeline.history p')) xs ∧
              17 = foldl Pipeline.num_add Pipeline.num_zero xs.
Proof.
  split.
  - destruct (Pipeline.run_step
                (Pipeline.new_pipeline last_stage_config idle_torch 0 [30; 31] [])
                (0, (0, 0))) as [p1| |] eqn:H1; [|by vm_compute in H1..].
    vm_compute in H1. injection H1 as <-.
    match goal with |- ∃ p1 p2, Ok ?p = Ok p1 ∧ _ => set (p1 := p) end.
    destruct (Pipeline.backward_task p1) as [p2| |] eqn:H2; [|by vm_compute in H2..].
    destruct (proj1 backward_scaling_and_average_loss p1 p2 H2)
      as (l & Hl & _ & Hcase).
    injection Hl as <-. destruct Hcase as (x & _ & Hb & _ & Hv).
    exists p1, p2. split; [reflexivity|]. split; [reflexivity|]. split; [exact H2|].
    split; [exact Hb|]. split; [reflexivity|].
    vm_compute in H2. injection H2 as <-. split; reflexivity.
  - eexists. split; [vm_compute; reflexivity|]. split; [reflexivity|].
    split; [reflexivity|].
    refine (proj2 (proj2 backward_scaling_and_average_loss)
              last_stage_config idle_torch 0 [30; 31] [] 17 _ _).
    vm_compute. reflexivity.
Defined.

Lemma pipeline_closures_bound_to_recompute_witness :
  (∃ p', Pipeline.set_model_send_fn false composed_pipeline = Ok p' ∧
     PM.send_fn <$> PM.pre_cp (Pipeline.model (Pipeline.env p'))
     = Some (Some (PMSend (ArgFun (PipeSend false))))) ∧
  (∃ p', Pipeline.set_model_recv_fn false composed_pipeline = Ok (Some 9, p') ∧
     PM.recompute_queue (PM.queues (Pipeline.model (Pipeline.env p'))) = Some [] ∧
     PM.recv_fn <$> PM.pre_cp (Pipeline.model (Pipeline.env p'))
     = Some (Some (PMRecv (Some [40; 41]))) ∧
     cpu_rng (Pipeline.torch (Pipeline.env p')) = 5).
Proof.
  pose proof (pipeline_closures_bound_to_recompute (Value := nat) (Inputs := nat) (Num := nat)
                composed_pipeline false) as ((p' & Hsend & _ & Hpre & _) & _ & _ & _ & Hrecv).
  split.
  - exists p'. split; [exact Hsend|]. exact Hpre.
  - eexists. split; [vm_compute; reflexivity|].
    destruct (Hrecv (Some 9) _ eq_refl) as (ctx & rest & pm_acts & _).
    split; [reflexivity|]. split; reflexivity.
Defined.

(** ** The receive workers *)

Lemma recv_shape_posted shape index chunks last task :
  shape ≠ [] →
  Pipeline.recv_shape (Some shape) index chunks last
  = Ok (posted_shape shape chunks last (task, index)).
Proof.
  intros Hne. unfold Pipeline.recv_shape, posted_shape, py_setitem. simpl.
  assert (0 < length shape) by (destruct shape; [done|simpl; lia]).
  destruct (decide ((Z.of_nat index = Z.of_nat chunks - 1)%Z ∧ 0 < last)) as [[? ?]|Hn].
  - rewrite decide_True by done. rewrite decide_True by lia. done.
  - rewrite decide_False; [done|]. intros [? ?]. apply Hn. lia.
Qed.

Lemma receiver_loop_spec kind shape chunks last sched : ∀ posted,
  shape ≠ [] →
  Pipeline.receiver_loop kind (Some shape) chunks last sched posted
  = let all := posted ++ (posted_shape shape chunks last
                            <$> filter (λ entry, entry.1 = kind) sched) in
    (all, match all with [] => Raise UnboundLocalError | _ => Ok tt end).
Proof.
  induction sched as [|[task index] sched IH]; intros posted Hne.
  - cbn [Pipeline.receiver_loop]. rewrite filter_nil, fmap_nil, app_nil_r. done.
  - cbn [Pipeline.receiver_loop]. rewrite filter_cons. cbn [fst].
    destruct (decide (task = kind)) as [->|Hk].
    + rewrite (recv_shape_posted shape index chunks last kind Hne).
      rewrite IH by done. cbn zeta. rewrite fmap_cons, <- app_assoc. done.
    + by rewrite IH.
Qed.

(** C2, as the code has it. The receive worker for activations posts one
    request per forward task of the schedule, the one for gradients one per
    backward task, each with the configured shape, except for the last
    microbatch when [last_chunk_size] is positive: then the leading
    dimension of the posted shape is [last_chunk_size] and the others are
    those of the configured shape. *)
Theorem receive_shapes {Inputs : Type} (c : @Pipeline.Config Inputs) :
  let chunks := length (Pipeline.batches c) in
  let last := Pipeline.last_chunk_size c in
  (∀ shape, Pipeline.fwd_inp_shape c = Some shape → shape ≠ [] →
     (Pipeline.acts_reciever c).1
     = posted_shape shape chunks last <$> filter (λ entry, entry.1 = 0) (Pipeline.schedule c)) ∧
  (∀ shape, Pipeline.bwd_grad_shape c = Some shape → shape ≠ [] →
     (Pipeline.grads_reciever c).1
     = posted_shape shape chunks last <$> filter (λ entry, entry.1 = 2) (Pipeline.schedule c)) ∧
  (∀ shape task index,
     posted_shape shape chunks last (task, index)
     = if decide (index + 1 = chunks ∧ 0 < last) then <[0 := last]> shape else shape) ∧
  (∀ (shape : list nat) d, shape ≠ [] →
     <[0 := d]> shape !! 0 = Some d ∧ ∀ i, i ≠ 0 → <[0 := d]> shape !! i = shape !! i).
Proof.
  intros chunks last. split; [|split; [|split]].
  - intros shape Hs Hne. unfold Pipeline.acts_reciever. rewrite Hs.
    by rewrite receiver_loop_spec.
  - intros shape Hs Hne. unfold Pipeline.grads_reciever. rewrite Hs.
    by rewrite receiver_loop_spec.
  - done.
  - intros shape d Hne. destruct shape as [|d0 shape]; [done|]. split; [done|].
    intros [|i] Hi; done.
Qed.

Lemma receive_shapes_witness :
  (length <$> Scatter.scatter [("input_ids", [1; 2; 3; 4; 5; 6; 7])] 2) = Ok 4 ∧
  Pipeline.init_last_chunk_size 7 1 2 = Ok 1 ∧
  Pipeline.init_shape [[1; 128; 64]] 2 = Ok [2; 128; 64] ∧
  (Pipeline.acts_reciever remainder_config).1
  = [[2; 128; 64]; [2; 128; 64]; [2; 128; 64]; [1; 128; 64]].
Proof.
  split; [vm_compute; reflexivity|]. split; [reflexivity|]. split; [reflexivity|].
  rewrite (proj1 (receive_shapes remainder_config) [2; 128; 64] eq_refl); [reflexivity|done].
Defined.

(** C2 as stated fails: the posted shape of the remainder has its leading
    dimension set, not its batch-scaling dimension. *)
Lemma remainder_shape_sets_leading_dimension :
  batch_dims [128; 1; 64] [128; 2; 64] = [1] ∧
  Pipeline.init_shape [[128; 1; 64]] 2 = Ok [2; 1; 64] ∧
  last (Pipeline.acts_reciever sequence_first_config).1 = Some [1; 1; 64] ∧
  spec_remainder_shape [128; 1; 64] [1] 1 = [128; 1; 64] ∧
  last (Pipeline.acts_reciever sequence_first_config).1
  ≠ Some (spec_remainder_shape [128; 1; 64] (batch_dims [128; 1; 64] [128; 2; 64]) 1).
Proof.
  split; [vm_compute; reflexivity|]. split; [reflexivity|]. split; [reflexivity|].
  split; [vm_compute; reflexivity|]. vm_compute. discriminate.
Qed.

(** ** [scatter]: the number of microbatches and their keys *)

Section scatter_count.
Context {Row : Type}.
Implicit Types (v : list Row) (mbs : list (gmap string (list Row))).

Lemma put_chunk_length k mbs j c mbs1 :
  j ≤ length mbs → Scatter.put_chunk k mbs (j, c) = Ok mbs1 →
  length mbs1 = length mbs `max` S j.
Proof.
  intros Hj. unfold Scatter.put_chunk. simpl.
  destruct (decide (length mbs ≤ j)) as [Hle|Hgt].
  - assert (j = length mbs) as -> by lia.
    unfold py_index. rewrite lookup_app_r, Nat.sub_diag by lia. simpl.
    intros [= <-]. rewrite length_insert, length_app. simpl. lia.
  - unfold py_index. destruct (mbs !! j) as [mb|] eqn:Hmb; simpl; [|done].
    intros [= <-]. rewrite length_insert. lia.
Qed.

Lemma put_chunks_length k cks : ∀ j mbs mbs',
  j ≤ length mbs →
  for_each (Scatter.put_chunk k) (imap (λ i a, (j + i, a)) cks) mbs = Ok mbs' →
  length mbs' = length mbs `max` (j + length cks).
Proof.
  induction cks as [|c cks IH]; intros j mbs mbs' Hj; simpl.
  - intros [= <-]. lia.
  - rewrite Nat.add_0_r. intros (mbs1 & H1 & Hrest)%bind_Ok_inv.
    pose proof (put_chunk_length _ _ _ _ _ Hj H1) as Hl1.
    rewrite (imap_ext _ (λ i a, (S j + i, a))) in Hrest
      by (intros i x _; simpl; f_equal; lia).
    apply IH in Hrest; [|lia]. lia.
Qed.

Lemma scatter_loop_length cs (input : list (string * list Row)) : ∀ mbs mbs',
  0 < cs →
  for_each (λ microbatches kv,
              chunked_values ← Scatter.tensor_split kv.2 cs;
              for_each (Scatter.put_chunk kv.1) (enumerate chunked_values) microbatches)
           input mbs = Ok mbs' →
  length mbs' =
    length mbs `max` max_list ((λ kv, Scatter.num_splits (length kv.2) cs) <$> input).
Proof.
  induction input as [|[k v] input IH]; intros mbs mbs' Hcs; simpl.
  - intros [= <-]. lia.
  - rewrite tensor_split_pieces by done. simpl.
    intros (mbs1 & H1 & Hrest)%bind_Ok_inv.
    apply (put_chunks_length k (pieces v cs) 0) in H1; [|lia].
    rewrite pieces_length in H1. apply IH in Hrest; [|done]. rewrite Hrest, H1. unfold fmap. lia.
Qed.

End scatter_count.

(** X1. [scatter] makes as many microbatches as the longest tensor has
    pieces, and microbatch [i] holds exactly the names of the tensors that
    have more than [i] pieces: nothing checks that the tensors of a batch
    agree in their leading dimension. *)
Theorem scatter_microbatch_count_and_keys {Row} (input : list (string * list Row))
    (chunk_size : nat) :
  NoDup input.*1 → 0 < chunk_size →
  ∃ microbatches,
    Scatter.scatter input chunk_size = Ok microbatches ∧
    length microbatches
    = max_list ((λ kv, Scatter.num_splits (length kv.2) chunk_size) <$> input) ∧
    ∀ i mb, microbatches !! i = Some mb →
      ∀ k, is_Some (mb !! k) ↔
           ∃ v, (k, v) ∈ input ∧ i < Scatter.num_splits (length v) chunk_size.
Proof.
  intros Hnd Hcs.
  destruct (scatter_loop chunk_size input [] (λ _, []) Hcs Hnd) as (mbs & Hrun & Hinv);
    [done| |].
  { intros i k'. unfold slice_at. by rewrite !lookup_nil. }
  exists mbs. split; [exact Hrun|]. split.
  { apply scatter_loop_length in Hrun; [|done]. simpl in Hrun. lia. }
  intros i mb Hmb k. specialize (Hinv i k). unfold slice_at in Hinv.
  rewrite Hmb in Hinv. simpl in Hinv. rewrite Hinv.
  destruct (dict_get k input) as [v|] eqn:Hget.
  - assert ((k, v) ∈ input) as Hin.
    { clear -Hget. induction input as [|[k' v'] input IH]; simpl in Hget; [done|].
      case_decide; simplify_eq; [left|right; by apply IH]. }
    rewrite lookup_lt_is_Some, pieces_length. split.
    + intros Hlt. by exists v.
    + intros (v' & Hin' & Hlt).
      rewrite (dict_get_elem input k v' Hnd Hin') in Hget. by simplify_eq.
  - rewrite lookup_nil. split; [by intros [? ?]|].
    intros (v & Hin & _). by rewrite (dict_get_elem input k v Hnd Hin) in Hget.
Qed.

Lemma scatter_microbatch_count_and_keys_witness :
  ∃ microbatches,
    Scatter.scatter [("ids", [1; 2; 3; 4; 5]); ("mask", [0; 1])] 2 = Ok microbatches ∧
    length microbatches = 3 ∧
    (dom <$> microbatches)
    = [({["ids"; "mask"]} : gset string); {["ids"]}; {["ids"]}].
Proof.
  destruct (scatter_microbatch_count_and_keys
              [("ids", [1; 2; 3; 4; 5]); ("mask", [0; 1])] 2)
    as (mbs & Hrun & Hlen & _).
  - apply (bool_decide_unpack _). vm_compute. reflexivity.
  - lia.
  - exists mbs. split; [exact Hrun|]. split; [exact Hlen|].
    assert (Scatter.scatter [("ids", [1; 2; 3; 4; 5]); ("mask", [0; 1])] 2
            = Ok [ {["ids" := [1; 2]; "mask" := [0; 1]]}; {["ids" := [3; 4]]};
                   {["ids" := [5]]} ]) as E by (vm_compute; reflexivity).
    rewrite E in Hrun. injection Hrun as <-. apply (bool_decide_unpack _). vm_compute. reflexivity.
Defined.

(** ** [PartitionedModel.forward]: the saved context *)

Section forward_context.
Context {Tensor Rng Value Inputs : Type} `{!TensorOps Tensor Rng}.
Variable module_call :
  Inputs → Torch Rng → @PM.State Tensor Rng Value → @PM.ModuleOutcome Tensor Rng Value.
Variable print_error : exn → option exn.

(** X2. [forward] with [save_ctx] and without [handle_comm] never returns:
    [recv_acts] is bound only where the communication is set up, so once
    the module has run the context cannot be built. *)
Theorem forward_save_ctx_without_handle_comm inputs recompute t s :
  (∀ r, PM.forward module_call print_error inputs recompute true false t s ≠ Ok r) ∧
  PM.forward module_call print_error inputs recompute true false t s
  = match PM.forward_try module_call print_error inputs t (PM.clear_recv_fn s) with
    | Ok _ => Raise UnboundLocalError
    | Raise e => Raise e
    | Blocked => Blocked
    end.
Proof.
  unfold PM.forward, PM.forward_setup. simpl.
  destruct (PM.forward_try module_call print_error inputs t (PM.clear_recv_fn s))
    as [[[ret t'] s']| |]; simpl; split; done.
Qed.

(** X3. When [forward] returns, [ret_val] is [None] again; and when a
    context was to be saved, the communication was set up and the pair of
    the generator states as they were on entry and of the received
    activations (copied to the CPU on a stage after the first) is the
    newest entry of the recomputation queue. *)
Theorem forward_resets_ret_val_and_saves_context inputs recompute save_ctx handle_comm
    t s ret t' s' :
  PM.forward module_call print_error inputs recompute save_ctx handle_comm t s
  = Ok (ret, t', s') →
  PM.ret_val s' = None ∧
  (save_ctx = true →
   handle_comm = true ∧
   ∃ acts t1 s1 older,
     PM.set_recv_fn recompute t (PM.set_send_fn recompute s) = Ok (acts, t1, s1) ∧
     PM.recompute_queue (PM.queues s')
     = Some (older ++ [(save_rng_states t,
                        if decide (0 < PM.stage (PM.cfg s'))
                        then map tensor_cpu <$> acts else acts)])).
Proof.
  unfold PM.forward.
  intros ([[recv_acts t1] s1] & Hsetup & Hrest)%bind_Ok_inv.
  apply bind_Ok_inv in Hrest as ([[ret1 t2] s2] & Htry & Hfin).
  unfold PM.forward_finish in Hfin. destruct save_ctx.
  - apply bind_Ok_inv in Hfin as (bound & Hbound & Hfin).
    apply bind_Ok_inv in Hfin as (saved & Hsaved & Hfin).
    apply bind_Ok_inv in Hfin as (older & Hq & [= <- <- <-]).
    split; [done|]. intros _.
    unfold PM.forward_setup in Hsetup. destruct handle_comm.
    + apply bind_Ok_inv in Hsetup as ([[acts t0] s0] & Hrecv & [= <- <- <-]).
      split; [done|]. injection Hbound as <-.
      exists acts, t0, s0, older. split; [exact Hrecv|]. simpl.
      f_equal. f_equal. f_equal. simpl in Hsaved.
      destruct (decide (0 < PM.stage (PM.cfg s2))).
      * destruct acts; by simplify_eq.
      * by simplify_eq.
    + injection Hsetup as <- <- <-. done.
  - injection Hfin as <- <- <-. split; [done|]. done.
Qed.

End forward_context.

Lemma forward_resets_ret_val_and_saves_context_witness :
  ∃ t' s',
    PM.forward echo_module (λ _, None) 3 (ArgBool true) true true idle_torch polling_model
    = Ok (Some 3, t', s') ∧
    PM.ret_val s' = None ∧
    PM.recompute_queue (PM.queues s') = Some [((11, 22), Some [40; 41])] ∧
    save_rng_states t' = (5, 6).
Proof.
  eexists _, _. split; [vm_compute; reflexivity|].
  pose proof (forward_resets_ret_val_and_saves_context echo_module (λ _, None) 3
                (ArgBool true) true true idle_torch polling_model _ _ _ eq_refl)
    as [Hret _].
  split; [exact Hret|]. split; reflexivity.
Defined.

(** ** The closure [send] of [PartitionedModel.set_send_fn] *)

Section send_payload.
Context {Tensor Rng Value : Type} `{!TensorOps Tensor Rng}.
Implicit Types (s : @PM.State Tensor Rng Value).

Lemma the_queue_Ok {A} (q : option (list A)) l : PM.the_queue q = Ok l → q = Some l.
Proof. destruct q; simpl; by intros [= ->]. Qed.

Lemma dummies_length shapes fp (g : Rng) :
  length (PM.dummies (Tensor := Tensor) shapes fp g).1 = length shapes.
Proof.
  revert g. induction shapes as [|shape rest IH]; intros g; simpl; [done|].
  destruct (tensor_rand shape fp g) as [x g1].
  specialize (IH g1). destruct (PM.dummies rest fp g1) as [xs g2]. simpl in *. lia.
Qed.

(** X4. What [send] puts on a queue. For gradients it appends one list
    to [grads_send_queue]; for activations it appends one list to
    [acts_send_queue] unless [recompute] is true, in which case the model
    is left as it is. The list holds the CPU copies of the tensors it was
    given, in order; on a trimmed stage it holds instead one random tensor
    per configured shape (those of the forward inputs for gradients, those
    of the backward gradients for activations), so that what a trimmed
    stage sends does not depend on the tensors it was given. *)
Theorem send_puts_one_list recompute tensor_tuple grads t s t' s' :
  PM.send recompute tensor_tuple grads t s = Ok (t', s') →
  (PM.trimmed (PM.cfg s) = true →
   ∀ other, PM.send recompute other grads t s = Ok (t', s')) ∧
  (PM.trimmed (PM.cfg s) = false → t' = t) ∧
  ∃ sendlist,
    (if PM.trimmed (PM.cfg s)
     then length sendlist
          = length (if grads then PM.forward_input_shapes (PM.cfg s)
                    else PM.backward_grad_shapes (PM.cfg s))
     else sendlist = map tensor_cpu tensor_tuple) ∧
    if grads then
      ∃ l, PM.grads_send_queue (PM.queues s) = Some l ∧
           s' = PM.set_queues_of (PM.with_grads_send_queue (l ++ [sendlist]) (PM.queues s)) s
    else if truthy recompute then s' = s
    else
      ∃ l, PM.acts_send_queue (PM.queues s) = Some l ∧
           s' = PM.set_queues_of (PM.with_acts_send_queue (l ++ [sendlist]) (PM.queues s)) s.
Proof.
  unfold PM.send. intros Hsend. split; [|split].
  - intros Htr other. rewrite <- Hsend. by rewrite Htr.
  - intros Htr. rewrite Htr in Hsend.
    destruct grads; simpl in Hsend.
    + apply bind_Ok_inv in Hsend as (l & _ & [= <- _]). done.
    + destruct (truthy recompute); simpl in Hsend.
      * by injection Hsend as <- _.
      * apply bind_Ok_inv in Hsend as (l & _ & [= <- _]). done.
  - destruct (PM.trimmed (PM.cfg s)).
    + pose proof (dummies_length
        (if negb grads then PM.backward_grad_shapes (PM.cfg s)
         else PM.forward_input_shapes (PM.cfg s)) (PM.fp16 (PM.cfg s)) (cpu_rng t)) as Hlen.
      destruct (PM.dummies _ _ _) as [sendlist g]. simpl in Hlen.
      exists sendlist. split; [by destruct grads|].
      destruct grads; simpl in Hsend.
      * apply bind_Ok_inv in Hsend as (l & Hq & [= _ <-]). exists l. split; [by apply the_queue_Ok|done].
      * destruct (truthy recompute); simpl in Hsend.
        -- by injection Hsend as _ <-.
        -- apply bind_Ok_inv in Hsend as (l & Hq & [= _ <-]). exists l. split; [by apply the_queue_Ok|done].
    + exists (map tensor_cpu tensor_tuple). split; [done|].
      destruct grads; simpl in Hsend.
      * apply bind_Ok_inv in Hsend as (l & Hq & [= _ <-]). exists l. split; [by apply the_queue_Ok|done].
      * destruct (truthy recompute); simpl in Hsend.
        -- by injection Hsend as _ <-.
        -- apply bind_Ok_inv in Hsend as (l & Hq & [= _ <-]). exists l. split; [by apply the_queue_Ok|done].
Qed.

End send_payload.

Lemma send_puts_one_list_witness :
  ∃ t' s',
    PM.send (ArgBool false) [7; 8; 9] false idle_torch trimmed_model = Ok (t', s') ∧
    PM.send (ArgBool false) [] false idle_torch trimmed_model = Ok (t', s') ∧
    PM.acts_send_queue (PM.queues s') = Some [[11; 12]] ∧
    cpu_rng t' = 13.
Proof.
  eexists _, _. split; [vm_compute; reflexivity|].
  pose proof (send_puts_one_list (ArgBool false) [7; 8; 9] false idle_torch trimmed_model
                _ _ eq_refl) as (Hany & _).
  split; [exact (Hany eq_refl [])|]. split; reflexivity.
Defined.

(** ** [Pipeline.run]: what the queues hold afterwards *)

Section run_accounting.
Context {Tensor Rng Inputs Output Num M : Type}.
Context `{!StageModel Tensor Rng M} `{!@Pipeline.Runtime Tensor Rng Inputs Output Num M}.
Implicit Types (p : @Pipeline.Pipe Tensor Rng Inputs Num M).

Lemma count_where_cons {A} (f : A → bool) x l :
  count_where f (x :: l) = (if f x then 1 else 0) + count_where f l.
Proof. unfold count_where. simpl. by destruct (f x). Qed.

Lemma backward_task_queues p p' :
  Pipeline.backward_task p = Ok p' →
  Pipeline.acts_queue p' = Pipeline.acts_queue p ∧
  Pipeline.recompute_queue p' = Pipeline.recompute_queue p ∧
  Pipeline.config p' = Pipeline.config p.
Proof.
  unfold Pipeline.backward_task.
  intros (p1 & Hb & [= <-])%bind_Ok_inv.
  destruct (Pipeline.loss p) as [l|]; [|by case_decide]. simpl. case_decide.
  - cbn [mbind result_mbind result_bind] in Hb. cbn zeta in Hb.
    destruct (call_backward_spec _ _ _ _ _ Hb) as (_ & Hc & Ha & Hq & _). done.
  - cbn [mbind result_mbind result_bind] in Hb. cbn zeta in Hb.
    apply bind_Ok_inv in Hb as (x & Hx & Hb).
    destruct (call_backward_spec _ _ _ _ _ Hb) as (_ & Hc & Ha & Hq & _). done.
Qed.

Lemma worker_forward_acts gm inputs p p' :
  Pipeline.worker 0 gm inputs p = Ok p' →
  if decide (0 < Pipeline.stage (Pipeline.config p)) then
    ∃ a, Pipeline.acts_queue p = a :: Pipeline.acts_queue p'
  else Pipeline.acts_queue p' = Pipeline.acts_queue p.
Proof.
  destruct gm.
  - unfold Pipeline.worker. rewrite decide_True by done. cbn zeta.
    set (p0 := Pipeline.emit (Pipeline.SetGradEnabled true) _).
    intros (p1 & Hsend & Hrest)%bind_Ok_inv.
    apply bind_Ok_inv in Hrest as ([acts p2] & Hrecv & Hrest).
    apply bind_Ok_inv in Hrest as ([output p3] & Hcall & Hrest).
    apply bind_Ok_inv in Hrest as (l & Hfirst & [= <-]).
    destruct (set_model_send_fn_spec _ _ _ Hsend) as (_ & (Hc1 & Ha1 & _) & _).
    destruct (set_model_recv_fn_spec _ _ _ _ Hrecv) as (p1' & Htake & _ & (_ & Ha2 & _) & _).
    destruct (take_acts_spec _ _ _ _ Htake) as (_ & _ & _ & _ & _ & _ & _ & Hacts).
    destruct (call_model_spec _ _ _ _ Hcall) as (_ & (_ & Ha3 & _) & _).
    rewrite Hc1 in Hacts. change (Pipeline.config p0) with (Pipeline.config p) in Hacts.
    simpl. rewrite Ha3, Ha2. case_decide.
    + destruct Hacts as (a & _ & Hq). exists a. rewrite <- Hq, Ha1. done.
    + destruct Hacts as [_ Hq]. rewrite Hq, Ha1. done.
  - intros Hw. destruct (worker_forward_no_grad _ _ _ Hw)
      as (acts & t & _ & _ & _ & _ & _ & _ & Hacts).
    case_decide.
    + destruct Hacts as (a & _ & Hq). by exists a.
    + by destruct Hacts.
Qed.

(** What one round of [run] does to the two queues of the executor. *)
Lemma run_step_queues p it p' :
  Pipeline.run_step p it = Ok p' →
  let sched := Pipeline.schedule (Pipeline.config p) in
  Pipeline.config p' = Pipeline.config p ∧
  length (Pipeline.recompute_queue p) + (if saves_context sched it then 1 else 0)
  = length (Pipeline.recompute_queue p') + (if bool_decide (it.2.1 = 1) then 1 else 0) ∧
  ∃ consumed,
    Pipeline.acts_queue p = consumed ++ Pipeline.acts_queue p' ∧
    length consumed
    = if decide (0 < Pipeline.stage (Pipeline.config p))
      then (if bool_decide (it.2.1 = 0) then 1 else 0) else 0.
Proof.
  destruct it as [index [task idx]]. intros Hstep sched.
  destruct (run_step_inv _ _ _ _ _ Hstep)
    as (gm & inputs & pw & pw' & Hgm & _ & Hw & Hpw & _ & _ & Hpw' & _).
  destruct Hpw as (Hcw & Haw & Hqw & _). destruct Hpw' as (Hcw' & Haw' & Hqw' & _).
  unfold saves_context. cbn [fst snd].
  destruct (decide (task = 0)) as [->|H0]; [|destruct (decide (task = 1)) as [->|H1]].
  - pose proof (worker_forward_acts _ _ _ _ Hw) as Hacts. rewrite Hcw in Hacts.
    rewrite Haw', Hqw', <- Haw, <- Hqw.
    rewrite (bool_decide_eq_true_2 (0 = 0)) by done.
    rewrite (bool_decide_eq_false_2 (0 = 1)) by done. cbn [andb].
    destruct (grad_mode_at_forward sched index) as (Htrue & Hfalse & _).
    assert (Pipeline.config p' = Pipeline.config p ∧
            length (Pipeline.recompute_queue pw) + (if gm then 0 else 1)
            = length (Pipeline.recompute_queue pw')) as [Hc Hq].
    { destruct gm.
      - destruct (worker_forward_grad _ _ _ Hw) as (? & ? & ? & ? & _ & _ & _ & _ & Hq & _ & Hc).
        rewrite Hq, Hcw', Hc, Hcw. split; [done|lia].
      - destruct (worker_forward_no_grad _ _ _ Hw) as (? & ? & _ & _ & Hq & _ & _ & Hc & _).
        rewrite Hq, length_app, Hcw', Hc, Hcw. simpl. split; [done|lia]. }
    split; [exact Hc|]. split.
    + destruct gm.
      * apply Htrue in Hgm as (idx' & Hnext). fold sched. rewrite Hnext. simpl. lia.
      * apply Hfalse in Hgm as (task' & idx' & Hnext & Hne). fold sched. rewrite Hnext.
        simpl. rewrite bool_decide_eq_false_2 by done. simpl. lia.
    + case_decide.
      * destruct Hacts as (a & Ha). exists [a]. split; [by rewrite Ha|done].
      * exists []. split; [by rewrite Hacts|done].
  - destruct (worker_recompute _ _ _ _ Hw)
      as (ctx & acts & ? & ? & ? & Hq & _ & _ & _ & _ & Ha & _ & Hc).
    rewrite (bool_decide_eq_false_2 (1 = 0)) by done.
    rewrite (bool_decide_eq_true_2 (1 = 1)) by done. cbn [andb].
    split; [by rewrite Hcw', Hc, Hcw|]. split.
    + rewrite Hqw', <- Hqw, Hq. simpl. lia.
    + exists []. rewrite Haw', Ha, Haw. split; [done|]. by case_decide.
  - unfold Pipeline.worker in Hw. rewrite !decide_False in Hw by done.
    destruct (backward_task_queues _ _ Hw) as (Ha & Hq & Hc).
    rewrite (bool_decide_eq_false_2 (task = 0)) by done.
    rewrite (bool_decide_eq_false_2 (task = 1)) by done. cbn [andb].
    split; [by rewrite Hcw', Hc, Hcw|]. split.
    + rewrite Hqw', Hq, Hqw. lia.
    + exists []. rewrite Haw', Ha, Haw. split; [done|]. by case_decide.
Qed.

Lemma run_loop_queues its : ∀ p p',
  for_each Pipeline.run_step its p = Ok p' →
  let sched := Pipeline.schedule (Pipeline.config p) in
  Pipeline.config p' = Pipeline.config p ∧
  length (Pipeline.recompute_queue p) + count_where (saves_context sched) its
  = length (Pipeline.recompute_queue p') + count_where (λ it, bool_decide (it.2.1 = 1)) its ∧
  ∃ consumed,
    Pipeline.acts_queue p = consumed ++ Pipeline.acts_queue p' ∧
    length consumed
    = if decide (0 < Pipeline.stage (Pipeline.config p))
      then count_where (λ it, bool_decide (it.2.1 = 0)) its else 0.
Proof.
  induction its as [|it its IH]; intros p p'.
  - intros [= <-]. simpl. split; [done|]. split; [done|]. exists []. split; [done|].
    by case_decide.
  - simpl. intros (p1 & Hstep & Hrest)%bind_Ok_inv.
    destruct (run_step_queues _ _ _ Hstep) as (Hc1 & Hq1 & consumed1 & Ha1 & Hl1).
    destruct (IH _ _ Hrest) as (Hc2 & Hq2 & consumed2 & Ha2 & Hl2).
    rewrite Hc1 in Hq2, Hl2. rewrite !count_where_cons.
    split; [by rewrite Hc2|]. split; [simpl in *; lia|].
    exists (consumed1 ++ consumed2). split; [by rewrite Ha1, Ha2, app_assoc|].
    rewrite length_app, Hl1, Hl2. by case_decide.
Qed.

(** X5. What [run] leaves on the queues when it returns. Every forward
    task that is to be recomputed adds one context to the recomputation
    queue and every recomputation takes one, so the contexts present
    before plus the forwards to be recomputed are the contexts left plus
    the recomputations; and on a stage after the first every forward task,
    and nothing else, has taken one activation from the front of the
    receive queue. *)
Theorem run_queue_accounting p result p' :
  Pipeline.run p = Ok (result, p') →
  let sched := Pipeline.schedule (Pipeline.config p) in
  length (Pipeline.recompute_queue p)
    + count_where (saves_context sched) (enumerate sched)
  = length (Pipeline.recompute_queue p')
    + count_where (λ it, bool_decide (it.2.1 = 1)) (enumerate sched) ∧
  ∃ consumed,
    Pipeline.acts_queue p = consumed ++ Pipeline.acts_queue p' ∧
    length consumed
    = if decide (0 < Pipeline.stage (Pipeline.config p))
      then count_where (λ it, bool_decide (it.2.1 = 0)) (enumerate sched) else 0.
Proof.
  intros Hrun sched. unfold Pipeline.run in Hrun.
  apply bind_Ok_inv in Hrun as (p1 & Hloop & [= _ <-]).
  destruct (run_loop_queues _ _ _ Hloop) as (_ & Hq & Ha). split; [exact Hq|exact Ha].
Qed.

(** X6. A schedule whose last entry is a forward task is never completed:
    the tasks before it are executed, and the gradient mode of the last
    one needs the entry after it. *)
Theorem run_never_completes_trailing_forward p idx :
  last (Pipeline.schedule (Pipeline.config p)) = Some (0, idx) →
  (∀ r, Pipeline.run p ≠ Ok r) ∧
  ∀ p1,
    for_each Pipeline.run_step
      (enumerate (removelast (Pipeline.schedule (Pipeline.config p)))) p = Ok p1 →
    Pipeline.run p = Raise IndexError.
Proof.
  intros Hlast.
  assert (∃ init, Pipeline.schedule (Pipeline.config p) = init ++ [(0, idx)]) as [init Hs].
  { destruct (Pipeline.schedule (Pipeline.config p)) as [|x l] using rev_ind; [done|].
    rewrite last_snoc in Hlast. injection Hlast as ->. by exists l. }
  assert (∀ p1, for_each Pipeline.run_step (enumerate init) p = Ok p1 →
                Pipeline.run_step p1 (length init, (0, idx)) = Raise IndexError) as Hend.
  { intros p1 Hinit. destruct (run_loop_queues _ _ _ Hinit) as (Hc & _).
    unfold Pipeline.run_step.
    destruct (grad_mode_at_forward (Pipeline.schedule (Pipeline.config p1)) (length init))
      as (_ & _ & Hidx).
    cbn [fst snd]. rewrite (proj2 Hidx); [done|].
    rewrite Hc, Hs. apply lookup_ge_None_2. rewrite length_app. simpl. lia. }
  assert (Pipeline.run p
          = for_each Pipeline.run_step (enumerate init) p
            ≫= λ p1, Pipeline.run_step p1 (length init, (0, idx))
            ≫= λ p2, Ok (Pipeline.average_loss p2, p2)) as Hrun.
  { unfold Pipeline.run. rewrite Hs. rewrite for_each_enumerate_snoc.
    by destruct (for_each Pipeline.run_step (enumerate init) p) as [p1| |]. }
  split.
  - intros r. rewrite Hrun.
    destruct (for_each Pipeline.run_step (enumerate init) p) as [p1| |] eqn:Hinit; [|done..].
    cbn [mbind result_mbind result_bind]. by rewrite (Hend p1 eq_refl).
  - intros p1. rewrite Hs, removelast_last. intros Hinit.
    rewrite Hrun, Hinit. cbn [mbind result_mbind result_bind].
    by rewrite (Hend p1 Hinit).
Qed.

End run_accounting.

Lemma run_queue_accounting_witness :
  ∃ result p',
    Pipeline.run (Pipeline.new_pipeline recomputing_config idle_torch tt [] [1; 1])
    = Ok (result, p') ∧
    count_where (saves_context (Pipeline.schedule recomputing_config))
      (enumerate (Pipeline.schedule recomputing_config)) = 1 ∧
    length (Pipeline.recompute_queue p') = 0.
Proof.
  destruct (Pipeline.run (Pipeline.new_pipeline recomputing_config idle_torch tt [] [1; 1]))
    as [[result p']| |] eqn:Hrun; [|by vm_compute in Hrun..].
  exists result, p'. split; [done|]. split; [reflexivity|].
  destruct (run_queue_accounting _ _ _ Hrun) as [Hq _].
  change (0 + 1 = length (Pipeline.recompute_queue p') + 1) in Hq. lia.
Defined.

Lemma run_never_completes_trailing_forward_witness :
  Pipeline.run (Pipeline.new_pipeline trailing_forward_config idle_torch tt [] [1; 1])
  = Raise IndexError.
Proof.
  refine (proj2 (run_never_completes_trailing_forward
                   (Pipeline.new_pipeline trailing_forward_config idle_torch tt [] [1; 1])
                   1 eq_refl) _ _).
  vm_compute. reflexivity.
Defined.

(** ** [dry_run]: the dictionaries it returns *)

Lemma dict_get_is_Some {V} (d : list (string * V)) k :
  is_Some (dict_get k d) ↔ k ∈ d.*1.
Proof.
  induction d as [|[k' v'] d IH]; simpl.
  - split; [by intros [? ?]|by intros ?%elem_of_nil].
  - destruct (decide (k = k')) as [->|Hne].
    + split; [intros _; left|by eexists].
    + rewrite IH. split; [by right|]. by intros [?|?]%elem_of_cons.
Qed.

Lemma hook_keys calls : ∀ h,
  NoDup (DryRun.ordered_modules h).*1 →
  NoDup (DryRun.input_gradients h).*1 →
  (DryRun.input_gradients h).*1 ⊆ (DryRun.ordered_modules h).*1 →
  let h' := foldl DryRun.add_module_hook h calls in
  NoDup (DryRun.ordered_modules h').*1 ∧
  NoDup (DryRun.input_gradients h').*1 ∧
  (DryRun.input_gradients h').*1 ⊆ (DryRun.ordered_modules h').*1 ∧
  (DryRun.input_gradients h).*1 `prefix_of` (DryRun.input_gradients h').*1.
Proof.
  induction calls as [|c calls IH]; intros h Hom Hg Hsub; simpl.
  - done.
  - set (h1 := DryRun.add_module_hook h c).
    assert (NoDup (DryRun.ordered_modules h1).*1 ∧
            DryRun.hc_name c ∈ (DryRun.ordered_modules h1).*1 ∧
            (DryRun.ordered_modules h).*1 ⊆ (DryRun.ordered_modules h1).*1) as (Hom1 & Hin1 & Hmono).
    { assert (DryRun.ordered_modules h1
              = match dict_get (DryRun.hc_name c) (DryRun.ordered_modules h) with
                | None => DryRun.ordered_modules h
                          ++ [(DryRun.hc_name c, DryRun.hc_is_cutpoint c)]
                | Some _ => DryRun.ordered_modules h
                end) as ->.
      { unfold h1, DryRun.add_module_hook. by destruct (DryRun.hc_is_cutpoint c). }
      destruct (dict_get (DryRun.hc_name c) (DryRun.ordered_modules h)) as [b|] eqn:Hget.
      - split; [done|]. split; [|done]. apply dict_get_is_Some. by rewrite Hget.
      - assert (DryRun.hc_name c ∉ (DryRun.ordered_modules h).*1) as Hnin.
        { rewrite <- dict_get_is_Some, Hget. by intros [? ?]. }
        rewrite fmap_app. simpl. split.
        + apply NoDup_app. split; [done|]. split; [|apply NoDup_singleton].
          intros x Hx ->%list_elem_of_singleton. done.
        + split; [apply elem_of_app; right; left|].
          intros x Hx. apply elem_of_app. by left. }
    assert (NoDup (DryRun.input_gradients h1).*1 ∧
            (DryRun.input_gradients h1).*1 ⊆ (DryRun.ordered_modules h1).*1 ∧
            (DryRun.input_gradients h).*1 `prefix_of` (DryRun.input_gradients h1).*1)
      as (Hg1 & Hsub1 & Hpre1).
    { assert (DryRun.input_gradients h1
              = if DryRun.hc_is_cutpoint c
                then dict_set (DryRun.hc_name c) (snd <$> DryRun.hc_inputs c)
                       (DryRun.input_gradients h)
                else DryRun.input_gradients h) as ->.
      { unfold h1, DryRun.add_module_hook. by destruct (DryRun.hc_is_cutpoint c). }
      destruct (DryRun.hc_is_cutpoint c).
      - split; [by apply dict_set_NoDup|]. rewrite dict_set_keys. case_decide.
        + split; [by etrans|done].
        + split; [|by eexists]. intros x [Hx|Hx%list_elem_of_singleton]%elem_of_app.
          * by apply Hmono, Hsub.
          * by subst x.
      - split; [done|]. split; [by etrans|done]. }
    destruct (IH h1 Hom1 Hg1 Hsub1) as (H1 & H2 & H3 & H4).
    split; [done|]. split; [done|]. split; [done|]. by etrans.
Qed.

Lemma hook_same_keys calls : ∀ h,
  (DryRun.input_shapes h).*1 = (DryRun.input_gradients h).*1 →
  let h' := foldl DryRun.add_module_hook h calls in
  (DryRun.input_shapes h').*1 = (DryRun.input_gradients h').*1.
Proof.
  induction calls as [|c calls IH]; intros h Heq; simpl; [done|].
  apply IH. unfold DryRun.add_module_hook.
  destruct (DryRun.hc_is_cutpoint c); simpl; [|done].
  by rewrite !dict_set_keys, Heq.
Qed.

Lemma hook_fired_cutpoints calls : ∀ h name,
  name ∈ (DryRun.input_shapes (foldl DryRun.add_module_hook h calls)).*1 →
  name ∈ (DryRun.input_shapes h).*1 ∨
  ∃ c, c ∈ calls ∧ DryRun.hc_name c = name ∧ DryRun.hc_is_cutpoint c = true.
Proof.
  induction calls as [|c calls IH]; intros h name; simpl; [by left|].
  intros [Hin|(c' & Hc' & Hn & Hcp)]%IH.
  - unfold DryRun.add_module_hook in Hin.
    destruct (DryRun.hc_is_cutpoint c) eqn:Hcp; simpl in Hin; [|by left].
    rewrite dict_set_keys in Hin. case_decide; [by left|].
    apply elem_of_app in Hin as [?|Hin%list_elem_of_singleton]; [by left|]. subst name.
    right. exists c. split; [left|done].
  - right. exists c'. split; [by right|done].
Qed.

Lemma cutpoint_loop_keys trace_2 trace_1 : ∀ acc out,
  NoDup (acc.*1 ++ trace_1.*1) →
  for_each (cutpoint_round trace_2) trace_1 acc = Ok out →
  out.*1 = acc.*1 ++ trace_1.*1.
Proof.
  induction trace_1 as [|[n shapes_1] trace_1 IH]; intros acc out Hnd.
  - intros [= <-]. by rewrite app_nil_r.
  - rewrite cutpoint_loop_cons. intros (ixs & _ & Hrest)%bind_Ok_inv.
    simpl in Hnd. apply IH in Hrest.
    + rewrite Hrest, dict_set_keys. rewrite decide_False; [by rewrite <- app_assoc|].
      intros Hin. apply NoDup_app in Hnd as (_ & Hdisj & _).
      apply (Hdisj n Hin). left.
    + rewrite dict_set_keys. rewrite decide_False; [by rewrite <- app_assoc|].
      intros Hin. apply NoDup_app in Hnd as (_ & Hdisj & _).
      apply (Hdisj n Hin). left.
Qed.

(** X7. The dictionaries [dry_run] returns fit together. No name occurs
    twice in the module order; [shape_indices_to_change] has the keys of
    [input_shapes] in the same order; the keys of [input_shapes] (the
    markers that fired in the first run) are the first keys of
    [input_gradients] (those that fired in either run); and every key is
    the name of a module in the module order. Where every firing hook
    belongs to a registered module, [num_cutpoints], which counts the
    registered markers, is at least the number of keys of
    [input_shapes]. *)
Theorem dry_run_dictionaries_agree named_modules model_run out :
  DryRun.dry_run named_modules model_run = Ok out →
  NoDup (DryRun.out_ordered_modules out).*1 ∧
  NoDup (DryRun.out_input_gradients out).*1 ∧
  (DryRun.out_shape_indices_to_change out).*1 = (DryRun.out_input_shapes out).*1 ∧
  (DryRun.out_input_shapes out).*1 `prefix_of` (DryRun.out_input_gradients out).*1 ∧
  (DryRun.out_input_gradients out).*1 ⊆ (DryRun.out_ordered_modules out).*1 ∧
  (NoDup named_modules.*1 →
   (∀ n calls c, model_run n = Ok calls → c ∈ calls →
      DryRun.hc_name c ≠ "" ∧
      (DryRun.hc_name c, DryRun.hc_is_cutpoint c) ∈ named_modules) →
   length (DryRun.out_input_shapes out) ≤ DryRun.out_num_cutpoints out).
Proof.
  unfold DryRun.dry_run. intros (calls_1 & Hrun1 & Hrest)%bind_Ok_inv.
  apply bind_Ok_inv in Hrest as (calls_2 & Hrun2 & Hrest).
  apply bind_Ok_inv in Hrest as (ixs & Hixs & [= <-]). cbn.
  set (h0 := {| DryRun.ordered_modules := []; DryRun.input_shapes := [];
                DryRun.input_gradients := [] |}) in *.
  set (h1 := foldl DryRun.add_module_hook h0 calls_1) in *.
  destruct (hook_keys calls_1 h0) as (Hom1 & Hg1 & Hsub1 & _);
    [apply NoDup_nil_2|apply NoDup_nil_2|done|]. fold h1 in Hom1, Hg1, Hsub1.
  pose proof (hook_same_keys calls_1 h0 eq_refl) as Hsame. cbn zeta in Hsame. fold h1 in Hsame.
  set (h1' := {| DryRun.ordered_modules := DryRun.ordered_modules h1;
                 DryRun.input_shapes := [];
                 DryRun.input_gradients := DryRun.input_gradients h1 |}) in *.
  destruct (hook_keys calls_2 h1') as (Hom2 & Hg2 & Hsub2 & Hpre2); [done..|].
  cbn zeta in Hom2, Hg2, Hsub2, Hpre2.
  split; [done|]. split; [done|]. split.
  { apply (cutpoint_loop_keys _ _ [] ixs) in Hixs; [done|]. simpl. rewrite Hsame. done. }
  split. { rewrite Hsame. exact Hpre2. }
  split; [done|].
  intros Hnd Hall. rewrite <- (length_fmap fst (DryRun.input_shapes h1)).
  rewrite <- (length_fmap fst (filter _ (filter _ named_modules))).
  apply submseteq_length, NoDup_submseteq; [by rewrite Hsame|].
  intros name Hin. apply hook_fired_cutpoints in Hin as [Hin|(c & Hc & <- & Hcp)].
  { by apply elem_of_nil in Hin. }
  destruct (Hall 1 calls_1 c Hrun1 Hc) as [Hne Hreg]. rewrite Hcp in Hreg.
  apply list_elem_of_fmap. exists (DryRun.hc_name c, true). split; [done|].
  apply list_elem_of_filter. split; [done|]. apply list_elem_of_filter. done.
Qed.

Lemma dry_run_dictionaries_agree_witness :
  ∃ out, DryRun.dry_run [("", false); ("embed", false); ("cut1", true)] sample_run = Ok out ∧
         (DryRun.out_ordered_modules out).*1 = ["embed"; "cut1"] ∧
         (DryRun.out_input_gradients out).*1 = ["cut1"] ∧
         length (DryRun.out_input_shapes out) ≤ DryRun.out_num_cutpoints out.
Proof.
  eexists. split; [vm_compute; reflexivity|]. split; [reflexivity|]. split; [reflexivity|].
  refine (proj2 (proj2 (proj2 (proj2 (proj2 (dry_run_dictionaries_agree
            [("", false); ("embed", false); ("cut1", true)] sample_run _ eq_refl))))) _ _).
  - apply (bool_decide_unpack _). vm_compute. reflexivity.
  - intros n calls c [= <-] Hc.
    apply elem_of_cons in Hc as [->|Hc]; [split; [done|]; simpl; right; left|].
    apply list_elem_of_singleton in Hc as ->. split; [done|]. simpl. right. right. left.
Defined.

(** ** The stage of a process *)

Lemma find_rank_spec rank ranks : ∀ i,
  match Varuna.find_rank rank ranks i with
  | Some j => i ≤ j ∧ ranks !! (j - i) = Some rank ∧
              ∀ k, k < j - i → ranks !! k ≠ Some rank
  | None => rank ∉ ranks
  end.
Proof.
  induction ranks as [|r ranks IH]; intros i; simpl.
  - apply not_elem_of_nil.
  - destruct (decide (r = rank)) as [->|Hne].
    + split; [lia|]. rewrite Nat.sub_diag. split; [done|]. intros k Hk. lia.
    + specialize (IH (i + 1)). destruct (Varuna.find_rank rank ranks (i + 1)) as [j|].
      * destruct IH as (Hij & Hj & Hfirst). split; [lia|].
        replace (j - i) with (S (j - (i + 1))) by lia. split; [done|].
        intros [|k] Hk; simpl; [congruence|]. apply Hfirst. lia.
      * intros [?|?]%elem_of_cons; [congruence|done].
Qed.

Lemma varuna_init_stage_app m1 stage ranks m2 rank :
  rank ∈ ranks →
  (∀ kv, kv ∈ m2 → rank ∉ kv.2) →
  ∃ i, Varuna.init_stage (m1 ++ (stage, ranks) :: m2) rank = Ok (stage, i, length ranks) ∧
       ranks !! i = Some rank ∧ ∀ k, k < i → ranks !! k ≠ Some rank.
Proof.
  intros Hin Hlater. unfold Varuna.init_stage. rewrite foldl_app. simpl.
  pose proof (find_rank_spec rank ranks 0) as Hfind.
  destruct (Varuna.find_rank rank ranks 0) as [i|]; [|done].
  destruct Hfind as (_ & Hi & Hfirst). rewrite Nat.sub_0_r in Hi, Hfirst.
  exists i. split; [|done].
  induction m2 as [|[stage' ranks'] m2 IH] using rev_ind; [done|].
  rewrite foldl_app. simpl.
  pose proof (find_rank_spec rank ranks' 0) as Hfind'.
  destruct (Varuna.find_rank rank ranks' 0) as [j|].
  - destruct Hfind' as (_ & Hj & _). exfalso.
    apply (Hlater (stage', ranks')); [apply elem_of_app; right; left|].
    simpl. by eapply list_elem_of_lookup_2.
  - apply IH. intros kv Hkv. apply Hlater, elem_of_app. by left.
Qed.

Lemma pm_init_stage_app m1 stage ranks m2 rank :
  rank ∈ ranks →
  (∀ kv, kv ∈ m1 → rank ∉ kv.2) →
  PMInit.init_stage (m1 ++ (stage, ranks) :: m2) rank = Ok stage.
Proof.
  intros Hin Hearlier. induction m1 as [|[stage' ranks'] m1 IH]; simpl.
  - by rewrite decide_True.
  - rewrite decide_False; [|apply (Hearlier (stage', ranks')); left].
    apply IH. intros kv Hkv. apply Hearlier. by right.
Qed.

(** X8. [Varuna.__init__] settles on the last stage of the map that lists
    the rank, with the position of the rank's first occurrence in that
    stage's list and the length of the list; [PartitionedModel.__init__]
    settles on the first stage that lists it. They agree on a rank that
    one stage only lists. *)
Theorem init_stage_last_and_first (m1 m2 : Varuna.RankMap) stage ranks rank :
  rank ∈ ranks →
  ((∀ kv, kv ∈ m2 → rank ∉ kv.2) →
   ∃ i, Varuna.init_stage (m1 ++ (stage, ranks) :: m2) rank = Ok (stage, i, length ranks) ∧
        ranks !! i = Some rank ∧ ∀ k, k < i → ranks !! k ≠ Some rank) ∧
  ((∀ kv, kv ∈ m1 → rank ∉ kv.2) →
   PMInit.init_stage (m1 ++ (stage, ranks) :: m2) rank = Ok stage) ∧
  ((∀ kv, kv ∈ m1 ++ m2 → rank ∉ kv.2) →
   (λ r, r.1.1) <$> Varuna.init_stage (m1 ++ (stage, ranks) :: m2) rank
   = PMInit.init_stage (m1 ++ (stage, ranks) :: m2) rank).
Proof.
  intros Hin. split; [|split].
  - by apply varuna_init_stage_app.
  - by apply pm_init_stage_app.
  - intros Hother.
    destruct (varuna_init_stage_app m1 stage ranks m2 rank Hin) as (i & -> & _).
    { intros kv Hkv. apply Hother, elem_of_app. by right. }
    rewrite pm_init_stage_app; [done..|].
    intros kv Hkv. apply Hother, elem_of_app. by left.
Qed.

Lemma init_stage_last_and_first_witness :
  (∃ i, Varuna.init_stage two_by_two 3 = Ok (1, i, 2)) ∧
  PMInit.init_stage two_by_two 3 = Ok 1 ∧
  (∃ i, Varuna.init_stage overlapping_map 1 = Ok (1, i, 2)) ∧
  PMInit.init_stage overlapping_map 1 = Ok 0.
Proof.
  destruct (init_stage_last_and_first [(0, [0; 1])] [] 1 [2; 3] 3) as (Hv & Hp & _).
  { apply (bool_decide_unpack _). vm_compute. reflexivity. }
  destruct (init_stage_last_and_first [(0, [0; 1])] [] 1 [1; 2] 1) as (Hv' & _ & _).
  { apply (bool_decide_unpack _). vm_compute. reflexivity. }
  destruct (init_stage_last_and_first [] [(1, [1; 2])] 0 [0; 1] 1) as (_ & Hp' & _).
  { apply (bool_decide_unpack _). vm_compute. reflexivity. }
  split; [|split; [|split]].
  - destruct Hv as (i & Hi & _); [by intros kv ?%elem_of_nil|]. by exists i.
  - apply Hp. intros kv Hkv%list_elem_of_singleton. subst kv. simpl.
    apply (bool_decide_unpack _). vm_compute. reflexivity.
  - destruct Hv' as (i & Hi & _); [by intros kv ?%elem_of_nil|]. by exists i.
  - apply Hp'. by intros kv ?%elem_of_nil.
Defined.

Lemma varuna_search_None (m : Varuna.RankMap) rank :
  foldl (λ found kv,
           match Varuna.find_rank rank kv.2 0 with
           | Some i => Some (kv.1, i, length kv.2)
           | None => found
           end) None m = None
  ↔ ∀ kv, kv ∈ m → rank ∉ kv.2.
Proof.
  induction m as [|[stage ranks] m IH] using rev_ind.
  - split; [|done]. by intros _ kv ?%elem_of_nil.
  - rewrite foldl_app. simpl.
    pose proof (find_rank_spec rank ranks 0) as Hfind.
    destruct (Varuna.find_rank rank ranks 0) as [j|].
    + destruct Hfind as (_ & Hj & _). split; [done|]. intros Hno. exfalso.
      apply (Hno (stage, ranks)); [apply elem_of_app; right; left|].
      simpl. by eapply list_elem_of_lookup_2.
    + rewrite IH. split.
      * intros Hno kv [Hkv|Hkv]%elem_of_app; [by apply Hno|].
        apply list_elem_of_singleton in Hkv. by subst kv.
      * intros Hno kv Hkv. apply Hno, elem_of_app. by left.
Qed.

(** X9. A rank that no stage lists: [Varuna.__init__] raises [ValueError],
    and raises it for no other rank; [PartitionedModel.__init__] fails
    while it builds the message of its own [ValueError], with a
    [TypeError], and fails for no other rank. *)
Theorem init_stage_unlisted_rank (m : Varuna.RankMap) rank :
  (Varuna.init_stage m rank = Raise ValueError ↔ ∀ kv, kv ∈ m → rank ∉ kv.2) ∧
  (PMInit.init_stage m rank = Raise TypeError ↔ ∀ kv, kv ∈ m → rank ∉ kv.2) ∧
  (is_Ok (Varuna.init_stage m rank) = is_Ok (PMInit.init_stage m rank)).
Proof.
  assert (PMInit.init_stage m rank = Raise TypeError ↔ ∀ kv, kv ∈ m → rank ∉ kv.2) as Hpm.
  { induction m as [|[stage ranks] m IH]; simpl.
    - split; [|done]. by intros _ kv ?%elem_of_nil.
    - destruct (decide (rank ∈ ranks)) as [Hin|Hnin].
      + split; [done|]. intros Hno. exfalso. apply (Hno (stage, ranks)); [left|done].
      + rewrite IH. split.
        * intros Hno kv [->|Hkv]%elem_of_cons; [done|by apply Hno].
        * intros Hno kv Hkv. apply Hno. by right. }
  assert (Varuna.init_stage m rank = Raise ValueError ↔ ∀ kv, kv ∈ m → rank ∉ kv.2) as Hv.
  { rewrite <- varuna_search_None. unfold Varuna.init_stage.
    destruct (foldl _ None m); split; done. }
  split; [exact Hv|]. split; [exact Hpm|].
  assert (∀ m', is_Ok (PMInit.init_stage m' rank) = false →
                PMInit.init_stage m' rank = Raise TypeError) as Hcases.
  { induction m' as [|[s rs] m' IH]; simpl; [done|]. case_decide; [done|apply IH]. }
  destruct (Varuna.init_stage m rank) as [r|e|] eqn:Hvar.
  - destruct (is_Ok (PMInit.init_stage m rank)) eqn:E; [done|].
    apply Hcases in E. pose proof (proj2 Hv (proj1 Hpm E)). done.
  - assert (e = ValueError) as ->.
    { unfold Varuna.init_stage in Hvar. destruct (foldl _ None m); by simplify_eq. }
    by rewrite (proj2 Hpm (proj1 Hv eq_refl)).
  - unfold Varuna.init_stage in Hvar. by destruct (foldl _ None m).
Qed.

(** ** [init_communication] and the transfer threads *)

Lemma init_shape_spec shapes micro_batch_size shape :
  Pipeline.init_shape shapes micro_batch_size = Ok shape →
  ∃ traced, shapes !! 0 = Some traced ∧ traced ≠ [] ∧
            shape = <[0 := micro_batch_size]> traced.
Proof.
  unfold Pipeline.init_shape, py_index, py_setitem.
  destruct (shapes !! 0) as [traced|]; simpl; [|done].
  case_decide as Hlen; [|done]. intros [= <-]. exists traced. split; [done|].
  split; [|done]. intros ->. simpl in Hlen. lia.
Qed.

Lemma rank_at_nat (m : Varuna.RankMap) (stage i : nat) :
  Varuna.rank_at m (Z.of_nat stage) i
  = match Varuna.map_get stage m with
    | Some ranks => py_index ranks i
    | None => Raise (KeyError (pretty (Z.of_nat stage)))
    end.
Proof. unfold Varuna.rank_at. rewrite decide_True by lia. by rewrite Nat2Z.id. Qed.

(** X10. A transfer thread is started exactly where [init_communication]
    set what the thread reads: the activation receiver and the gradient
    sender on every stage but the first, where [recieve_rank] and
    [fwd_inp_shape] are set; the gradient receiver and the activation
    sender on every stage but the last, where [send_rank] and
    [bwd_grad_shape] are set. A shape that is set is the first traced
    shape of the boundary with its leading dimension replaced by the
    microbatch size, and the model's own list of shapes holds it from then
    on in the place of the traced one. *)
Theorem init_communication_matches_threads {Inputs : Type} (m : Varuna.RankMap)
    stage rank_within_stage micro_batch_size forward_input_shapes backward_grad_shapes
    comm fp16 last_chunk_size (batches : list Inputs) schedule c :
  Varuna.init_communication m stage rank_within_stage micro_batch_size
    forward_input_shapes backward_grad_shapes = Ok comm →
  Varuna.pipeline_config m stage fp16 comm last_chunk_size batches schedule = Ok c →
  let after_first := bool_decide (0 < stage) in
  let before_last := bool_decide (stage + 1 < length m) in
  Threads.spawn_recieve_workers c = (after_first, before_last) ∧
  Threads.spawn_send_workers c = (before_last, after_first) ∧
  (is_Some (Varuna.recieve_rank (Varuna.ranks comm)) ↔ 0 < stage) ∧
  (is_Some (Pipeline.fwd_inp_shape c) ↔ 0 < stage) ∧
  (is_Some (Varuna.send_rank (Varuna.ranks comm)) ↔ stage + 1 < length m) ∧
  (is_Some (Pipeline.bwd_grad_shape c) ↔ stage + 1 < length m) ∧
  (∀ shape, Pipeline.fwd_inp_shape c = Some shape →
     ∃ traced, forward_input_shapes !! 0 = Some traced ∧ traced ≠ [] ∧
       shape = <[0 := micro_batch_size]> traced ∧
       Varuna.model_forward_input_shapes comm = <[0 := shape]> forward_input_shapes) ∧
  (∀ shape, Pipeline.bwd_grad_shape c = Some shape →
     ∃ traced, backward_grad_shapes !! 0 = Some traced ∧ traced ≠ [] ∧
       shape = <[0 := micro_batch_size]> traced ∧
       Varuna.model_backward_grad_shapes comm = <[0 := shape]> backward_grad_shapes).
Proof.
  intros Hcomm Hcfg after_first before_last.
  unfold Varuna.init_communication in Hcomm. unfold Varuna.pipeline_config in Hcfg.
  apply bind_Ok_inv in Hcomm as (rs & Hrs & Hrest).
  apply bind_Ok_inv in Hcfg as (ranks & _ & [= <-]).
  apply bind_Ok_inv in Hrest as ([fwd fis] & Hfwd & Hrest).
  apply bind_Ok_inv in Hrest as ([bwd bgs] & Hbwd & [= <-]).
  unfold Varuna.init_ranks in Hrs.
  apply bind_Ok_inv in Hrs as (er & _ & Hrs). apply bind_Ok_inv in Hrs as (es & _ & Hrs).
  apply bind_Ok_inv in Hrs as (sr & Hsr & Hrs). apply bind_Ok_inv in Hrs as (rr & Hrr & [= <-]).
  cbn.
  assert (is_Some rr ↔ 0 < stage) as Hrr'.
  { destruct (decide (0 < Z.of_nat stage)%Z).
    - apply bind_Ok_inv in Hrr as (r & _ & [= <-]). split; [lia|by eexists].
    - injection Hrr as <-. split; [by intros [? ?]|lia]. }
  assert (is_Some sr ↔ stage + 1 < length m) as Hsr'.
  { destruct (decide (Z.of_nat stage < Z.of_nat (length m) - 1)%Z).
    - apply bind_Ok_inv in Hsr as (r & _ & [= <-]). split; [lia|by eexists].
    - injection Hsr as <-. split; [by intros [? ?]|lia]. }
  assert (if decide (0 < stage)
          then ∃ shape traced, fwd = Some shape ∧
                 forward_input_shapes !! 0 = Some traced ∧ traced ≠ [] ∧
                 shape = <[0 := micro_batch_size]> traced ∧
                 fis = <[0 := shape]> forward_input_shapes
          else fwd = None) as Hfwd'.
  { destruct (decide (0 < stage)).
    - apply bind_Ok_inv in Hfwd as ([shape fis'] & Hs & [= <- <-]).
      unfold Varuna.init_shape_of in Hs.
      apply bind_Ok_inv in Hs as (shape' & Hs & [= <- <-]).
      destruct (init_shape_spec _ _ _ Hs) as (traced & ? & ? & ?).
      by exists shape', traced.
    - by injection Hfwd as <- _. }
  assert (if decide (stage + 1 < length m)
          then ∃ shape traced, bwd = Some shape ∧
                 backward_grad_shapes !! 0 = Some traced ∧ traced ≠ [] ∧
                 shape = <[0 := micro_batch_size]> traced ∧
                 bgs = <[0 := shape]> backward_grad_shapes
          else bwd = None) as Hbwd'.
  { destruct (decide (Z.of_nat stage < Z.of_nat (length m) - 1)%Z).
    - rewrite decide_True by lia.
      apply bind_Ok_inv in Hbwd as ([shape bgs'] & Hs & [= <- <-]).
      unfold Varuna.init_shape_of in Hs.
      apply bind_Ok_inv in Hs as (shape' & Hs & [= <- <-]).
      destruct (init_shape_spec _ _ _ Hs) as (traced & ? & ? & ?).
      by exists shape', traced.
    - rewrite decide_False by lia. by injection Hbwd as <- _. }
  clear Hfwd Hbwd Hsr Hrr.
  assert (bool_decide (Z.of_nat stage < Z.of_nat (length m) - 1)%Z = before_last) as Hbl.
  { unfold before_last. apply bool_decide_ext. lia. }
  split. { unfold Threads.spawn_recieve_workers. cbn. by rewrite Hbl. }
  split. { unfold Threads.spawn_send_workers. cbn. by rewrite Hbl. }
  split; [done|]. split.
  { destruct (decide (0 < stage)).
    - destruct Hfwd' as (? & ? & -> & _). split; [done|by eexists].
    - subst fwd. split; [by intros [? ?]|done]. }
  split; [done|]. split.
  { destruct (decide (stage + 1 < length m)).
    - destruct Hbwd' as (? & ? & -> & _). split; [done|by eexists].
    - subst bwd. split; [by intros [? ?]|done]. }
  split.
  - intros shape ->. destruct (decide (0 < stage)); [|done].
    destruct Hfwd' as (shape' & traced & [= <-] & ? & ? & ? & ?). by exists traced.
  - intros shape ->. destruct (decide (stage + 1 < length m)); [|done].
    destruct Hbwd' as (shape' & traced & [= <-] & ? & ? & ? & ?). by exists traced.
Qed.

Lemma init_communication_matches_threads_witness :
  ∃ comm c,
    Varuna.init_communication two_by_two 1 1 4 [[1; 128; 64]] [] = Ok comm ∧
    Varuna.pipeline_config two_by_two 1 false comm 0 [5; 6] [(0, 0); (2, 0)] = Ok c ∧
    Threads.spawn_recieve_workers c = (true, false) ∧
    Pipeline.fwd_inp_shape c = Some [4; 128; 64] ∧
    Varuna.model_forward_input_shapes comm = [[4; 128; 64]] ∧
    Varuna.recieve_rank (Varuna.ranks comm) = Some 1.
Proof.
  eexists _, _. split; [vm_compute; reflexivity|]. split; [vm_compute; reflexivity|].
  split; [|split; [reflexivity|split; reflexivity]].
  refine (proj1 (init_communication_matches_threads two_by_two 1 1 4 [[1; 128; 64]] []
                   _ false 0 [5; 6] [(0, 0); (2, 0)] _ eq_refl eq_refl)).
Defined.

Lemma rank_at_rectangular (m : Varuna.RankMap) depth i (k : Z) :
  rectangular m depth → i < depth → (0 ≤ k < Z.of_nat (length m))%Z →
  ∃ r, Varuna.rank_at m k i = Ok r.
Proof.
  intros Hrect Hi Hk. destruct (Hrect (Z.to_nat k) ltac:(lia)) as (ranks & Hget & Hlen).
  unfold Varuna.rank_at. rewrite decide_True by lia. rewrite Hget. unfold py_index.
  destruct (lookup_lt_is_Some_2 ranks i ltac:(lia)) as [r ->]. by exists r.
Qed.

Lemma optional_rank (m : Varuna.RankMap) depth i (C : Prop) `{!Decision C} (k : Z) :
  rectangular m depth → i < depth → (C → (0 ≤ k < Z.of_nat (length m))%Z) →
  ∃ o : option nat,
    (if decide C then Some <$> Varuna.rank_at m k i else Ok None) = Ok o ∧
    if decide C then ∃ r, Varuna.rank_at m k i = Ok r ∧ o = Some r else o = None.
Proof.
  intros Hrect Hi Hk. destruct (decide C) as [HC|HC].
  - destruct (rank_at_rectangular m depth i k Hrect Hi (Hk HC)) as [r Hr].
    exists (Some r). rewrite Hr. split; [done|]. by exists r.
  - by exists None.
Qed.

Lemma init_ranks_rectangular (m : Varuna.RankMap) depth stage i :
  rectangular m depth → i < depth → stage < length m →
  ∃ rs, Varuna.init_ranks m stage i = Ok rs ∧
    (if decide (stage = 0)
     then ∃ r, Varuna.rank_at m (Z.of_nat (length m - 1)) i = Ok r ∧
               Varuna.embedding_recv_rank rs = Some r
     else Varuna.embedding_recv_rank rs = None) ∧
    (if decide (stage = length m - 1)
     then ∃ r, Varuna.rank_at m 0 i = Ok r ∧ Varuna.embedding_send_rank rs = Some r
     else Varuna.embedding_send_rank rs = None) ∧
    (if decide (stage + 1 < length m)
     then ∃ r, Varuna.rank_at m (Z.of_nat (stage + 1)) i = Ok r ∧
               Varuna.send_rank rs = Some r
     else Varuna.send_rank rs = None) ∧
    (if decide (0 < stage)
     then ∃ r, Varuna.rank_at m (Z.of_nat (stage - 1)) i = Ok r ∧
               Varuna.recieve_rank rs = Some r
     else Varuna.recieve_rank rs = None).
Proof.
  intros Hrect Hi Hstage. unfold Varuna.init_ranks.
  destruct (optional_rank m depth i (Z.of_nat stage = 0)%Z (Z.of_nat (length m) - 1)
              Hrect Hi ltac:(lia)) as (er & -> & Her).
  destruct (optional_rank m depth i (Z.of_nat stage = Z.of_nat (length m) - 1)%Z 0
              Hrect Hi ltac:(lia)) as (es & -> & Hes).
  destruct (optional_rank m depth i (Z.of_nat stage < Z.of_nat (length m) - 1)%Z
              (Z.of_nat stage + 1) Hrect Hi ltac:(lia)) as (sr & -> & Hsr).
  destruct (optional_rank m depth i (0 < Z.of_nat stage)%Z (Z.of_nat stage - 1)
              Hrect Hi ltac:(lia)) as (rr & -> & Hrr).
  eexists. split; [done|]. cbn.
  replace (Z.of_nat (length m) - 1)%Z with (Z.of_nat (length m - 1)) in Her by lia.
  replace (Z.of_nat stage + 1)%Z with (Z.of_nat (stage + 1)) in Hsr by lia.
  split; [|split; [|split]].
  - destruct (decide (stage = 0)).
    + by rewrite decide_True in Her by lia.
    + by rewrite decide_False in Her by lia.
  - destruct (decide (stage = length m - 1)).
    + by rewrite decide_True in Hes by lia.
    + by rewrite decide_False in Hes by lia.
  - destruct (decide (stage + 1 < length m)).
    + by rewrite decide_True in Hsr by lia.
    + by rewrite decide_False in Hsr by lia.
  - destruct (decide (0 < stage)).
    + rewrite decide_True in Hrr by lia.
      by replace (Z.of_nat stage - 1)%Z with (Z.of_nat (stage - 1)) in Hrr by lia.
    + by rewrite decide_False in Hrr by lia.
Qed.

(** X11. In a map whose stages have the same number of replicas, the
    links pair up: replica [i] of a stage sends its activations to the
    rank from which replica [i] of the next stage expects them, and the
    latter sends its gradients back to the former; the first stage expects
    the embedding weights from the rank of the last stage that sends them
    to it. The first stage has no rank to receive from and the last none
    to send to. *)
Theorem send_and_receive_ranks_pair_up (m : Varuna.RankMap) depth stage i :
  rectangular m depth → i < depth → stage + 1 < length m →
  ∃ here next first last r_here r_next r_first r_last,
    Varuna.init_ranks m stage i = Ok here ∧
    Varuna.init_ranks m (stage + 1) i = Ok next ∧
    Varuna.init_ranks m 0 i = Ok first ∧
    Varuna.init_ranks m (length m - 1) i = Ok last ∧
    Varuna.rank_at m (Z.of_nat stage) i = Ok r_here ∧
    Varuna.rank_at m (Z.of_nat (stage + 1)) i = Ok r_next ∧
    Varuna.rank_at m 0 i = Ok r_first ∧
    Varuna.rank_at m (Z.of_nat (length m - 1)) i = Ok r_last ∧
    Varuna.send_rank here = Some r_next ∧
    Varuna.recieve_rank next = Some r_here ∧
    Varuna.embedding_recv_rank first = Some r_last ∧
    Varuna.embedding_send_rank last = Some r_first ∧
    Varuna.recieve_rank first = None ∧
    Varuna.send_rank last = None.
Proof.
  intros Hrect Hi Hstage.
  destruct (init_ranks_rectangular m depth stage i Hrect Hi ltac:(lia))
    as (here & Hhere & _ & _ & Hs & _).
  destruct (init_ranks_rectangular m depth (stage + 1) i Hrect Hi ltac:(lia))
    as (next & Hnext & _ & _ & _ & Hr).
  destruct (init_ranks_rectangular m depth 0 i Hrect Hi ltac:(lia))
    as (first & Hfirst & Her & _ & _ & Hr0).
  destruct (init_ranks_rectangular m depth (length m - 1) i Hrect Hi ltac:(lia))
    as (last & Hlast & _ & Hes & Hsl & _).
  rewrite decide_True in Hs by lia. destruct Hs as (r_next & Hrn & Hs).
  rewrite decide_True in Hr by lia. destruct Hr as (r_here & Hrh & Hr).
  replace (stage + 1 - 1) with stage in Hrh by lia.
  rewrite decide_True in Her by lia. destruct Her as (r_last & Hrl & Her).
  rewrite decide_True in Hes by lia. destruct Hes as (r_first & Hrf & Hes).
  rewrite decide_False in Hr0 by lia. rewrite decide_False in Hsl by lia.
  exists here, next, first, last, r_here, r_next, r_first, r_last. done.
Qed.

Lemma send_and_receive_ranks_pair_up_witness :
  ∃ here next,
    Varuna.init_ranks two_by_two 0 1 = Ok here ∧
    Varuna.init_ranks two_by_two 1 1 = Ok next ∧
    Varuna.send_rank here = Some 3 ∧ Varuna.recieve_rank next = Some 1 ∧
    Varuna.embedding_recv_rank here = Some 3 ∧ Varuna.embedding_send_rank next = Some 1.
Proof.
  destruct (send_and_receive_ranks_pair_up two_by_two 2 0 1)
    as (here & next & first & last & r_here & r_next & r_first & r_last &
        Hh & Hn & Hf & Hl & Hrh & Hrn & Hrf & Hrl & Hs & Hr & Her & Hes & _).
  - intros [|[|stage]] Hs; [by eexists|by eexists|simpl in Hs; lia].
  - lia.
  - simpl. lia.
  - exists here, next. split; [exact Hh|]. split; [exact Hn|].
    vm_compute in Hrh, Hrn, Hrf, Hrl.
    injection Hrh as <-. injection Hrn as <-. injection Hrf as <-. injection Hrl as <-.
    change (Varuna.init_ranks two_by_two 0 1 = Ok first) in Hf.
    change (Varuna.init_ranks two_by_two 1 1 = Ok last) in Hl.
    change (Varuna.init_ranks two_by_two 1 1 = Ok next) in Hn.
    rewrite Hh in Hf. injection Hf as <-. rewrite Hn in Hl. injection Hl as <-. done.
Defined.

(** ** The send threads *)

Section sender_facts.
Context {Tensor Rng Inputs : Type} `{!TensorOps Tensor Rng}.

Lemma count_tasks_filter kind (sched : list (nat * nat)) :
  Threads.count_tasks kind sched = length (filter (λ entry, entry.1 = kind) sched).
Proof.
  unfold Threads.count_tasks.
  assert (∀ n, foldl (λ count (entry : nat * nat),
                        if decide (entry.1 = kind) then count + 1 else count) n sched
               = n + length (filter (λ entry, entry.1 = kind) sched)) as H; [|apply H].
  induction sched as [|e sched IH]; intros n; simpl; [lia|].
  rewrite IH, filter_cons. case_decide; simpl; lia.
Qed.

Lemma sender_loop_spec count : ∀ (queue sent : list Tensor),
  Threads.sender_loop count queue sent
  = (sent ++ map tensor_cpu (take count queue),
     if decide (count ≤ length queue) then Ok tt else Blocked).
Proof.
  induction count as [|count IH]; intros queue sent; simpl.
  - by rewrite app_nil_r.
  - destruct queue as [|x queue]; simpl.
    + by rewrite app_nil_r.
    + rewrite IH, <- app_assoc. simpl. f_equal.
      destruct (decide (count ≤ length queue)), (decide (S count ≤ S (length queue)));
        done || lia.
Qed.

(** X12. A send thread forwards the CPU copies of the first [n] tensors
    of its queue, in the order of the queue, [n] being the number of
    forward tasks of the schedule for the activations and the number of
    backward tasks for the gradients; it ends when it has sent [n] of them
    and waits for ever when the queue holds fewer. What the queue holds
    beyond [n] is never sent. *)
Theorem senders_forward_in_order (c : @Pipeline.Config Inputs) (queue : list Tensor) :
  let forwards := length (filter (λ entry, entry.1 = 0) (Pipeline.schedule c)) in
  let backwards := length (filter (λ entry, entry.1 = 2) (Pipeline.schedule c)) in
  Threads.acts_sender c queue
  = (map tensor_cpu (take forwards queue),
     if decide (forwards ≤ length queue) then Ok tt else Blocked) ∧
  Threads.grads_sender c queue
  = (map tensor_cpu (take backwards queue),
     if decide (backwards ≤ length queue) then Ok tt else Blocked).
Proof.
  intros forwards backwards. unfold Threads.acts_sender, Threads.grads_sender.
  by rewrite !sender_loop_spec, !count_tasks_filter.
Qed.

End sender_facts.

(** ** The receive requests and the microbatches *)

Lemma pieces_row_count {Row} (v : list Row) cs index rows :
  0 < cs → 0 < length v →
  pieces v cs !! index = Some rows →
  length rows = if decide (index + 1 = Scatter.num_splits (length v) cs ∧
                           0 < length v mod cs)
                then length v mod cs else cs.
Proof.
  intros Hcs Hv Hrows.
  pose proof (lookup_lt_Some _ _ _ Hrows) as Hlt. rewrite pieces_length in Hlt.
  destruct (decide (index + 1 < Scatter.num_splits (length v) cs)) as [Hfull|Hlast].
  - rewrite decide_False by lia.
    apply (pieces_full_length v cs index); [done..|]. by rewrite pieces_length.
  - assert (last (pieces v cs) = Some rows) as Hl.
    { rewrite last_lookup, pieces_length.
      replace (Nat.pred (Scatter.num_splits (length v) cs)) with index by lia. done. }
    destruct (pieces_last_length v cs rows Hcs Hl) as (Hlen & Hle & _ & Hmod).
    destruct (decide (length v mod cs = 0)) as [Hz|Hnz].
    + rewrite decide_False by lia.
      destruct (num_splits_bounds (length v) cs Hcs) as (_ & Hub & Hlb & _).
      specialize (Hlb Hv). rewrite pieces_length in Hlen.
      apply Nat.Div0.div_exact in Hz.
      set (n := Scatter.num_splits (length v) cs) in *. set (q := length v / cs) in *.
      assert (q = n) by nia. nia.
    + rewrite decide_True by lia. by apply Hmod.
Qed.

(** X13. The receive requests fit the microbatches. A batch whose tensors
    all have [rows] rows is scattered into microbatches of [chunk_size]
    rows; the receiver is configured as [Varuna.__init__] does it, with a
    shape whose leading dimension is [chunk_size] and with
    [last_chunk_size = rows % chunk_size]. Then the request that the
    activation receiver posts for a forward task has, as its leading
    dimension, the number of rows of the tensors of that task's
    microbatch, and the other dimensions of the configured shape. *)
Theorem receive_requests_match_microbatches {Row} (input : list (string * list Row))
    (c : @Pipeline.Config (gmap string (list Row))) chunk_size rows shape :
  NoDup input.*1 → 0 < chunk_size → 0 < rows →
  (∀ k v, (k, v) ∈ input → length v = rows) →
  Scatter.scatter input chunk_size = Ok (Pipeline.batches c) →
  Pipeline.fwd_inp_shape c = Some shape → shape !! 0 = Some chunk_size →
  Pipeline.last_chunk_size c = rows mod chunk_size →
  ∀ j task index microbatch k slice,
    filter (λ entry, entry.1 = 0) (Pipeline.schedule c) !! j = Some (task, index) →
    Pipeline.batches c !! index = Some microbatch →
    microbatch !! k = Some slice →
    ∃ posted,
      (Pipeline.acts_reciever c).1 !! j = Some posted ∧
      posted !! 0 = Some (length slice) ∧
      length posted = length shape ∧
      ∀ i, 0 < i → posted !! i = shape !! i.
Proof.
  intros Hnd Hcs Hrows Hall Hscatter Hshape Hlead Hlast j task index microbatch k slice
    Hj Hmb Hslice.
  assert (shape ≠ []) as Hne by (by intros ->).
  unfold Pipeline.acts_reciever. rewrite Hshape, receiver_loop_spec by done. cbn.
  rewrite list_lookup_fmap, Hj. cbn. eexists. split; [done|].
  (* the slice is a piece of its tensor *)
  destruct (scatter_loop chunk_size input [] (λ _, []) Hcs Hnd) as (mbs & Hrun & Hinv);
    [done| |].
  { intros i k'. unfold slice_at. by rewrite !lookup_nil. }
  unfold Scatter.scatter in Hscatter. rewrite Hrun in Hscatter. injection Hscatter as ->.
  pose proof (scatter_loop_length chunk_size input [] _ Hcs Hrun) as Hcount.
  specialize (Hinv index k). unfold slice_at in Hinv. rewrite Hmb in Hinv. simpl in Hinv.
  rewrite Hslice in Hinv.
  destruct (dict_get k input) as [v|] eqn:Hget; [|by rewrite lookup_nil in Hinv].
  assert ((k, v) ∈ input) as Hin.
  { clear -Hget. induction input as [|[k' v'] input IH]; simpl in Hget; [done|].
    case_decide; simplify_eq; [left|right; by apply IH]. }
  pose proof (Hall k v Hin) as Hv.
  assert (length (Pipeline.batches c) = Scatter.num_splits rows chunk_size) as Hchunks.
  { rewrite Hcount. simpl.
    assert (∀ l : list (string * list Row),
              (∀ kv, kv ∈ l → length kv.2 = rows) → l ≠ [] →
              max_list ((λ kv, Scatter.num_splits (length kv.2) chunk_size) <$> l)
              = Scatter.num_splits rows chunk_size) as Hmax.
    { induction l as [|kv l IH]; intros Hl Hnil; [done|].
      rewrite fmap_cons. cbn [max_list]. rewrite (Hl kv) by left.
      destruct (decide (l = [])) as [->|Hl']; [simpl; unfold id; lia|].
      rewrite IH; [|intros kv0 Hkv0; apply Hl; by right|done]. unfold id. lia. }
    apply Hmax; [|by intros ->; apply elem_of_nil in Hin].
    intros [k' v'] Hkv. by apply Hall with k'. }
  symmetry in Hinv.
  pose proof (pieces_row_count v chunk_size index slice Hcs ltac:(lia) Hinv) as Hlen.
  rewrite Hv in Hlen. unfold posted_shape. cbn [snd]. rewrite Hchunks, Hlast.
  destruct (decide (index + 1 = Scatter.num_splits rows chunk_size ∧ 0 < rows mod chunk_size)).
  - rewrite Hlen. split; [|split].
    + apply list_lookup_insert_eq. destruct shape; [done|simpl; lia].
    + by rewrite length_insert.
    + intros i Hi. apply list_lookup_insert_ne. lia.
  - by rewrite Hlen.
Qed.

Lemma receive_requests_match_microbatches_witness :
  ∃ batches,
    Scatter.scatter seven_rows 2 = Ok batches ∧
    (Pipeline.acts_reciever (seven_rows_config batches)).1
    = [[2; 128; 64]; [2; 128; 64]; [2; 128; 64]; [1; 128; 64]] ∧
    ∃ posted,
      (Pipeline.acts_reciever (seven_rows_config batches)).1 !! 3 = Some posted ∧
      posted !! 0 = Some 1.
Proof.
  eexists. split; [vm_compute; reflexivity|]. split; [vm_compute; reflexivity|].
  destruct (receive_requests_match_microbatches seven_rows
              (seven_rows_config [ {["input_ids" := [1; 2]]}; {["input_ids" := [3; 4]]};
                                   {["input_ids" := [5; 6]]}; {["input_ids" := [7]]} ])
              2 7 [2; 128; 64]) with (j := 3) (task := 0) (index := 3)
              (microbatch := ({["input_ids" := [7]]} : gmap string (list nat)))
              (k := "input_ids") (slice := [7])
    as (posted & Hp & Hlead & _).
  - apply (bool_decide_unpack _). vm_compute. reflexivity.
  - lia.
  - lia.
  - intros k v Hin%list_elem_of_singleton. by injection Hin as -> ->.
  - vm_compute. reflexivity.
  - reflexivity.
  - reflexivity.
  - reflexivity.
  - reflexivity.
  - reflexivity.
  - vm_compute. reflexivity.
  - exists posted. split; [exact Hp|exact Hlead].
Defined.

(** ** [check_unused_parameters]: every interval has one stage *)

Lemma removed_fold (f : string → bool) (names : list string) : ∀ acc,
  foldl (λ removed n, if f n then removed ++ [n] else removed) acc names
  = acc ++ filter (λ n, f n = true) names.
Proof.
  induction names as [|n names IH]; intros acc; simpl.
  - by rewrite app_nil_r.
  - rewrite IH, filter_cons. destruct (f n).
    + rewrite decide_True by done. by rewrite <- app_assoc.
    + by rewrite decide_False by done.
Qed.

Lemma increasing_lookup (cuts : list Z) :
  (∀ i a b, cuts !! i = Some a → cuts !! (i + 1) = Some b → (a < b)%Z) →
  ∀ i j a b, i < j → cuts !! i = Some a → cuts !! j = Some b → (a < b)%Z.
Proof.
  intros Hinc i j. induction j as [|j IH]; intros a b Hij Ha Hb; [lia|].
  destruct (decide (i = j)) as [->|Hne].
  - apply (Hinc j); [done|]. by rewrite Nat.add_1_r.
  - destruct (lookup_lt_is_Some_2 cuts j) as [c Hc].
    { apply lookup_lt_Some in Hb. lia. }
    transitivity c; [apply IH; [lia|done..]|].
    apply (Hinc j); [done|]. by rewrite Nat.add_1_r.
Qed.

Lemma stage_bounds_of_stage cuts num_stages num_cutpoints stage :
  length cuts = num_stages → stage < num_stages →
  ∃ start_pstage end_pstage,
    ParamStages.stage_bounds (config_of_stage cuts num_stages num_cutpoints stage)
    = Ok (start_pstage, end_pstage) ∧
    cuts !! stage = Some start_pstage ∧
    if decide (stage + 1 < num_stages) then cuts !! (stage + 1) = Some end_pstage
    else end_pstage = (Z.of_nat num_cutpoints + 1)%Z.
Proof.
  intros Hlen Hstage. unfold ParamStages.stage_bounds, py_index. cbn.
  destruct (lookup_lt_is_Some_2 cuts stage ltac:(lia)) as [s Hs]. rewrite Hs. simpl.
  destruct (decide (stage + 1 < num_stages)).
  - rewrite decide_True by lia.
    destruct (lookup_lt_is_Some_2 cuts (stage + 1) ltac:(lia)) as [e He]. rewrite He. simpl.
    by exists s, e.
  - rewrite decide_False by lia. simpl. by eexists _, _.
Qed.

Lemma kept_on_iff cuts num_stages num_cutpoints named_parameters d n stage :
  length cuts = num_stages → stage < num_stages → n ∈ named_parameters →
  kept_on cuts num_stages num_cutpoints named_parameters d n stage ↔
  ∀ pstage, d !! n = Some pstage →
    pstage = (-1)%Z ∨
    ∃ start_pstage end_pstage,
      cuts !! stage = Some start_pstage ∧
      (if decide (stage + 1 < num_stages) then cuts !! (stage + 1) = Some end_pstage
       else end_pstage = (Z.of_nat num_cutpoints + 1)%Z) ∧
      (start_pstage ≤ pstage < end_pstage)%Z.
Proof.
  intros Hlen Hstage Hin.
  destruct (stage_bounds_of_stage cuts num_stages num_cutpoints stage Hlen Hstage)
    as (s & e & Hb & Hs & He).
  unfold kept_on, ParamStages.check_unused_parameters. rewrite Hb. cbn.
  rewrite removed_fold. cbn. split.
  - intros (removed & [= <-] & Hnot) pstage Hp.
    destruct (decide (pstage = -1)%Z) as [?|Hne]; [by left|]. right.
    exists s, e. split; [done|]. split; [done|].
    destruct (decide (s ≤ pstage < e)%Z) as [?|Hout]; [done|].
    exfalso. apply Hnot. apply list_elem_of_filter. split; [|done].
    unfold ParamStages.unused. rewrite Hp. apply bool_decide_eq_true. lia.
  - intros Hkeep. eexists. split; [done|]. intros [Hun _]%list_elem_of_filter.
    unfold ParamStages.unused in Hun. destruct (d !! n) as [pstage|] eqn:Hp; [|done].
    apply bool_decide_eq_true in Hun.
    destruct (Hkeep pstage eq_refl) as [?|(s' & e' & Hs' & He' & Hrange)]; [lia|].
    rewrite Hs in Hs'. injection Hs' as <-.
    destruct (decide (stage + 1 < num_stages)).
    + rewrite He in He'. injection He' as <-. lia.
    + subst. lia.
Qed.

Lemma interval_stage (cuts : list Z) (z : Z) :
  (∀ i a b, cuts !! i = Some a → cuts !! (i + 1) = Some b → (a < b)%Z) →
  (∃ c0, cuts !! 0 = Some c0 ∧ (c0 ≤ z)%Z) →
  ∃ stage a, cuts !! stage = Some a ∧ (a ≤ z)%Z ∧
             ∀ b, cuts !! (stage + 1) = Some b → (z < b)%Z.
Proof.
  intros Hinc (c0 & H0 & Hle).
  assert (∀ n, n < length cuts →
            ∃ stage a, stage ≤ n ∧ cuts !! stage = Some a ∧ (a ≤ z)%Z ∧
              ∀ b, stage < n → cuts !! (stage + 1) = Some b → (z < b)%Z) as Hscan.
  { induction n as [|n IH]; intros Hn.
    - exists 0, c0. split; [done|]. split; [done|]. split; [done|]. intros b ?. lia.
    - destruct (IH ltac:(lia)) as (stage & a & Hsn & Ha & Haz & Hnext).
      destruct (lookup_lt_is_Some_2 cuts (S n) Hn) as [c Hc].
      destruct (decide (c ≤ z)%Z).
      + exists (S n), c. split; [done|]. split; [done|]. split; [done|]. intros b ?. lia.
      + destruct (decide (stage = n)) as [->|Hne].
        * exists n, a. split; [lia|]. split; [done|]. split; [done|].
          intros b _ Hb. rewrite Nat.add_1_r, Hc in Hb. injection Hb as <-. lia.
        * exists stage, a. split; [lia|]. split; [done|]. split; [done|].
          intros b _ Hb. apply Hnext; [lia|done]. }
  destruct (Hscan (length cuts - 1)) as (stage & a & Hsn & Ha & Haz & Hnext).
  { apply lookup_lt_Some in H0. lia. }
  exists stage, a. split; [done|]. split; [done|]. intros b Hb.
  apply Hnext; [|done]. apply lookup_lt_Some in Hb. lia.
Qed.

(** X14. Every interval belongs to exactly one stage. Under a valid stage
    assignment, a parameter whose interval lies between the first cut and
    the number of markers is kept by [check_unused_parameters] on one
    stage and set to [None] on every other; a parameter whose interval is
    [-1], or that has no interval, is kept on every stage; and a parameter
    whose interval is below the first cut (and not [-1]) or above the
    number of markers is kept on none. *)
Theorem check_unused_parameters_partitions (cuts : list Z) num_stages num_cutpoints
    named_parameters (param_name_to_pstage : gmap string Z) n :
  PM.valid_stage_to_cut cuts num_stages num_cutpoints → 0 < num_stages →
  n ∈ named_parameters →
  let kept := kept_on cuts num_stages num_cutpoints named_parameters param_name_to_pstage n in
  ∃ first_cut, cuts !! 0 = Some first_cut ∧
    match param_name_to_pstage !! n with
    | None => ∀ stage, stage < num_stages → kept stage
    | Some pstage =>
        if decide (pstage = -1)%Z then ∀ stage, stage < num_stages → kept stage
        else if decide (first_cut ≤ pstage ≤ Z.of_nat num_cutpoints)%Z then
          ∃ stage, stage < num_stages ∧ kept stage ∧
                   ∀ stage', stage' < num_stages → kept stage' → stage' = stage
        else ∀ stage, stage < num_stages → ¬ kept stage
    end.
Proof.
  intros (Hlen & Hinc & Hlast) Hpos Hin kept. subst kept.
  destruct (lookup_lt_is_Some_2 cuts 0 ltac:(lia)) as [first_cut H0].
  exists first_cut. split; [done|].
  pose proof (increasing_lookup cuts Hinc) as Hmono.
  assert (∃ final, cuts !! (num_stages - 1) = Some final ∧
                   (final ≤ Z.of_nat num_cutpoints)%Z) as (final & Hfinal & Hfin_le).
  { destruct (lookup_lt_is_Some_2 cuts (num_stages - 1) ltac:(lia)) as [x Hx].
    exists x. split; [done|]. apply Hlast. rewrite last_lookup, Hlen.
    by replace (Nat.pred num_stages) with (num_stages - 1) by lia. }
  destruct (param_name_to_pstage !! n) as [pstage|] eqn:Hp.
  2:{ intros stage Hs. apply kept_on_iff; [done..|]. intros ? ?. congruence. }
  destruct (decide (pstage = -1)%Z) as [->|Hne].
  { intros stage Hs. apply kept_on_iff; [done..|]. rewrite Hp. intros ? [= <-]. by left. }
  destruct (decide (first_cut ≤ pstage ≤ Z.of_nat num_cutpoints)%Z) as [Hrange|Hout].
  - destruct (interval_stage cuts pstage Hinc) as (stage & a & Ha & Haz & Hnext).
    { exists first_cut. split; [done|lia]. }
    assert (stage < num_stages) as Hs by (apply lookup_lt_Some in Ha; lia).
    exists stage. split; [done|]. split.
    + apply kept_on_iff; [done..|]. rewrite Hp. intros ? [= <-]. right.
      destruct (decide (stage + 1 < num_stages)).
      * destruct (lookup_lt_is_Some_2 cuts (stage + 1) ltac:(lia)) as [b Hb].
        exists a, b. split; [done|]. split; [done|].
        specialize (Hnext b Hb). lia.
      * exists a, (Z.of_nat num_cutpoints + 1)%Z.
        split; [done|]. split; [done|]. lia.
    + intros stage' Hs' Hkept0.
      pose proof (proj1 (kept_on_iff _ _ _ _ _ _ _ Hlen Hs' Hin) Hkept0) as Hkept.
      destruct (Hkept pstage Hp) as [?|(s' & e' & Hs1 & He1 & Hr1)]; [done|].
      destruct (decide (stage' = stage)) as [?|Hdiff]; [done|]. exfalso.
      destruct (decide (stage' < stage)).
      * rewrite decide_True in He1 by lia.
        destruct (decide (stage' + 1 = stage)) as [Heq|?].
        -- rewrite Heq, Ha in He1. injection He1 as <-. lia.
        -- pose proof (Hmono (stage' + 1) stage e' a ltac:(lia) He1 Ha). lia.
      * destruct (lookup_lt_is_Some_2 cuts (stage + 1) ltac:(lia)) as [b Hb].
        specialize (Hnext b Hb).
        destruct (decide (stage + 1 = stage')) as [Heq|?].
        -- rewrite <- Heq, Hb in Hs1. injection Hs1 as <-. lia.
        -- pose proof (Hmono (stage + 1) stage' b s' ltac:(lia) Hb Hs1). lia.
  - intros stage Hs Hkept0.
    pose proof (proj1 (kept_on_iff _ _ _ _ _ _ _ Hlen Hs Hin) Hkept0) as Hkept.
    destruct (Hkept pstage Hp) as [?|(s' & e' & Hs1 & He1 & Hr1)]; [done|].
    apply Hout. split.
    + destruct (decide (stage = 0)) as [->|?].
      * rewrite H0 in Hs1. injection Hs1 as <-. lia.
      * pose proof (Hmono 0 stage first_cut s' ltac:(lia) H0 Hs1). lia.
    + destruct (decide (stage + 1 < num_stages)).
      * destruct (decide (stage + 1 = num_stages - 1)) as [Heq|?].
        -- rewrite Heq, Hfinal in He1. injection He1 as <-. lia.
        -- pose proof (Hmono (stage + 1) (num_stages - 1) e' final ltac:(lia) He1 Hfinal).
           lia.
      * subst e'. lia.
Qed.

Lemma sample_cuts_valid : PM.valid_stage_to_cut sample_cuts 3 5.
Proof.
  split; [done|]. split.
  - intros [|[|[|i]]] a b; simpl; intros [= <-] [= <-]; lia.
  - intros x [= <-]. lia.
Qed.

Lemma check_unused_parameters_partitions_witness :
  ∃ stage, stage < 3 ∧
    kept_on sample_cuts 3 5 sample_parameters sample_pstages "layer3.weight" stage ∧
    ∀ stage', stage' < 3 →
      kept_on sample_cuts 3 5 sample_parameters sample_pstages "layer3.weight" stage' →
      stage' = stage.
Proof.
  destruct (check_unused_parameters_partitions sample_cuts 3 5 sample_parameters
              sample_pstages "layer3.weight" sample_cuts_valid ltac:(lia))
    as (first_cut & H0 & H).
  { apply (bool_decide_unpack _). vm_compute. reflexivity. }
  injection H0 as <-.
  change (sample_pstages !! "layer3.weight") with (Some 3%Z) in H.
  cbv iota in H. rewrite decide_False in H by lia. rewrite decide_True in H by lia.
  exact H.
Defined.

(** ** [parameter_names_to_cuts] and the structural intervals *)

Lemma assign_name_first_wins cp name pnames : ∀ d,
  foldl (Ownership.assign_name cp name) d pnames
  = first_wins d ((λ pname, (name +:+ "." +:+ pname, cp)) <$> pnames).
Proof.
  induction pnames as [|pname pnames IH]; intros d; [done|]. simpl. by rewrite IH.
Qed.

Lemma assign_structural_first_wins modules : ∀ cp d,
  (foldl Ownership.assign_structural (cp, d) modules).2
  = first_wins d (structural_assignments cp modules).
Proof.
  induction modules as [|[[name is_cp] pnames] modules IH]; intros cp d; [done|].
  simpl. unfold Ownership.assign_structural at 2. simpl. destruct is_cp; simpl.
  - apply IH.
  - rewrite IH, assign_name_first_wins. unfold first_wins. by rewrite foldl_app.
Qed.

Lemma assign_all_last_wins idx d temp (new : list string) :
  ParamStages.assign_all idx d (temp ++ new)
  = last_wins (ParamStages.assign_all idx d temp) ((λ p, (p, idx)) <$> new).
Proof.
  unfold ParamStages.assign_all, last_wins. rewrite foldl_app.
  generalize (foldl (λ d p, <[p := idx]> d) d temp). clear.
  induction new as [|p new IH]; intros d; [done|]. simpl. apply IH.
Qed.

Lemma live_modules_cons name (m : option (bool * list string)) oms :
  live_modules ((name, m) :: oms)
  = match m with
    | Some (is_cp, pnames) =>
        if decide (name = "") then live_modules oms
        else (name, is_cp, pnames) :: live_modules oms
    | None => live_modules oms
    end.
Proof.
  unfold live_modules. simpl. destruct m as [[is_cp pnames]|]; [|done].
  by destruct (decide (name = "")).
Qed.

Lemma names_loop_last_wins ordered_modules : ∀ idx d temp,
  (foldl ParamStages.names_step (idx, d, temp) ordered_modules).1.1
  = idx + length (filter (λ m, m.1.2 = true) (live_modules ordered_modules)) ∧
  ParamStages.assign_all
    (foldl ParamStages.names_step (idx, d, temp) ordered_modules).1.1
    (foldl ParamStages.names_step (idx, d, temp) ordered_modules).1.2
    (foldl ParamStages.names_step (idx, d, temp) ordered_modules).2
  = last_wins (ParamStages.assign_all idx d temp)
      (structural_assignments idx (live_modules ordered_modules)).
Proof.
  induction ordered_modules as [|[name m] oms IH]; intros idx d temp.
  - simpl. split; [lia|done].
  - rewrite live_modules_cons. cbn [foldl]. unfold ParamStages.names_step at 2 4 6 8.
    cbn [fst snd]. destruct m as [[is_cp pnames]|]; [|apply IH].
    destruct (decide (name = "")) as [->|Hname]; [apply IH|].
    destruct is_cp.
    + destruct (IH (idx + 1) (ParamStages.assign_all idx d temp) []) as [Hidx Heq].
      split.
      * rewrite Hidx, filter_cons. cbn [fst snd]. rewrite decide_True by done.
        simpl. lia.
      * rewrite Heq. done.
    + destruct (IH idx d (temp ++ ((λ pname, name +:+ "." +:+ pname) <$> pnames)))
        as [Hidx Heq].
      split.
      * rewrite Hidx, filter_cons. cbn [fst snd]. by rewrite decide_False by done.
      * rewrite Heq, assign_all_last_wins. cbn [structural_assignments].
        unfold last_wins at 3. rewrite foldl_app. f_equal.
        unfold last_wins. f_equal. by rewrite <- list_fmap_compose.
Qed.

Lemma first_wins_last_wins (l : list (string * nat)) :
  NoDup l.*1 →
  first_wins ∅ l = last_wins ∅ l ∧ ∀ n, is_Some (last_wins ∅ l !! n) → n ∈ l.*1.
Proof.
  induction l as [|kv l IH] using rev_ind; intros Hnd.
  - split; [done|]. intros n. unfold last_wins. simpl. rewrite lookup_empty. by intros [? ?].
  - rewrite fmap_app in Hnd. apply NoDup_app in Hnd as (Hnd & Hfresh & _).
    destruct (IH Hnd) as [Heq Hkeys].
    assert (last_wins ∅ l !! kv.1 = None) as Hnone.
    { destruct (last_wins ∅ l !! kv.1) eqn:E; [|done]. exfalso.
      apply (Hfresh kv.1); [apply Hkeys; by rewrite E|left]. }
    unfold first_wins, last_wins in *. rewrite !foldl_app. simpl. rewrite Heq, Hnone.
    split; [done|]. intros n. rewrite fmap_app. simpl.
    destruct (decide (n = kv.1)) as [->|Hne].
    + intros _. apply elem_of_app. right. left.
    + rewrite lookup_insert_ne by done. intros Hn. apply elem_of_app. left. by apply Hkeys.
Qed.

Lemma structural_assignments_keys modules : ∀ cp,
  (structural_assignments cp modules).*1 = full_names modules.
Proof.
  induction modules as [|[[name is_cp] pnames] modules IH]; intros cp; [done|].
  unfold full_names. simpl. fold (full_names modules). destruct is_cp; simpl.
  - apply IH.
  - rewrite fmap_app, IH. f_equal. rewrite <- list_fmap_compose. done.
Qed.

(** X15. [parameter_names_to_cuts] numbers the parameters as the second
    loop of the ownership resolver does: on the modules that are still in
    the module order, a parameter's number is the interval of its
    structural position, provided no full name occurs twice; and the name
    [lm_head_weight] gets the number of the markers, whatever the model
    is. *)
Theorem parameter_names_to_cuts_structural
    (ordered_modules : list (string * option (bool * list string))) :
  let modules := live_modules ordered_modules in
  NoDup (full_names modules) →
  (∀ n, n ≠ "lm_head_weight" →
     ParamStages.parameter_names_to_cuts ordered_modules !! n
     = Ownership.structural_interval modules n) ∧
  ParamStages.parameter_names_to_cuts ordered_modules !! "lm_head_weight"
  = Some (length (filter (λ m, m.1.2 = true) modules)).
Proof.
  intros modules Hnd. unfold ParamStages.parameter_names_to_cuts.
  pose proof (names_loop_last_wins ordered_modules 0 ∅ []) as Hloop.
  destruct (foldl ParamStages.names_step (0, ∅, []) ordered_modules)
    as [[stage_index d] temp]. cbn [fst snd] in Hloop. destruct Hloop as [Hidx Heq].
  fold modules in Hidx, Heq. split.
  - intros n Hn. rewrite lookup_insert_ne by done. rewrite Heq.
    unfold Ownership.structural_interval. rewrite assign_structural_first_wins.
    change (ParamStages.assign_all 0 ∅ []) with (∅ : gmap string nat).
    destruct (first_wins_last_wins (structural_assignments 0 modules)) as [-> _]; [|done].
    by rewrite structural_assignments_keys.
  - rewrite lookup_insert_eq. f_equal. lia.
Qed.

Lemma parameter_names_to_cuts_structural_witness :
  ParamStages.parameter_names_to_cuts pruned_modules !! "head.bias" = Some 2 ∧
  Ownership.structural_interval (live_modules pruned_modules) "head.bias" = Some 2 ∧
  ParamStages.parameter_names_to_cuts pruned_modules !! "lm_head_weight" = Some 2.
Proof.
  destruct (parameter_names_to_cuts_structural pruned_modules) as [Hsame Hhead].
  { apply (bool_decide_unpack _). vm_compute. reflexivity. }
  split; [|split].
  - rewrite (Hsame "head.bias") by done. vm_compute. reflexivity.
  - vm_compute. reflexivity.
  - exact Hhead.
Defined.

(** ** [prep_cutpoints] *)

Lemma markers_cons name flag modules :
  markers ((name, flag) :: modules)
  = if decide (name ≠ "" ∧ flag = true) then name :: markers modules else markers modules.
Proof. unfold markers. rewrite filter_cons. simpl. by case_decide. Qed.

Lemma dict_index_Some {V} (d : list (string * V)) k :
  is_Some (dict_get k d) → ∃ v, dict_index d k = Ok v ∧ dict_get k d = Some v.
Proof. intros [v Hv]. exists v. unfold dict_index. by rewrite Hv. Qed.

(** What the loop does from any of its states. [targets] are the numbers
    of the markers still to be attached: they are the numbers from [index]
    on that are in [stage_to_cut], in increasing order. *)
Lemma prep_loop_spec out c cuts modules : ∀ st (targets : list nat),
  PM.stage_to_cut c = Some cuts →
  (∀ name, name ∈ markers modules → traced_marker out name) →
  (∀ k, Prep.index st ≤ k → (Z.of_nat k ∈ cuts ↔ k ∈ targets)) →
  (∀ j j' t t', j < j' → targets !! j = Some t → targets !! j' = Some t' → t < t') →
  (∀ t, t ∈ targets → Prep.index st ≤ t < Prep.index st + length (markers modules)) →
  Prep.assigned_index st + length targets = PM.num_stages c →
  ∃ st' new,
    Prep.loop out c modules st = Ok st' ∧
    Prep.attached st' = Prep.attached st ++ new ∧
    length new = length targets ∧
    (∀ j t, targets !! j = Some t →
       ∃ name meta,
         markers modules !! (t - Prep.index st) = Some name ∧
         new !! j = Some (name, meta) ∧
         Prep.cp_index meta = Prep.assigned_index st + j ∧
         dict_get name (DryRun.out_input_gradients out) = Some (Prep.bwd_req_grads meta) ∧
         dict_get name (DryRun.out_input_shapes out) = Some (Prep.dummy_shapes meta)) ∧
    (let a := Prep.assigned_index st in
     let stage := PM.stage c in
     (if decide (a ≤ stage < a + length targets) then
        ∃ name meta changes,
          new !! (stage - a) = Some (name, meta) ∧
          Prep.pre_cp st' = Some name ∧
          Prep.forward_input_shapes st' = Prep.dummy_shapes meta ∧
          dict_get name (DryRun.out_shape_indices_to_change out) = Some changes ∧
          Prep.fwd_inp_shape_changes st' = Some changes
      else
        Prep.pre_cp st' = Prep.pre_cp st ∧
        Prep.forward_input_shapes st' = Prep.forward_input_shapes st ∧
        Prep.fwd_inp_shape_changes st' = Prep.fwd_inp_shape_changes st) ∧
     (if decide (a ≤ stage + 1 < a + length targets) then
        ∃ name meta changes,
          new !! (stage + 1 - a) = Some (name, meta) ∧
          Prep.post_cp st' = Some name ∧
          Prep.backward_grad_shapes st' = Prep.dummy_shapes meta ∧
          dict_get name (DryRun.out_shape_indices_to_change out) = Some changes ∧
          Prep.bwd_grad_shape_changes st' = Some changes
      else
        Prep.post_cp st' = Prep.post_cp st ∧
        Prep.backward_grad_shapes st' = Prep.backward_grad_shapes st ∧
        Prep.bwd_grad_shape_changes st' = Prep.bwd_grad_shape_changes st)).
Proof.
  induction modules as [|[name flag] modules IH];
    intros st targets Hcuts Htraced Hmem Hsorted Hrange Hcount.
  - (* no module left: no target left *)
    assert (targets = []) as ->.
    { destruct targets as [|t targets]; [done|].
      specialize (Hrange t ltac:(left)). simpl in Hrange. lia. }
    exists st, []. simpl. rewrite app_nil_r.
    split; [done|]. split; [done|]. split; [done|]. split; [by intros j t ?|].
    split; (rewrite decide_False by lia); done.
  - cbn [Prep.loop fst]. rewrite markers_cons in Htraced, Hrange.
    destruct (decide (name = "")) as [->|Hname].
    { rewrite decide_False in Htraced, Hrange by (by intros [? _]).
      destruct (IH st targets Hcuts Htraced Hmem Hsorted Hrange Hcount)
        as (st' & new & Hloop & Hatt & Hlen & Hnew & Hpre & Hpost).
      exists st', new. rewrite markers_cons. rewrite decide_False by (by intros [? _]).
      done. }
    destruct flag.
    2:{ (* an ordinary module *)
      rewrite decide_False in Htraced, Hrange by (by intros [_ ?]).
      unfold Prep.visit. cbn [snd mbind result_mbind result_bind].
      destruct (decide (Prep.assigned_index st = PM.num_stages c)) as [Hdone|Hgo].
      - assert (targets = []) as -> by (destruct targets; [done|simpl in Hcount; lia]).
        exists st, []. rewrite app_nil_r.
        split; [done|]. split; [done|]. split; [done|]. split; [by intros j t ?|].
        cbn zeta. split; (rewrite decide_False by (simpl; lia)); done.
      - destruct (IH st targets Hcuts Htraced Hmem Hsorted Hrange Hcount)
          as (st' & new & Hloop & Hatt & Hlen & Hnew & Hpre & Hpost).
        exists st', new. rewrite markers_cons. rewrite decide_False by (by intros [_ ?]).
        done. }
    (* a marker *)
    rewrite decide_True in Htraced, Hrange by done.
    rewrite markers_cons. rewrite decide_True by done.
    unfold Prep.visit. cbn [snd fst]. rewrite Hcuts. cbn [mbind result_mbind result_bind].
    destruct (decide (Z.of_nat (Prep.index st) ∈ cuts)) as [Hin|Hnin].
    + (* its number is in [stage_to_cut]: it is the first target *)
      apply Hmem in Hin; [|done].
      destruct targets as [|t0 targets]; [by apply elem_of_nil in Hin|].
      assert (t0 = Prep.index st) as ->.
      { apply elem_of_cons in Hin as [->|Hin]; [done|].
        apply list_elem_of_lookup in Hin as [j Hj].
        pose proof (Hsorted 0 (S j) t0 (Prep.index st) ltac:(lia) eq_refl Hj).
        specialize (Hrange t0 ltac:(left)). lia. }
      destruct (Htraced name ltac:(left)) as (Hshapes & Hchanges & Hgrads).
      apply dict_index_Some in Hshapes as (shapes & Hshapes & Hshapes').
      apply dict_index_Some in Hchanges as (changes & Hchanges & Hchanges').
      apply dict_index_Some in Hgrads as (grads & Hgrads & Hgrads').
      set (a := Prep.assigned_index st) in *. set (stage := PM.stage c) in *.
      set (st1 := if decide (a = stage) then Prep.set_pre name shapes changes st else st).
      set (st2 := if decide (a = stage + 1) then Prep.set_post name shapes changes st1
                  else st1).
      set (meta := {| Prep.cp_index := a; Prep.bwd_req_grads := grads;
                      Prep.dummy_shapes := shapes |}).
      assert (Prep.assigned_index st1 = a) as Ha1 by (unfold st1; by case_decide).
      assert (Prep.assign out stage name st = Ok (Prep.attach name meta st2)) as ->.
      { unfold Prep.assign. fold a. rewrite Hshapes, Hchanges, Hgrads.
        replace (if decide (a = stage)
                 then Ok shapes ≫= λ shapes0, Ok changes ≫= λ changes0,
                        Ok (Prep.set_pre name shapes0 changes0 st)
                 else Ok st) with (Ok st1) by (unfold st1; by case_decide).
        cbn [mbind result_mbind result_bind]. rewrite Ha1.
        replace (if decide (a = stage + 1)
                 then Ok (Prep.set_post name shapes changes st1) else Ok st1)
          with (Ok st2) by (unfold st2; by case_decide).
        cbn [mbind result_mbind result_bind].
        assert (Prep.assigned_index st2 = a) as -> by (unfold st2; by case_decide).
        done. }
      cbn [mbind result_mbind result_bind].
      set (st3 := Prep.next_index (Prep.attach name meta st2)).
      assert (Prep.assigned_index st3 = a + 1) as Ha3.
      { unfold st3, st2. simpl. case_decide; simpl; lia. }
      assert (Prep.index st3 = Prep.index st + 1) as Hi3.
      { unfold st3, st2, st1. simpl. repeat case_decide; done. }
      assert (Prep.attached st3 = Prep.attached st ++ [(name, meta)]) as Hatt3.
      { unfold st3, st2, st1. simpl. repeat case_decide; done. }
      assert (Prep.pre_cp st3 = (if decide (a = stage) then Some name else Prep.pre_cp st) ∧
              Prep.forward_input_shapes st3
              = (if decide (a = stage) then shapes else Prep.forward_input_shapes st) ∧
              Prep.fwd_inp_shape_changes st3
              = (if decide (a = stage) then Some changes
                 else Prep.fwd_inp_shape_changes st)) as (Hp3 & Hf3 & Hfc3).
      { unfold st3, st2, st1. simpl. repeat case_decide; done. }
      assert (Prep.post_cp st3
              = (if decide (a = stage + 1) then Some name else Prep.post_cp st) ∧
              Prep.backward_grad_shapes st3
              = (if decide (a = stage + 1) then shapes else Prep.backward_grad_shapes st) ∧
              Prep.bwd_grad_shape_changes st3
              = (if decide (a = stage + 1) then Some changes
                 else Prep.bwd_grad_shape_changes st)) as (Hq3 & Hb3 & Hbc3).
      { unfold st3, st2, st1. simpl. repeat case_decide; done. }
      clearbody st3. clear st1 st2 Ha1.
      assert (∃ st' new',
                (if decide (Prep.assigned_index st3 = PM.num_stages c) then Ok st3
                 else Prep.loop out c modules st3) = Ok st' ∧
                Prep.attached st' = Prep.attached st3 ++ new' ∧
                length new' = length targets ∧
                (∀ j t, targets !! j = Some t →
                   ∃ name meta,
                     markers modules !! (t - Prep.index st3) = Some name ∧
                     new' !! j = Some (name, meta) ∧
                     Prep.cp_index meta = Prep.assigned_index st3 + j ∧
                     dict_get name (DryRun.out_input_gradients out)
                     = Some (Prep.bwd_req_grads meta) ∧
                     dict_get name (DryRun.out_input_shapes out)
                     = Some (Prep.dummy_shapes meta)) ∧
                (if decide (a + 1 ≤ stage < a + 1 + length targets) then
                   ∃ name meta changes,
                     new' !! (stage - (a + 1)) = Some (name, meta) ∧
                     Prep.pre_cp st' = Some name ∧
                     Prep.forward_input_shapes st' = Prep.dummy_shapes meta ∧
                     dict_get name (DryRun.out_shape_indices_to_change out) = Some changes ∧
                     Prep.fwd_inp_shape_changes st' = Some changes
                 else
                   Prep.pre_cp st' = Prep.pre_cp st3 ∧
                   Prep.forward_input_shapes st' = Prep.forward_input_shapes st3 ∧
                   Prep.fwd_inp_shape_changes st' = Prep.fwd_inp_shape_changes st3) ∧
                (if decide (a + 1 ≤ stage + 1 < a + 1 + length targets) then
                   ∃ name meta changes,
                     new' !! (stage + 1 - (a + 1)) = Some (name, meta) ∧
                     Prep.post_cp st' = Some name ∧
                     Prep.backward_grad_shapes st' = Prep.dummy_shapes meta ∧
                     dict_get name (DryRun.out_shape_indices_to_change out) = Some changes ∧
                     Prep.bwd_grad_shape_changes st' = Some changes
                 else
                   Prep.post_cp st' = Prep.post_cp st3 ∧
                   Prep.backward_grad_shapes st' = Prep.backward_grad_shapes st3 ∧
                   Prep.bwd_grad_shape_changes st' = Prep.bwd_grad_shape_changes st3))
        as (st' & new' & Hloop & Hatt & Hlen & Hnew & Hpre & Hpost).
      { destruct (decide (Prep.assigned_index st3 = PM.num_stages c)) as [Hdone|Hgo].
        - assert (targets = []) as ->.
          { destruct targets; [done|]. simpl in Hcount. fold a in Hcount. lia. }
          exists st3, []. rewrite app_nil_r.
          split; [done|]. split; [done|]. split; [done|]. split; [by intros j t ?|].
          split; (rewrite decide_False by (simpl; lia)); done.
        - destruct (IH st3 targets Hcuts) as (st' & new' & Hloop & Hrest).
          + intros n Hn. apply Htraced. by right.
          + intros k Hk. rewrite Hi3 in Hk. rewrite Hmem by lia. split.
            * intros [?|?]%elem_of_cons; [lia|done].
            * by right.
          + intros j j' t t' Hjj Hj Hj'. by apply (Hsorted (S j) (S j') t t' ltac:(lia)).
          + intros t Ht. rewrite Hi3.
            apply list_elem_of_lookup in Ht as [j Hj].
            pose proof (Hsorted 0 (S j) (Prep.index st) t ltac:(lia) eq_refl Hj).
            assert (t ∈ Prep.index st :: targets) as Hel.
            { right. by eapply list_elem_of_lookup_2. }
            specialize (Hrange t Hel). simpl in Hrange. lia.
          + rewrite Ha3. simpl in Hcount. fold a in Hcount. lia.
          + destruct Hrest as (Hatt & Hlen & Hnew & Hpre & Hpost).
            cbn zeta in Hpre, Hpost. rewrite Ha3 in Hpre, Hpost.
            exists st', new'. rewrite Hloop. done. }
      exists st', ((name, meta) :: new'). split; [exact Hloop|].
      split. { rewrite Hatt, Hatt3, <- app_assoc. done. }
      split. { simpl. by rewrite Hlen. }
      split.
      { intros [|j] t Ht; simpl in Ht.
        - injection Ht as <-. exists name, meta. rewrite Nat.sub_diag. done.
        - destruct (Hnew j t Ht) as (n' & m' & Hn' & Hm' & Hidx & Hg' & Hs').
          exists n', m'.
          assert (Prep.index st < t) as Hlt.
          { by apply (Hsorted 0 (S j) (Prep.index st) t ltac:(lia)). }
          rewrite Hi3 in Hn'.
          replace (t - Prep.index st) with (S (t - (Prep.index st + 1))) by lia.
          split; [done|]. split; [done|]. rewrite Hidx, Ha3. split; [lia|done]. }
      cbn zeta. fold a stage. change (length (Prep.index st :: targets)) with (S (length targets)).
      split.
      * destruct (decide (a + 1 ≤ stage < a + 1 + length targets)) as [Hr|Hr].
        -- rewrite decide_True by lia. destruct Hpre as (n' & m' & ch' & Hl' & Hrest).
           exists n', m', ch'.
           replace (stage - a) with (S (stage - (a + 1))) by lia. done.
        -- destruct Hpre as (-> & -> & ->). rewrite Hp3, Hf3, Hfc3.
           destruct (decide (a = stage)) as [Heq|Hne].
           ++ rewrite decide_True by lia. exists name, meta, changes.
              rewrite Heq, Nat.sub_diag. done.
           ++ rewrite decide_False by lia. done.
      * destruct (decide (a + 1 ≤ stage + 1 < a + 1 + length targets)) as [Hr|Hr].
        -- rewrite decide_True by lia. destruct Hpost as (n' & m' & ch' & Hl' & Hrest).
           exists n', m', ch'.
           replace (stage + 1 - a) with (S (stage + 1 - (a + 1))) by lia. done.
        -- destruct Hpost as (-> & -> & ->). rewrite Hq3, Hb3, Hbc3.
           destruct (decide (a = stage + 1)) as [Heq|Hne].
           ++ rewrite decide_True by lia. exists name, meta, changes.
              rewrite Heq, Nat.sub_diag. done.
           ++ rewrite decide_False by lia. done.
    + (* its number is not in [stage_to_cut] *)
      cbn [mbind result_mbind result_bind].
      change (Prep.assigned_index (Prep.next_index st)) with (Prep.assigned_index st).
      destruct (decide (Prep.assigned_index st = PM.num_stages c)) as [Hdone|Hgo].
      * assert (targets = []) as -> by (destruct targets; [done|simpl in Hcount; lia]).
        exists (Prep.next_index st), []. rewrite app_nil_r.
        split; [done|]. split; [done|]. split; [done|]. split; [by intros j t ?|].
        cbn zeta. split; (rewrite decide_False by (simpl; lia)); done.
      * assert (Prep.index st ∉ targets) as Hnot by (by rewrite <- Hmem).
        destruct (IH (Prep.next_index st) targets Hcuts)
          as (st' & new & Hloop & Hatt & Hlen & Hnew & Hpre & Hpost).
        -- intros n Hn. apply Htraced. by right.
        -- intros k Hk. simpl in Hk. apply Hmem. lia.
        -- done.
        -- intros t Ht. specialize (Hrange t Ht). simpl in *.
           assert (t ≠ Prep.index st) by (by intros ->). lia.
        -- done.
        -- exists st', new. split; [exact Hloop|]. split; [done|]. split; [done|].
           split; [|done].
           intros j t Ht. destruct (Hnew j t Ht) as (n' & m' & Hn' & Hrest).
           exists n', m'. simpl in Hn'.
           assert (t ≠ Prep.index st).
           { intros ->. apply Hnot. by eapply list_elem_of_lookup_2. }
           assert (Prep.index st ≤ t).
           { apply (Hrange t). by eapply list_elem_of_lookup_2. }
           replace (t - Prep.index st) with (S (t - (Prep.index st + 1))) by lia.
           done.
Qed.

(** X16. [prep_cutpoints] places the boundaries where [stage_to_cut] says.
    The assignment is valid, starts with 0, and every marker it names
    exists and was traced. Then exactly the markers number
    [stage_to_cut[1]], ..., [stage_to_cut[num_stages - 1]] are attached,
    in this order, the one numbered [stage_to_cut[j]] with the index [j]
    and with its traced shapes and gradient flags; [pre_cp] is the marker
    with the index of the stage (none on the first stage), [post_cp] the
    one with the next index (none on the last stage), and
    [forward_input_shapes] and [backward_grad_shapes] are their traced
    shapes. *)
Theorem prep_cutpoints_places_boundaries (out : DryRun.DryRunOut) (c : PM.Config)
    (cuts : list Z) (num_cutpoints : nat) :
  PM.stage_to_cut c = Some cuts →
  PM.valid_stage_to_cut cuts (PM.num_stages c) num_cutpoints →
  cuts !! 0 = Some 0%Z →
  num_cutpoints ≤ length (markers (DryRun.out_ordered_modules out)) →
  (∀ name, name ∈ markers (DryRun.out_ordered_modules out) → traced_marker out name) →
  ∃ st,
    Prep.prep_cutpoints out c = Ok st ∧
    length (Prep.attached st) = PM.num_stages c - 1 ∧
    (∀ j cut, 1 ≤ j → cuts !! j = Some cut →
       ∃ name meta,
         markers (DryRun.out_ordered_modules out) !! (Z.to_nat cut - 1) = Some name ∧
         Prep.attached st !! (j - 1) = Some (name, meta) ∧
         Prep.cp_index meta = j ∧
         dict_get name (DryRun.out_input_gradients out) = Some (Prep.bwd_req_grads meta) ∧
         dict_get name (DryRun.out_input_shapes out) = Some (Prep.dummy_shapes meta)) ∧
    (if decide (1 ≤ PM.stage c < PM.num_stages c) then
       ∃ name meta,
         Prep.attached st !! (PM.stage c - 1) = Some (name, meta) ∧
         Prep.pre_cp st = Some name ∧
         Prep.forward_input_shapes st = Prep.dummy_shapes meta
     else Prep.pre_cp st = None ∧ Prep.forward_input_shapes st = []) ∧
    (if decide (PM.stage c + 1 < PM.num_stages c) then
       ∃ name meta,
         Prep.attached st !! PM.stage c = Some (name, meta) ∧
         Prep.post_cp st = Some name ∧
         Prep.backward_grad_shapes st = Prep.dummy_shapes meta
     else Prep.post_cp st = None ∧ Prep.backward_grad_shapes st = []).
Proof.
  intros Hcuts (Hlen & Hinc & Hlast) H0 Hmarkers Htraced.
  pose proof (increasing_lookup cuts Hinc) as Hmono.
  destruct cuts as [|c0 tl]; [done|]. injection H0 as ->.
  assert (∀ j z, tl !! j = Some z → (0 < z ≤ Z.of_nat num_cutpoints)%Z) as Hpos.
  { intros j z Hj. split.
    - apply (Hmono 0 (S j) 0%Z z); [lia|done|done].
    - destruct (last (0%Z :: tl)) as [x|] eqn:Hx.
      2:{ rewrite last_lookup in Hx. apply lookup_ge_None in Hx. simpl in Hx. lia. }
      specialize (Hlast x eq_refl). rewrite last_lookup in Hx. simpl in Hx.
      destruct (decide (S j = length tl)) as [Heq|Hne].
      + rewrite <- Heq in Hx. simpl in Hx. rewrite Hj in Hx. injection Hx as ->. done.
      + pose proof (lookup_lt_Some _ _ _ Hj).
        pose proof (Hmono (S j) (length tl) z x ltac:(lia) Hj Hx). lia. }
  unfold Prep.prep_cutpoints.
  set (st0 := {| Prep.index := 1 |}).
  destruct (prep_loop_spec out c (0%Z :: tl) (DryRun.out_ordered_modules out) st0
              (Z.to_nat <$> tl) Hcuts Htraced)
    as (st & new & Hloop & Hatt & Hnlen & Hnew & Hpre & Hpost).
  - intros k Hk. simpl in Hk. split.
    + intros [?|Hin]%elem_of_cons; [lia|]. apply list_elem_of_fmap.
      exists (Z.of_nat k). split; [lia|done].
    + intros (z & -> & Hz)%list_elem_of_fmap. right.
      apply list_elem_of_lookup in Hz as [j Hj]. pose proof (Hpos j z Hj).
      rewrite Z2Nat.id by lia. by eapply list_elem_of_lookup_2.
  - intros j j' t t'. rewrite !list_lookup_fmap. intros Hjj Hj Hj'.
    destruct (tl !! j) as [z|] eqn:Hz; [|done].
    destruct (tl !! j') as [z'|] eqn:Hz'; [|done]. simpl in Hj, Hj'.
    injection Hj as <-. injection Hj' as <-.
    pose proof (Hmono (S j) (S j') z z' ltac:(lia) Hz Hz').
    pose proof (Hpos j z Hz). lia.
  - intros t (z & -> & Hz)%list_elem_of_fmap.
    apply list_elem_of_lookup in Hz as [j Hj]. pose proof (Hpos j z Hj). simpl. lia.
  - simpl. rewrite length_fmap. simpl in Hlen. lia.
  - simpl in Hatt. subst new. rewrite length_fmap in Hnlen.
    simpl in Hlen. cbn zeta in Hpre, Hpost. simpl in Hpre, Hpost.
    rewrite length_fmap in Hpre, Hpost.
    exists st. split; [exact Hloop|]. split; [lia|]. split.
    { intros [|j] cut Hj Hcut; [lia|]. simpl in Hcut.
      destruct (Hnew j (Z.to_nat cut)) as (name & meta & Hn & Ha & Hi & Hg & Hs).
      { by rewrite list_lookup_fmap, Hcut. }
      exists name, meta. simpl in Hn. simpl. rewrite Nat.sub_0_r. split; [done|].
      split; [done|]. split; [simpl in Hi; lia|done]. }
    split.
    + destruct (decide (1 ≤ PM.stage c < PM.num_stages c)).
      * rewrite decide_True in Hpre by lia.
        destruct Hpre as (name & meta & changes & ? & ? & ? & _). by exists name, meta.
      * rewrite decide_False in Hpre by lia. by destruct Hpre as (-> & -> & _).
    + destruct (decide (PM.stage c + 1 < PM.num_stages c)).
      * rewrite decide_True in Hpost by lia.
        destruct Hpost as (name & meta & changes & Hl & ? & ? & _).
        replace (PM.stage c + 1 - 1) with (PM.stage c) in Hl by lia. by exists name, meta.
      * rewrite decide_False in Hpost by lia. by destruct Hpost as (-> & -> & _).
Qed.

Lemma prep_cutpoints_places_boundaries_witness :
  ∃ st,
    Prep.prep_cutpoints five_markers (config_of_stage sample_cuts 3 5 1) = Ok st ∧
    (Prep.attached st).*1 = ["c2"; "c4"] ∧
    Prep.pre_cp st = Some "c2" ∧ Prep.post_cp st = Some "c4" ∧
    Prep.forward_input_shapes st = [[1; 2]] ∧ Prep.backward_grad_shapes st = [[1; 4]] ∧
    length (Prep.attached st) = 2.
Proof.
  destruct (prep_cutpoints_places_boundaries five_markers
              (config_of_stage sample_cuts 3 5 1) sample_cuts 5 eq_refl sample_cuts_valid
              eq_refl) as (st & Hrun & Hlen & _).
  - simpl. lia.
  - intros name Hin.
    assert (name ∈ ["c1"; "c2"; "c3"; "c4"; "c5"]) as Hin' by exact Hin.
    repeat (apply elem_of_cons in Hin' as [->|Hin']; [by repeat split; eexists|]).
    by apply elem_of_nil in Hin'.
  - exists st. split; [exact Hrun|].
    assert (Prep.prep_cutpoints five_markers (config_of_stage sample_cuts 3 5 1)
            = Ok {| Prep.index := 5; Prep.assigned_index := 3;
                    Prep.forward_input_shapes := [[1; 2]];
                    Prep.fwd_inp_shape_changes := Some [[0]]; Prep.pre_cp := Some "c2";
                    Prep.backward_grad_shapes := [[1; 4]];
                    Prep.bwd_grad_shape_changes := Some [[0]]; Prep.post_cp := Some "c4";
                    Prep.attached :=
                      [("c2", {| Prep.cp_index := 1; Prep.bwd_req_grads := [true];
                                 Prep.dummy_shapes := [[1; 2]] |});
                       ("c4", {| Prep.cp_index := 2; Prep.bwd_req_grads := [true];
                                 Prep.dummy_shapes := [[1; 4]] |})] |}) as E
      by (vm_compute; reflexivity).
    rewrite E in Hrun. injection Hrun as <-. done.
Defined.
